(** * Session persistence and login reconciliation of the Instagram DM bot

    A shallow embedding of [main.py]: the two bot classes
    ([InstagramDMBot], [PersistentInstagramDMBot]) and the script body.

    The program is written against three outside collaborators: the
    Selenium driver, the [requests] HTTP client and the clock/random
    generator.  They are kept abstract (class [Externals]); every call the
    program makes to them is recorded, with its outcome, in a trace.  The
    two files the bot owns are modelled concretely.  Python exceptions are
    modelled by an error result that keeps the state reached so far.

    Logging ([logger.info] and friends, to the console and to the file
    [instagram_bot.log]) has no effect the program reads back and is
    left out, and with it the log file; so is [self.last_action_time],
    which is written by [human_delay] and never read.  A text is held as
    its UTF-8 bytes.  Time is not modelled: a wait is recorded with the
    timeout it was given, a pause with the bounds it was given. *)

From Stdlib Require Import String Ascii List Bool Arith Lia Sorted Permutation.
From stdpp Require Import gmap strings list pretty.
Import ListNotations.
Local Open Scope string_scope.
Local Open Scope list_scope.

(** ** Exceptions and results *)

(** The exception classes the program can meet.  All of them derive from
    Python's [Exception]. *)
Inductive exn : Type :=
| TimeoutException
| NoSuchElementException
| WebDriverException
| AttributeError
| OSError
| UnpicklingError
| JSONDecodeError
| TypeError
| RequestException.

#[global] Instance exn_eq_dec : EqDecision exn.
Proof. solve_decision. Defined.

Inductive res (A : Type) : Type :=
| Val (a : A)
| Exc (e : exn).
Arguments Val {A} a.
Arguments Exc {A} e.

Inductive outcome : Type :=
| Ok
| Raised (e : exn).

Definition outcome_of {A} (r : res A) : outcome :=
  match r with Val _ => Ok | Exc e => Raised e end.

(** ** Data *)

(** A [WebElement] is an opaque handle; it is always truthy in Python. *)
Definition WebElement := nat.

Inductive By : Type := ByXPath | ByName.

(** The two expected conditions the program waits for. *)
Inductive Cond : Type := Clickable | Presence.

Record cookie : Type := mkCookie {
  c_name : string;
  c_value : string;
  c_domain : string;
  c_path : string;
  c_expiry : option Z
}.

Record response : Type := mkResponse {
  status_code : nat;
  text : string
}.

(** The dict [save_session] pickles.  A key that is absent from a pickled
    dict read back from disk is [None] here. *)
Record session_data : Type := mkSession {
  sd_last_login : option string;
  sd_user_agent : option string;
  sd_current_url : option string;
  sd_processed_messages : option (list string)
}.

(** One item of what [json.load] returned, as the loop of [load_session]
    hands it to [add_cookie]: a JSON object, read as a cookie dict, or
    anything else (a number, a string, a key of an object, a character
    of a string), kept as its text. *)
Inductive json_item : Type :=
| ItemCookie (c : cookie)
| ItemOther (raw : string).

(** What a file holds, as far as [json.load] and [pickle.load] can tell. *)
Inductive file_content : Type :=
| Garbage (raw : string)
| PickledDict (d : session_data)
| PickledOther
| JsonCookies (cs : list cookie)       (* a JSON array of objects *)
| JsonItems (items : list json_item)   (* other JSON that [for] can run over: an
                                          array with elements that are not
                                          objects, an object (its keys), a
                                          string (its characters) *)
| JsonScalar                           (* a number, [true], [false] or [null] *)
| Truncated.                           (* what a write that failed left behind:
                                          nothing, or the start of the data *)

(** The files by path; the paths on which [open] raises (no permission,
    say), whatever the mode; and the paths that can be opened for writing
    but on which the write or the close raises (a full disk, say): [open]
    has emptied the file by then. *)
Record FileSystem : Type := mkFS {
  files : gmap string file_content;
  locked : gset string;
  unwritable : gset string
}.

(** The dict built by [get_new_messages]: keys 'id', 'content', 'url'. *)
Record message : Type := mkMessage {
  m_id : string;
  m_content : string;
  m_url : option string
}.

(** ** Calls to the outside world *)

Inductive Call : Type :=
| CMakedirs (path : string)
| CRandomChoice
| CStartChrome (args : list string)
| CGet (url : string)
| CRefresh
| CWait (timeout : nat) (c : Cond) (by_ : By) (v : string)
| CFind (by_ : By) (v : string)
| CFindAll (by_ : By) (v : string)
| CClick (e : WebElement)
| CClear (e : WebElement)
| CSendKeys (e : WebElement) (ch : string)
| CText (e : WebElement)
| CGetCookies
| CAddCookie (c : cookie)
| CAddOther (raw : string)
| CExecScript (js : string)
| CCurrentUrl
| CQuit
| CSleep (lo_ms hi_ms : nat)
| CNow
| CHttpGet (url : string)
| CHttpPost (url : string) (data : list (string * string))
| CWriteFile (path : string).

Definition Event : Type := Call * outcome.

(** The capability set the program needs from its collaborators.  [X] is
    the state of the outside world (browser, network, clock); every
    operation may change it, and those that can raise say so in their
    result. *)
Class Externals (X : Type) : Type := {
  os_makedirs : string -> X -> res unit * X;
  random_choice : list string -> X -> string * X;
  chrome_start : list string -> X -> res unit * X;
  drv_get : string -> X -> res unit * X;
  drv_refresh : X -> res unit * X;
  drv_wait : nat -> Cond -> By -> string -> X -> res WebElement * X;
  drv_find_element : By -> string -> X -> res WebElement * X;
  drv_find_elements : By -> string -> X -> res (list WebElement) * X;
  elem_click : WebElement -> X -> res unit * X;
  elem_clear : WebElement -> X -> res unit * X;
  elem_send_keys : WebElement -> string -> X -> res unit * X;
  elem_text : WebElement -> X -> res string * X;
  drv_get_cookies : X -> res (list cookie) * X;
  drv_add_cookie : cookie -> X -> res unit * X;
  drv_add_other : string -> X -> res unit * X;
  drv_execute_script : string -> X -> res string * X;
  drv_current_url : X -> res string * X;
  drv_quit : X -> res unit * X;
  time_sleep : nat -> nat -> X -> X;
  datetime_now : X -> string * X;
  requests_get : string -> list (string * string) -> X -> res response * X;
  requests_post : string -> list (string * string) -> list (string * string) ->
                  X -> res response * X;
  (* pure library functions: [str.strip], [str.lower], [str(hash(s))] and
     [re.search] with the URL pattern of [extract_instagram_url] *)
  str_strip : string -> string;
  str_lower : string -> string;
  hash_repr : string -> string;
  re_search_url : string -> option string
}.

(** ** A state and exception monad

    A computation runs in a state and either returns a value or raises;
    in both cases the state it reached is kept, as in Python. *)

Section Monad.

Context {S : Type}.

Definition M (A : Type) : Type := S -> res A * S.

Definition ret {A} (a : A) : M A := fun w => (Val a, w).

Definition raise {A} (e : exn) : M A := fun w => (Exc e, w).

Definition bind {A B} (m : M A) (f : A -> M B) : M B := fun w =>
  match m w with
  | (Val a, w1) => f a w1
  | (Exc e, w1) => (Exc e, w1)
  end.

(** [try: m except Exception as e: h e] *)
Definition try_except {A} (m : M A) (h : exn -> M A) : M A := fun w =>
  match m w with
  | (Val a, w1) => (Val a, w1)
  | (Exc e, w1) => h e w1
  end.

(** [try: m except TimeoutException: h]; any other exception goes on. *)
Definition try_timeout {A} (m : M A) (h : M A) : M A := fun w =>
  match m w with
  | (Exc TimeoutException, w1) => h w1
  | other => other
  end.

(** [try: m finally: f].  An exception raised by [f] replaces the result
    of [m]. *)
Definition try_finally {A} (m : M A) (f : M unit) : M A := fun w =>
  match m w with
  | (r, w1) =>
      match f w1 with
      | (Val _, w2) => (r, w2)
      | (Exc e, w2) => (Exc e, w2)
      end
  end.

End Monad.

Arguments M S A : clear implicits.
Arguments ret : simpl never.
Arguments raise : simpl never.
Arguments bind : simpl never.
Arguments try_except : simpl never.
Arguments try_timeout : simpl never.
Arguments try_finally : simpl never.

Declare Scope bot_scope.
Delimit Scope bot_scope with bot.
Notation "x <- m ;; k" := (bind m (fun x => k))
  (at level 100, m at next level, right associativity) : bot_scope.
Notation "m ;;; k" := (bind m (fun _ => k))
  (at level 100, right associativity) : bot_scope.
Local Open Scope bot_scope.

(** ** The bot and its world *)

Section Bot.

Context {X : Type} `{Externals X}.

Record World : Type := mkWorld {
  ext : X;
  fs : FileSystem;
  username : string;
  password : string;
  buffer_token : string;
  buffer_profile_id : string;
  driver : bool;
  processed_messages : gset string;
  trace : list Event
}.

Definition set_ext (x : X) (w : World) : World :=
  mkWorld x (fs w) (username w) (password w) (buffer_token w)
    (buffer_profile_id w) (driver w) (processed_messages w) (trace w).

Definition set_fs (f : FileSystem) (w : World) : World :=
  mkWorld (ext w) f (username w) (password w) (buffer_token w)
    (buffer_profile_id w) (driver w) (processed_messages w) (trace w).

Definition set_driver (d : bool) (w : World) : World :=
  mkWorld (ext w) (fs w) (username w) (password w) (buffer_token w)
    (buffer_profile_id w) d (processed_messages w) (trace w).

Definition set_processed_messages (s : gset string) (w : World) : World :=
  mkWorld (ext w) (fs w) (username w) (password w) (buffer_token w)
    (buffer_profile_id w) (driver w) s (trace w).

Definition log_event (ev : Event) (w : World) : World :=
  mkWorld (ext w) (fs w) (username w) (password w) (buffer_token w)
    (buffer_profile_id w) (driver w) (processed_messages w) (trace w ++ [ev]).

(** [self.session_file] and [self.cookies_file], set in [__init__]. *)
Definition session_file (w : World) : string :=
  "instagram_session_" +:+ username w +:+ ".pkl".
Definition cookies_file (w : World) : string :=
  "instagram_cookies_" +:+ username w +:+ ".json".

(** ** Primitive effects *)

(** A call to the outside world: run it, keep the new outside state and
    append the call with its outcome to the trace. *)
Definition call {A} (c : Call) (op : X -> res A * X) : M World A := fun w =>
  let '(r, x) := op (ext w) in
  (r, log_event (c, outcome_of r) (set_ext x w)).

(** A call that cannot raise. *)
Definition call_total {A} (c : Call) (op : X -> A * X) : M World A :=
  call c (fun x => let '(a, x1) := op x in (Val a, x1)).

(** A method call on [self.driver], which is [None] until [setup_driver]
    has stored the driver. *)
Definition on_driver {A} (c : Call) (op : X -> res A * X) : M World A := fun w =>
  if driver w then call c op w else (Exc AttributeError, w).

(** [time.sleep(random.uniform(lo, hi))], bounds in milliseconds. *)
Definition sleep_uniform (lo_ms hi_ms : nat) : M World unit :=
  call_total (CSleep lo_ms hi_ms) (fun x => (tt, time_sleep lo_ms hi_ms x)).

(** [os.path.exists(path)] *)
Definition path_exists (path : string) : M World bool := fun w =>
  (Val (bool_decide (is_Some (files (fs w) !! path))), w).

(** [with open(path, mode) as f: load(f)]: the content, as the loader
    will see it. *)
Definition read_file (path : string) : M World file_content := fun w =>
  if bool_decide (path ∈ locked (fs w)) then (Exc OSError, w)
  else match files (fs w) !! path with
       | Some c => (Val c, w)
       | None => (Exc OSError, w)
       end.

(** The file system after [path] was given the content [c]. *)
Definition store (path : string) (c : file_content) (f : FileSystem) : FileSystem :=
  mkFS (<[path := c]> (files f)) (locked f) (unwritable f).

(** [with open(path, mode) as f: dump(obj, f)].  When [open] raises the
    file is as it was; when the write raises after [open] went through,
    the old content is gone. *)
Definition write_file (path : string) (c : file_content) : M World unit := fun w =>
  if bool_decide (path ∈ locked (fs w))
  then (Exc OSError, log_event (CWriteFile path, Raised OSError) w)
  else if bool_decide (path ∈ unwritable (fs w))
  then (Exc OSError,
        log_event (CWriteFile path, Raised OSError)
          (set_fs (store path Truncated (fs w)) w))
  else (Val tt,
        log_event (CWriteFile path, Ok) (set_fs (store path c (fs w)) w)).

(** [pickle.load] and [json.load] applied to what a file holds.  The
    program catches [Exception] around both, so that the class of what a
    loader raises on bytes it does not accept is never looked at: one
    class per loader stands for all of them. *)
Definition pickle_load (c : file_content) : M World file_content :=
  match c with
  | PickledDict _ | PickledOther => ret c
  | _ => raise UnpicklingError
  end.

Definition json_load (c : file_content) : M World file_content :=
  match c with
  | JsonCookies _ | JsonItems _ | JsonScalar => ret c
  | _ => raise JSONDecodeError
  end.

(** ** class InstagramDMBot *)

(** [human_delay(min_seconds, max_seconds)] *)
Definition human_delay (min_seconds max_seconds : nat) : M World unit :=
  sleep_uniform (1000 * min_seconds) (1000 * max_seconds).

(** [WebDriverWait(self.driver, timeout).until(EC...((by, v)))] *)
Definition wait_until (timeout : nat) (c : Cond) (by_ : By) (v : string)
  : M World WebElement :=
  on_driver (CWait timeout c by_ v) (drv_wait timeout c by_ v).

Definition find_element (by_ : By) (v : string) : M World WebElement :=
  on_driver (CFind by_ v) (drv_find_element by_ v).

Definition find_elements (by_ : By) (v : string) : M World (list WebElement) :=
  on_driver (CFindAll by_ v) (drv_find_elements by_ v).

Definition driver_get (url : string) : M World unit :=
  on_driver (CGet url) (drv_get url).

Definition click (e : WebElement) : M World unit :=
  call (CClick e) (elem_click e).

Definition clear (e : WebElement) : M World unit :=
  call (CClear e) (elem_clear e).

Definition send_keys (e : WebElement) (ch : string) : M World unit :=
  call (CSendKeys e ch) (elem_send_keys e ch).

Definition bearer (token : string) : string := "Bearer " +:+ token.

Definition user_endpoint : string := "https://api.bufferapp.com/1/user.json".
Definition create_endpoint : string :=
  "https://api.bufferapp.com/1/updates/create.json".

(** [test_buffer_connection] *)
Definition test_buffer_connection : M World bool :=
  try_except
    (fun w =>
       (let headers := [("Authorization", bearer (buffer_token w))] in
        response <- call (CHttpGet user_endpoint)
                      (requests_get user_endpoint headers) ;;
        if Nat.eqb (status_code response) 200 then ret true else ret false) w)
    (fun _ => ret false).

(** Whether a byte continues a UTF-8 character: [10xxxxxx]. *)
Definition continuation (b : ascii) : bool :=
  Nat.leb 128 (nat_of_ascii b) && Nat.ltb (nat_of_ascii b) 192.

(** The characters of a text.  A text is held as its UTF-8 bytes, and a
    character starts at every byte that is not a continuation byte: this
    is what [for char in s] runs over.  [continued s]: the bytes of [s]
    begin in the middle of a character. *)
Definition continued (s : string) : bool :=
  match s with
  | String b _ => continuation b
  | EmptyString => false
  end.

Fixpoint py_chars (s : string) : list string :=
  match s with
  | EmptyString => []
  | String b rest =>
      if continued rest
      then match py_chars rest with
           | ch :: chars => String b ch :: chars
           | [] => [String b EmptyString]
           end
      else String b EmptyString :: py_chars rest
  end.

(** The loop [for char in s: e.send_keys(char); time.sleep(random.uniform(0.05, 0.15))],
    over the characters of [s]. *)
Fixpoint type_chars (e : WebElement) (chars : list string) : M World unit :=
  match chars with
  | [] => ret tt
  | ch :: rest =>
      send_keys e ch ;;;
      sleep_uniform 50 150 ;;;
      type_chars e rest
  end.

Definition not_now_xpath : string := "//button[contains(text(), 'Not Now')]".
Definition not_now_or_cancel_xpath : string :=
  "//button[contains(text(), 'Not Now') or contains(text(), 'Cancel')]".
Definition accept_xpath : string :=
  "//button[contains(text(), 'Accept') or contains(text(), 'Allow')]".
Definition direct_link_xpath : string := "//a[contains(@href, '/direct/')]".
Definition submit_xpath : string := "//button[@type='submit']".
Definition login_url : string := "https://www.instagram.com/accounts/login/".
Definition base_url : string := "https://www.instagram.com".

(** One optional dialog: wait for its button, click it and pause; a
    timeout of the wait means the dialog is not there. *)
Definition dismiss_if_present (xpath : string) : M World unit :=
  try_timeout
    (btn <- wait_until 5 Clickable ByXPath xpath ;;
     click btn ;;;
     human_delay 2 3)
    (ret tt).

(** [handle_login_challenges] *)
Definition handle_login_challenges : M World unit :=
  try_except
    (dismiss_if_present not_now_xpath ;;;
     dismiss_if_present not_now_or_cancel_xpath)
    (fun _ => ret tt).

(** The last block of [login_instagram]: "Verify login success". *)
Definition verify_login : M World bool :=
  try_timeout
    (wait_until 10 Presence ByXPath direct_link_xpath ;;; ret true)
    (ret false).

(** The body of the [try] of [login_instagram]. *)
Definition login_attempt : M World bool := fun w =>
  (driver_get login_url ;;;
   human_delay 3 5 ;;;
   dismiss_if_present accept_xpath ;;;
   username_input <- wait_until 10 Presence ByName "username" ;;
   clear username_input ;;;
   type_chars username_input (py_chars (username w)) ;;;
   human_delay 1 2 ;;;
   password_input <- find_element ByName "password" ;;
   clear password_input ;;;
   type_chars password_input (py_chars (password w)) ;;;
   human_delay 1 2 ;;;
   login_btn <- find_element ByXPath submit_xpath ;;
   click login_btn ;;;
   human_delay 5 8 ;;;
   handle_login_challenges ;;;
   verify_login) w.

(** [login_instagram] *)
Definition login_instagram : M World bool :=
  try_except login_attempt (fun _ => ret false).

Definition dm_marker_xpath : string :=
  "//div[contains(@class, 'message') or contains(text(), 'Direct')]".
Definition conversation_xpath : string :=
  "//div[contains(@role, 'button') and contains(@class, 'conversation')]".
Definition message_xpath : string :=
  "//div[contains(@class, 'message') and contains(@data-testid, 'message')]".

(** [navigate_to_dms] *)
Definition navigate_to_dms : M World bool :=
  try_except
    (dm_link <- wait_until 10 Clickable ByXPath direct_link_xpath ;;
     click dm_link ;;;
     human_delay 3 5 ;;;
     try_timeout
       (wait_until 10 Presence ByXPath dm_marker_xpath ;;; ret true)
       (ret false))
    (fun _ => ret false).

(** [sub in s] *)
Definition str_in (sub s : string) : bool :=
  match String.index 0 sub s with Some _ => true | None => false end.

(** [extract_instagram_url] *)
Definition extract_instagram_url (text : string) : option string :=
  re_search_url text.

(** [l[-3:]] *)
Definition last3 {A} (l : list A) : list A := skipn (length l - 3) l.

(** The body of the inner loop of [get_new_messages] for one message
    element; [messages] is the list built so far. *)
Definition scan_message (i : nat) (msg_elem : WebElement) (messages : list message)
  : M World (list message) :=
  try_except
    (fun w =>
       (raw <- call (CText msg_elem) (elem_text msg_elem) ;;
        let message_text := str_strip raw in
        if str_in "instagram.com" message_text
           || str_in "reel" (str_lower message_text)
        then
          let message_id := pretty i +:+ "_" +:+ hash_repr message_text in
          if bool_decide (message_id ∈ processed_messages w)
          then ret messages
          else ret (messages ++
                      [mkMessage message_id message_text
                         (extract_instagram_url message_text)])
        else ret messages) w)
    (fun _ => ret messages).

Fixpoint scan_messages (i : nat) (elems : list WebElement) (messages : list message)
  : M World (list message) :=
  match elems with
  | [] => ret messages
  | msg_elem :: rest =>
      messages1 <- scan_message i msg_elem messages ;;
      scan_messages i rest messages1
  end.

(** The body of the outer loop for conversation number [i].  [messages]
    is one shared Python list: a fault leaves in it whatever was appended
    before. *)
Definition scan_conversation (i : nat) (conversation : WebElement)
    (messages : list message) : M World (list message) := fun w =>
  match (click conversation ;;;
         human_delay 2 3 ;;;
         find_elements ByXPath message_xpath) w with
  | (Exc _, w1) => (Val messages, w1)
  | (Val message_elements, w1) =>
      match scan_messages i (last3 message_elements) messages w1 with
      | (Exc _, w2) => (Val messages, w2)
      | (Val messages1, w2) =>
          match human_delay 1 2 w2 with
          | (_, w3) => (Val messages1, w3)
          end
      end
  end.

Fixpoint scan_conversations (i : nat) (conversations : list WebElement)
    (messages : list message) : M World (list message) :=
  match conversations with
  | [] => ret messages
  | conversation :: rest =>
      messages1 <- scan_conversation i conversation messages ;;
      scan_conversations (S i) rest messages1
  end.

(** [get_new_messages] *)
Definition get_new_messages : M World (list message) :=
  try_except
    (conversations <- find_elements ByXPath conversation_xpath ;;
     scan_conversations 0 (firstn 5 conversations) [])
    (fun _ => ret []).

(** Python truthiness of an optional string: [None] and [''] are falsy. *)
Definition truthy (s : option string) : bool :=
  match s with
  | None | Some EmptyString => false
  | Some _ => true
  end.

(** [add_to_buffer_fixed] *)
Definition add_to_buffer_fixed (msg : message) : M World bool :=
  try_except
    (fun w =>
       match m_url msg with
       | None | Some EmptyString => (Val false, w)
       | Some url =>
           (let post_data :=
              [("text", "Check out this amazing content! " +:+ url);
               ("profile_ids[]", buffer_profile_id w);
               ("shorten", "true")] in
            let headers :=
              [("Authorization", bearer (buffer_token w));
               ("Content-Type", "application/x-www-form-urlencoded")] in
            response <- call (CHttpPost create_endpoint post_data)
                          (requests_post create_endpoint post_data headers) ;;
            if Nat.eqb (status_code response) 200
            then
              (fun w1 =>
                 (Val true,
                  set_processed_messages
                    ({[ m_id msg ]} ∪ processed_messages w1) w1))
            else ret false) w
       end)
    (fun _ => ret false).

(** ** class PersistentInstagramDMBot *)

Definition viewports : list string :=
  ["1366,768"; "1920,1080"; "1440,900"; "1536,864"].

Definition user_agent_arg : string :=
  "--user-agent=Mozilla/5.0 (Windows NT 10.0; Win64; x64) AppleWebKit/537.36 (KHTML, like Gecko) Chrome/120.0.0.0 Safari/537.36".

Definition stealth_scripts : list string :=
  ["Object.defineProperty(navigator, 'webdriver', {get: () => undefined})";
   "Object.defineProperty(navigator, 'plugins', {get: () => [1, 2, 3, 4, 5]})";
   "Object.defineProperty(navigator, 'languages', {get: () => ['en-US', 'en']})"].

Definition execute_script (js : string) : M World string :=
  on_driver (CExecScript js) (drv_execute_script js).

(** [setup_driver(headless, use_proxy, proxy_address)].  The experimental
    options and the preference dict are constants handed to Chrome and are
    left out of the argument list. *)
Definition setup_driver (headless use_proxy : bool) (proxy_address : option string)
  : M World unit := fun w =>
  (let user_data_dir := "/tmp/chrome_profile_" +:+ username w in
   call (CMakedirs user_data_dir) (os_makedirs user_data_dir) ;;;
   viewport <- call_total CRandomChoice (random_choice viewports) ;;
   let args :=
     (if headless then ["--headless"] else []) ++
     ["--no-sandbox"; "--disable-dev-shm-usage";
      "--disable-blink-features=AutomationControlled";
      "--disable-web-security"; "--disable-features=VizDisplayCompositor";
      "--disable-extensions"; "--disable-plugins";
      "--user-data-dir=" +:+ user_data_dir; "--profile-directory=Default";
      "--window-size=" +:+ viewport; user_agent_arg] ++
     (if use_proxy && truthy proxy_address
      then ["--proxy-server=" +:+ default EmptyString proxy_address] else []) in
   call (CStartChrome args) (chrome_start args) ;;;
   (fun w1 => (Val tt, set_driver true w1)) ;;;
   execute_script "Object.defineProperty(navigator, 'webdriver', {get: () => undefined})" ;;;
   execute_script "Object.defineProperty(navigator, 'plugins', {get: () => [1, 2, 3, 4, 5]})" ;;;
   execute_script "Object.defineProperty(navigator, 'languages', {get: () => ['en-US', 'en']})" ;;;
   ret tt) w.

(** [save_session] *)
Definition save_session : M World bool :=
  try_except
    (fun w =>
       (cookies <- on_driver CGetCookies drv_get_cookies ;;
        write_file (cookies_file w) (JsonCookies cookies) ;;;
        now <- call_total CNow datetime_now ;;
        user_agent <- execute_script "return navigator.userAgent" ;;
        current_url <- on_driver CCurrentUrl drv_current_url ;;
        let session_data :=
          mkSession (Some now) (Some user_agent) (Some current_url)
            (Some (elements (processed_messages w))) in
        write_file (session_file w) (PickledDict session_data) ;;;
        ret true) w)
    (fun _ => ret false).

(** The loop [for cookie in cookies: try: add_cookie(cookie) except Exception: continue] *)
Fixpoint inject_cookies (cookies : list cookie) : M World unit :=
  match cookies with
  | [] => ret tt
  | c :: rest =>
      try_except (on_driver (CAddCookie c) (drv_add_cookie c)) (fun _ => ret tt) ;;;
      inject_cookies rest
  end.

(** The same loop over items that need not be cookie dicts. *)
Fixpoint inject_items (items : list json_item) : M World unit :=
  match items with
  | [] => ret tt
  | ItemCookie c :: rest =>
      try_except (on_driver (CAddCookie c) (drv_add_cookie c)) (fun _ => ret tt) ;;;
      inject_items rest
  | ItemOther raw :: rest =>
      try_except (on_driver (CAddOther raw) (drv_add_other raw)) (fun _ => ret tt) ;;;
      inject_items rest
  end.

(** [for cookie in cookies: ...] over what [json.load] returned: a value
    that is not iterable makes the [for] raise [TypeError]. *)
Definition for_each_cookie (cookies : file_content) : M World unit :=
  match cookies with
  | JsonCookies cs => inject_cookies cs
  | JsonItems items => inject_items items
  | _ => raise TypeError
  end.

(** [session_data.get('processed_messages', [])] *)
Definition get_processed_messages (c : file_content) : M World (list string) :=
  match c with
  | PickledDict d => ret (default [] (sd_processed_messages d))
  | _ => raise AttributeError
  end.

(** The first block of [load_session]: "Load session info". *)
Definition load_session_info : M World unit := fun w =>
  (has_session <- path_exists (session_file w) ;;
   if has_session then
     raw <- read_file (session_file w) ;;
     session_data <- pickle_load raw ;;
     ids <- get_processed_messages session_data ;;
     (fun w1 => (Val tt, set_processed_messages (list_to_set ids) w1))
   else ret tt) w.

(** The second block: "Load cookies if available". *)
Definition load_cookies : M World bool := fun w =>
  (has_cookies <- path_exists (cookies_file w) ;;
   if has_cookies then
     driver_get base_url ;;;
     human_delay 2 3 ;;;
     raw <- read_file (cookies_file w) ;;
     cookies <- json_load raw ;;
     for_each_cookie cookies ;;;
     on_driver CRefresh drv_refresh ;;;
     human_delay 3 5 ;;;
     ret true
   else ret false) w.

(** [load_session] *)
Definition load_session : M World bool :=
  try_except (load_session_info ;;; load_cookies) (fun _ => ret false).

Definition logged_in_indicators : list string :=
  ["//a[contains(@href, '/direct/')]";
   "//svg[@aria-label='Direct']";
   "//a[contains(@href, 'accounts/edit')]";
   "//button[contains(@class, 'follow')]";
   "//div[contains(@class, 'logged-in')]"].

Definition login_indicators : list string :=
  ["//input[@name='username']";
   "//input[@name='password']";
   "//button[@type='submit']"].

(** The first loop of [is_logged_in]: [true] as soon as one indicator is
    present within 5 seconds; a timeout moves on to the next one. *)
Fixpoint probe_indicators (indicators : list string) : M World bool :=
  match indicators with
  | [] => ret false
  | indicator :: rest =>
      found <- try_timeout
                 (wait_until 5 Presence ByXPath indicator ;;; ret true)
                 (ret false) ;;
      if found then ret true else probe_indicators rest
  end.

(** The second loop: it stops at the first login-page element it finds;
    the bare [except:] swallows every fault.  The function returns
    [False] after it in either case. *)
Fixpoint probe_login_page (indicators : list string) : M World unit :=
  match indicators with
  | [] => ret tt
  | indicator :: rest =>
      found <- try_except (find_element ByXPath indicator ;;; ret true)
                 (fun _ => ret false) ;;
      if found then ret tt else probe_login_page rest
  end.

(** [is_logged_in], with the list of logged-in indicators as a parameter. *)
Definition is_logged_in_with (indicators : list string) : M World bool :=
  try_except
    (driver_get base_url ;;;
     human_delay 3 5 ;;;
     found <- probe_indicators indicators ;;
     if found then ret true
     else (probe_login_page login_indicators ;;; ret false))
    (fun _ => ret false).

Definition is_logged_in : M World bool :=
  is_logged_in_with logged_in_indicators.

(** [smart_login] *)
Definition smart_login : M World bool :=
  try_except
    (setup_driver true false None ;;;
     session_loaded <- load_session ;;
     logged_in <- is_logged_in ;;
     if logged_in then ret true
     else
       ok <- login_instagram ;;
       if ok then (save_session ;;; ret true) else ret false)
    (fun _ => ret false).

(** The loop of [run_scheduled_check] over the new messages. *)
Fixpoint publish_all (new_messages : list message) (processed_count : nat)
  : M World nat :=
  match new_messages with
  | [] => ret processed_count
  | msg :: rest =>
      ok <- add_to_buffer_fixed msg ;;
      human_delay 3 6 ;;;
      publish_all rest (if ok then S processed_count else processed_count)
  end.

(** [run_scheduled_check] *)
Definition run_scheduled_check : M World bool :=
  try_finally
    (try_except
       (authenticated <- smart_login ;;
        if negb authenticated then ret false
        else
          in_dms <- navigate_to_dms ;;
          if negb in_dms then ret false
          else
            new_messages <- get_new_messages ;;
            publish_all new_messages 0 ;;;
            save_session ;;;
            ret true)
       (fun _ => ret false))
    (fun w => if driver w then call CQuit drv_quit w else (Val tt, w)).

(** ** The script body *)

(** What [setup_environment_variables] returns: [os.getenv] gives [None]
    for an unset variable. *)
Record Config : Type := mkConfig {
  cfg_username : option string;
  cfg_password : option string;
  cfg_buffer_token : option string;
  cfg_buffer_profile_id : option string
}.

(** [__init__] of both classes. *)
Definition new_bot (u p t i : string) (x : X) (f : FileSystem) : World :=
  mkWorld x f u p t i false ∅ [].

(** How the process ends: [sys.exit(code)], or an exception nobody caught,
    on which the interpreter prints a traceback and exits with status 1. *)
Inductive process_end : Type :=
| SysExit (code : nat)
| Traceback (e : exn).

Definition exit_code (p : process_end) : nat :=
  match p with
  | SysExit code => code
  | Traceback _ => 1
  end.

Definition missing_vars (config : Config) : list string :=
  (if truthy (cfg_username config) then [] else ["username"]) ++
  (if truthy (cfg_password config) then [] else ["password"]) ++
  (if truthy (cfg_buffer_token config) then [] else ["buffer_token"]) ++
  (if truthy (cfg_buffer_profile_id config) then [] else ["buffer_profile_id"]).

(** [PersistentInstagramDMBot(username=config['username'], ...)] *)
Definition bot_of_config (config : Config) (x : X) (f : FileSystem) : World :=
  new_bot (default EmptyString (cfg_username config))
    (default EmptyString (cfg_password config))
    (default EmptyString (cfg_buffer_token config))
    (default EmptyString (cfg_buffer_profile_id config)) x f.

(** The [if __name__ == "__main__"] block.  [create_setup_files] only
    tests three paths for existence and logs.  The result is how the process ends, together with the calls
    made to the outside world and the file system left behind. *)
Definition main (config : Config) (x : X) (f : FileSystem)
  : process_end * (list Event * X * FileSystem) :=
  match missing_vars config with
  | _ :: _ => (SysExit 1, ([], x, f))
  | [] =>
      match test_buffer_connection (bot_of_config config x f) with
      | (Exc e, w1) => (Traceback e, (trace w1, ext w1, fs w1))
      | (Val false, w1) => (SysExit 1, (trace w1, ext w1, fs w1))
      | (Val true, w1) =>
          match run_scheduled_check w1 with
          | (Exc e, w2) => (Traceback e, (trace w2, ext w2, fs w2))
          | (Val true, w2) => (SysExit 0, (trace w2, ext w2, fs w2))
          | (Val false, w2) => (SysExit 1, (trace w2, ext w2, fs w2))
          end
      end
  end.

End Bot.

Arguments World X : clear implicits.

(** ** A small simulated site

    A concrete instance of the collaborators, used to run the program on
    examples: a site that shows the logged-in markers when the browser
    holds a session and the login form when it does not. *)

Module Sim.

Record state : Type := mk {
  logged_in : bool;          (* the browser holds an authenticated session *)
  password_ok : bool;        (* submitting the login form opens a session *)
  faulty : list string;      (* locators whose lookup makes the driver raise *)
  jar : list cookie;         (* the cookies of the browser *)
  quit_raises : bool;        (* shutting the driver down raises *)
  api_status : option nat;   (* answer to GET user.json; None: no connection *)
  post_status : option nat;  (* answer to POST create.json; None: no connection *)
  inbox : list string        (* texts of the messages of the one conversation *)
}.

Definition mem (v : string) (l : list string) : bool := existsb (String.eqb v) l.

Definition present (st : state) (v : string) : bool :=
  if logged_in st
  then mem v [direct_link_xpath; "//svg[@aria-label='Direct']"; dm_marker_xpath;
              conversation_xpath; message_xpath]
  else mem v ["username"; "password"; submit_xpath; "//input[@name='username']";
              "//input[@name='password']"].

(** The handle of the element a locator finds. *)
Definition handle (v : string) : WebElement := String.length v.

Definition lookup (st : state) (absent : exn) (v : string) : res WebElement * state :=
  if mem v (faulty st) then (Exc WebDriverException, st)
  else if present st v then (Val (handle v), st)
  else (Exc absent, st).

Definition well_formed (c : cookie) : bool := negb (String.eqb (c_name c) EmptyString).

Definition with_logged_in (b : bool) (st : state) : state :=
  mk b (password_ok st) (faulty st) (jar st) (quit_raises st) (api_status st)
    (post_status st) (inbox st).

Definition with_jar (j : list cookie) (st : state) : state :=
  mk (logged_in st) (password_ok st) (faulty st) j (quit_raises st) (api_status st)
    (post_status st) (inbox st).

Definition answer (status : option nat) (st : state) : res response * state :=
  match status with
  | Some code => (Val (mkResponse code EmptyString), st)
  | None => (Exc RequestException, st)
  end.

#[global] Instance externals : Externals state := {|
  os_makedirs _ st := (Val tt, st);
  random_choice l st := (hd EmptyString l, st);
  chrome_start _ st := (Val tt, st);
  drv_get _ st := (Val tt, st);
  drv_refresh st := (Val tt, st);
  drv_wait _ _ _ v st := lookup st TimeoutException v;
  drv_find_element _ v st := lookup st NoSuchElementException v;
  drv_find_elements _ v st :=
    if negb (present st v) then (Val [], st)
    else if String.eqb v message_xpath
         then (Val (map (fun k => 2000 + k) (seq 0 (length (inbox st)))), st)
         else (Val [handle v], st);
  elem_click e st :=
    if Nat.eqb e (handle submit_xpath)
    then (Val tt, with_logged_in (password_ok st) st)
    else (Val tt, st);
  elem_clear _ st := (Val tt, st);
  elem_send_keys _ _ st := (Val tt, st);
  elem_text e st := (Val (nth (e - 2000) (inbox st) EmptyString), st);
  drv_get_cookies st := (Val (jar st), st);
  drv_add_other _ st := (Exc WebDriverException, st);
  drv_add_cookie c st :=
    if well_formed c then (Val tt, with_jar (jar st ++ [c]) st)
    else (Exc WebDriverException, st);
  drv_execute_script _ st := (Val "Mozilla/5.0", st);
  drv_current_url st := (Val "https://www.instagram.com/", st);
  drv_quit st := if quit_raises st then (Exc WebDriverException, st) else (Val tt, st);
  time_sleep _ _ st := st;
  datetime_now st := ("2024-01-01T00:00:00", st);
  requests_get _ _ st := answer (api_status st) st;
  requests_post _ _ _ st := answer (post_status st) st;
  str_strip s := s;
  str_lower s := s;
  hash_repr s := pretty (String.length s);
  re_search_url s := if str_in "https://www.instagram.com/p/" s then Some s else None
|}.

(** A browser with no session on a site where the password is accepted. *)
Definition fresh : state := mk false true [] [] false (Some 200) (Some 200) [].

(** A browser that still holds a session. *)
Definition resumed : state := mk true true [] [] false (Some 200) (Some 200) [].

(** A browser with no session on a site that rejects the password. *)
Definition rejected : state := mk false false [] [] false (Some 200) (Some 200) [].

Definition no_files : FileSystem := mkFS ∅ ∅ ∅.

Definition bot (st : state) (f : FileSystem) : World state :=
  new_bot "alice" "secret" "token" "profile" st f.

Definition session_cookie : cookie :=
  mkCookie "sessionid" "4f1c" ".instagram.com" "/" (Some 1893456000%Z).
Definition csrf_cookie : cookie :=
  mkCookie "csrftoken" "9a2e" ".instagram.com" "/" None.
(** A cookie the driver refuses: it has no name. *)
Definition nameless_cookie : cookie := mkCookie EmptyString "x" EmptyString EmptyString None.

(** The two files of an earlier run of alice. *)
Definition saved_files : FileSystem :=
  mkFS (<["instagram_cookies_alice.json" :=
            JsonCookies [session_cookie; nameless_cookie; csrf_cookie]]>
        (<["instagram_session_alice.pkl" :=
             PickledDict (mkSession (Some "2023-12-31T08:00:00") (Some "Mozilla/5.0")
                            (Some "https://www.instagram.com/") (Some ["0_31"; "1_40"]))]>
         ∅))
    ∅ ∅.



(** The session file of the earlier run next to a cookie file that holds
    the JSON object [{"sessionid": "4f1c"}] instead of an array. *)
Definition cookies_object : FileSystem :=
  mkFS (<["instagram_cookies_alice.json" := JsonItems [ItemOther "sessionid"]]>
          (files saved_files)) ∅ ∅.

(** The same files on a full disk: the session file can be opened but
    not written. *)
Definition session_unwritable : FileSystem :=
  mkFS (files saved_files) ∅ {["instagram_session_alice.pkl"]}.

(** The same files, on a disk where the session file cannot be opened. *)
Definition session_locked : FileSystem :=
  mkFS (files saved_files) {["instagram_session_alice.pkl"]} ∅.

(** A browser that holds a session, with a driver that fails whenever it
    is asked for the link to the inbox. *)
Definition flaky : state :=
  mk true true [direct_link_xpath] [] false (Some 200) (Some 200) [].

(** The logged-in indicators with the first two exchanged. *)
Definition swapped_indicators : list string :=
  ["//svg[@aria-label='Direct']";
   "//a[contains(@href, '/direct/')]";
   "//a[contains(@href, 'accounts/edit')]";
   "//button[contains(@class, 'follow')]";
   "//div[contains(@class, 'logged-in')]"].

(** The worlds a run of [smart_login] goes through, from [w]. *)
Definition after_setup (w : World state) : World state :=
  snd (setup_driver true false None w).
Definition after_load (w : World state) : World state :=
  snd (load_session (after_setup w)).
Definition after_probe (w : World state) : World state :=
  snd (is_logged_in (after_load w)).
Definition after_login (w : World state) : World state :=
  snd (login_instagram (after_probe w)).
Definition after_save (w : World state) : World state :=
  snd (save_session (after_login w)).

(** A browser that holds a session and an inbox with one link, driven by
    a driver whose shutdown raises. *)
Definition quit_fails : state :=
  mk true true [] [] true (Some 200) (Some 200)
    ["look https://www.instagram.com/p/Cx1/"].

(** The same with a driver that shuts down properly. *)
Definition quit_works : state :=
  mk true true [] [] false (Some 200) (Some 200)
    ["look https://www.instagram.com/p/Cx1/"].

(** The same, with a publish endpoint that cannot be reached. *)
Definition publish_fails : state :=
  mk true true [] [] false (Some 200) None
    ["look https://www.instagram.com/p/Cx1/"].

Definition alice : Config :=
  mkConfig (Some "alice") (Some "secret") (Some "token") (Some "profile").

(** The environment of alice with the Buffer token unset. *)
Definition no_token : Config :=
  mkConfig (Some "alice") (Some "secret") None (Some "profile").


(** A message with a link, as [get_new_messages] builds it. *)
Definition reel : message :=
  mkMessage "0_37" "look https://www.instagram.com/p/Cx1/"
    (Some "https://www.instagram.com/p/Cx1/").


End Sim.

(** * Vocabulary of the specification *)

Section Vocabulary.

Context {X : Type} `{Externals X}.

Implicit Types (w : World X) (t : list Event) (c : Call).

(** [respects R m]: every run of [m] takes a world to an [R]-related one,
    whether it returns or raises. *)
Definition respects (R : relation (World X)) {A} (m : M (World X) A) : Prop :=
  forall w r w', m w = (r, w') -> R w w'.

(** [total m]: [m] never raises. *)
Definition total {A} (m : M (World X) A) : Prop :=
  forall w, exists a w', m w = (Val a, w').

(** The calls made from [w] up to [w']. *)
Definition emitted_between w w' t : Prop := trace w' = trace w ++ t.

(** The calls made from [w] to [w'], as a list, satisfy [L]. *)
Definition emits (L : list Event -> Prop) : relation (World X) := fun w w' =>
  exists t, emitted_between w w' t /\ L t.

(** Every call made from [w] to [w'] satisfies [P]. *)
Definition calls_only (P : Call -> Prop) : relation (World X) :=
  emits (Forall (fun ev => P (fst ev))).

(** No file was touched and every call made satisfies [P]. *)
Definition confined (P : Call -> Prop) : relation (World X) := fun w w' =>
  fs w' = fs w /\ calls_only P w w'.

(** The set of processed messages is the same. *)
Definition keeps_processed : relation (World X) := fun w w' =>
  processed_messages w' = processed_messages w.

(** A relation that is closed under sequencing and under every call that
    satisfies [P]. *)
Class Frame (R : relation (World X)) (P : Call -> Prop) : Prop := {
  frame_preorder : PreOrder R;
  frame_call : forall w x ev, P (fst ev) -> R w (log_event ev (set_ext x w))
}.

(** ** Kinds of calls *)

(** The calls of the credential-entry path: opening the login page and
    typing into a form field. *)
Definition credential_entry c : bool :=
  match c with
  | CGet url => String.eqb url login_url
  | CSendKeys _ _ => true
  | _ => false
  end.

(** The calls by which a session is persisted. *)
Definition persists c : bool :=
  match c with
  | CGetCookies | CWriteFile _ => true
  | _ => false
  end.

(** Neither logging in nor persisting. *)
Definition resuming c : Prop :=
  credential_entry c = false /\ persists c = false.

(** The wait for one logged-in indicator in [is_logged_in]. *)
Definition probe_wait (indicator : string) : Call :=
  CWait 5 Presence ByXPath indicator.

Definition is_probe_wait c : bool :=
  match c with
  | CWait _ Presence ByXPath _ => true
  | _ => false
  end.

(** Calls that are not waits for a logged-in indicator. *)
Definition not_probe_wait c : Prop := is_probe_wait c = false.

(** An indicator of the list was located during the calls [t]. *)
Definition located (indicators : list string) t : Prop :=
  exists i, i ∈ indicators /\ (probe_wait i, Ok) ∈ t.

(** The waits for the indicators [l], each of which ran into its timeout. *)
Definition timed_out (l : list string) : list Event :=
  map (fun i => (probe_wait i, Raised TimeoutException)) l.

(** One pass over the indicators, as the driver sees it, with its
    result.  The indicators are waited for in the order of the list, and
    the pass ends at the first wait that does not run into its timeout:
    with true when that wait returned an element, with the exception
    when it raised another one.  When every wait timed out, every
    indicator was tried and the result is false. *)
Inductive pass (indicators : list string) : res bool -> list Event -> Prop :=
| pass_found before i after :
    indicators = before ++ i :: after ->
    pass indicators (Val true) (timed_out before ++ [(probe_wait i, Ok)])
| pass_fault before i after e :
    indicators = before ++ i :: after ->
    e <> TimeoutException ->
    pass indicators (Exc e) (timed_out before ++ [(probe_wait i, Raised e)])
| pass_none :
    pass indicators (Val false) (timed_out indicators).

(** The calls by which [is_logged_in] opens the site. *)
Definition navigation : list Event :=
  [(CGet base_url, Ok); (CSleep (1000 * 3) (1000 * 5), Ok)].

(** A lookup of the second loop of [is_logged_in]. *)
Definition login_page_lookup c : Prop := exists v, c = CFind ByXPath v.

(** The calls [t] of a run of [is_logged_in] that answered [b]: either
    the site could not be opened (there is no driver, or [get] raised)
    and the answer is false; or the site was opened, one pass was made
    over the indicators, the answer is true exactly when the pass found
    an element, and the login page was looked at only after a pass in
    which every wait timed out. *)
Definition probe_run (indicators : list string) (has_driver : bool) (b : bool) t
  : Prop :=
  (b = false /\
   ((has_driver = false /\ t = []) \/
    (has_driver = true /\ exists e, t = [(CGet base_url, Raised e)]))) \/
  (exists r waits rest,
     has_driver = true /\
     pass indicators r waits /\
     t = navigation ++ waits ++ rest /\
     b = match r with Val true => true | _ => false end /\
     (r <> Val false -> rest = []) /\
     Forall (fun ev => login_page_lookup (fst ev)) rest).

(** ** The steps of the interactive login *)

(** The final check of [login_instagram]. *)
Definition verification_call : Call :=
  CWait 10 Presence ByXPath direct_link_xpath.

Inductive Step : Type := Typing | Submit | Dismissal | Verification.

Definition rank (s : Step) : nat :=
  match s with
  | Typing => 1
  | Submit => 2
  | Dismissal => 3
  | Verification => 4
  end.

(** The step of [login_instagram] a call belongs to, for the calls that
    tell: keystrokes, the lookup of the submit button, the waits for the
    two optional dialogs and the wait for the post-login marker. *)
Definition step_of c : option Step :=
  match c with
  | CSendKeys _ _ => Some Typing
  | CFind ByXPath v => if String.eqb v submit_xpath then Some Submit else None
  | CWait timeout Clickable ByXPath v =>
      if Nat.eqb timeout 5 &&
         (String.eqb v not_now_xpath || String.eqb v not_now_or_cancel_xpath)
      then Some Dismissal else None
  | CWait timeout Presence ByXPath v =>
      if Nat.eqb timeout 10 && String.eqb v direct_link_xpath
      then Some Verification else None
  | _ => None
  end.





(** Every keystroke that went through is followed at once by the pause
    [time.sleep(random.uniform(0.05, 0.15))]. *)
Definition jittered t : Prop :=
  forall i e ch,
    t !! i = Some (CSendKeys e ch, Ok) -> t !! (S i) = Some (CSleep 50 150, Ok).

(** What a loop that types the characters [s] into [e] without a fault
    leaves in the trace. *)
Definition keystrokes (e : WebElement) (s : list string) : list Event :=
  flat_map (fun ch => [(CSendKeys e ch, Ok); (CSleep 50 150, Ok)]) s.

(** The characters of the keystrokes that went through. *)
Definition typed t : list string :=
  omap (fun ev : Event =>
          match ev with
          | (CSendKeys _ ch, Ok) => Some ch
          | _ => None
          end) t.

(** Calls of a step before the final check, or of no step. *)
Definition before_verification c : Prop :=
  forall s, step_of c = Some s -> rank s < 4.

(** Any call but a keystroke. *)
Definition not_keystroke c : Prop :=
  match c with CSendKeys _ _ => False | _ => True end.

(** [m] answers true exactly when the final check was made and passed. *)
Definition tracks (m : M (World X) bool) : Prop :=
  forall w r w', m w = (r, w') ->
    exists t, emitted_between w w' t /\
              (r = Val true <-> (verification_call, Ok) ∈ t).

(** When [m] returns, the keystrokes it made spell [l]. *)
Definition types (l : list string) {A} (m : M (World X) A) : Prop :=
  forall w a w', m w = (Val a, w') ->
    exists t, emitted_between w w' t /\ typed t = l.



(** ** The calls of the interactive login *)









(** ** Lookups on a page that shows the same indicators throughout *)

(** In every outside state within [I], the wait for an indicator of the
    list returns an element when the page shows it ([present]) and runs
    into its timeout when it does not, and the state it leaves is within
    [I] again.  The waits may change the outside state in any other
    respect. *)
Definition shows (I : X -> Prop) (present : string -> bool)
    (indicators : list string) : Prop :=
  forall x i, I x -> i ∈ indicators ->
    exists r x',
      drv_wait 5 Presence ByXPath i x = (r, x') /\ I x' /\
      if present i then exists element, r = Val element
      else r = Exc TimeoutException.

(** The world in which [is_logged_in] starts to look for indicators. *)
Definition after_navigation w : World X :=
  snd ((driver_get base_url ;;; human_delay 3 5) w).

(** The answer of [is_logged_in] in [w] does not depend on the order in
    which the indicators are listed. *)
Definition order_irrelevant w : Prop :=
  forall indicators,
    Permutation logged_in_indicators indicators ->
    fst (is_logged_in_with indicators w) = fst (is_logged_in w).

(** ** Files *)




(** ** The publish request *)

(** The request [add_to_buffer_fixed] sends for [url]. *)
Definition publish_request w (url : string) : res response * X :=
  requests_post create_endpoint
    [("text", "Check out this amazing content! " +:+ url);
     ("profile_ids[]", buffer_profile_id w);
     ("shorten", "true")]
    [("Authorization", bearer (buffer_token w));
     ("Content-Type", "application/x-www-form-urlencoded")]
    (ext w).

(** The POST was sent for the message and answered with status 200. *)
Definition published w (msg : message) : Prop :=
  exists url resp x,
    m_url msg = Some url /\ url <> EmptyString /\
    publish_request w url = (Val resp, x) /\ status_code resp = 200.

End Vocabulary.

(** * More vocabulary: costs, cleanup, persistence, the URL pattern *)

Section Further.

Context {X : Type} `{Externals X}.

Implicit Types (w : World X) (t : list Event) (c : Call) (msg : message) (x : X).

(** The sum of [cost] over the calls of [t]. *)
Definition total_cost (cost : Call -> nat) t : nat :=
  foldr (fun ev n => cost (fst ev) + n) 0 t.

(** From [w] to [w'] the calls made cost at most [n]. *)
Definition costs (cost : Call -> nat) (n : nat) : relation (World X) :=
  emits (fun t => total_cost cost t <= n).

(** The test [get_new_messages] applies to the text of a message. *)
Definition mentions_instagram (text : string) : bool :=
  str_in "instagram.com" text || str_in "reel" (str_lower text).

(** A message as [get_new_messages] reports it when the ids in [seen]
    have been processed: its id is not among them, its text passes the
    test, and its URL is what [extract_instagram_url] finds in the text. *)
Definition new_message (seen : gset string) (m : message) : Prop :=
  (m_id m ∉ seen) /\
  mentions_instagram (m_content m) = true /\
  m_url m = extract_instagram_url (m_content m).

(** Whether [add_to_buffer_fixed] sends a request for the message. *)
Definition has_url msg : bool := truthy (m_url msg).

(** Any call but the start and the shutdown of the browser. *)
Definition quiet_call c : Prop :=
  match c with
  | CQuit | CStartChrome _ => False
  | _ => True
  end.

(** Chrome was started among the calls [t]. *)
Definition started t : Prop := exists args, (CStartChrome args, Ok) ∈ t.

(** The browser was not shut down among the calls [t]. *)
Definition no_quit t : Prop := forall o, (CQuit, o) ∉ t.

(** From [w] to [w'] the browser was not shut down, and the bot holds a
    driver at the end exactly when it held one before or Chrome was
    started in between. *)
Definition driver_follows_start : relation (World X) := fun w w' =>
  exists t,
    emitted_between w w' t /\ no_quit t /\
    (driver w' = true <-> driver w = true \/ started t).

(** The [try] of [run_scheduled_check], with its [except]. *)
Definition check_attempt : M (World X) bool :=
  try_except
    (authenticated <- smart_login ;;
     if negb authenticated then ret false
     else
       in_dms <- navigate_to_dms ;;
       if negb in_dms then ret false
       else
         new_messages <- get_new_messages ;;
         publish_all new_messages 0 ;;;
         save_session ;;;
         ret true)
    (fun _ => ret false).

(** Every computation of the bot only appends to the trace. *)
Definition grows : relation (World X) := calls_only (fun _ => True).

(** The cookies handed to [add_cookie] among the calls [t], in order. *)
Definition cookies_offered t : list cookie :=
  omap (fun ev : Event =>
          match ev with
          | (CAddCookie k, _) => Some k
          | _ => None
          end) t.

(** The bot holds the same driver, or none, as before. *)
Definition keeps_driver : relation (World X) := fun w w' => driver w' = driver w.

(** The two waits of [navigate_to_dms]. *)
Definition dm_link_wait : Call := CWait 10 Clickable ByXPath direct_link_xpath.
Definition dm_marker_wait : Call := CWait 10 Presence ByXPath dm_marker_xpath.

(** The profile directory of the bot. *)
Definition user_data_dir w : string := "/tmp/chrome_profile_" +:+ username w.

(** The arguments [setup_driver] hands to Chrome. *)
Definition chrome_args (headless use_proxy : bool) (proxy_address : option string)
  (dir viewport : string) : list string :=
  (if headless then ["--headless"] else []) ++
  ["--no-sandbox"; "--disable-dev-shm-usage";
   "--disable-blink-features=AutomationControlled";
   "--disable-web-security"; "--disable-features=VizDisplayCompositor";
   "--disable-extensions"; "--disable-plugins";
   "--user-data-dir=" +:+ dir; "--profile-directory=Default";
   "--window-size=" +:+ viewport; user_agent_arg] ++
  (if use_proxy && truthy proxy_address
   then ["--proxy-server=" +:+ default EmptyString proxy_address] else []).

(** The Buffer API answers the probe of [test_buffer_connection], made
    with [token] from the outside state [x], with status 200. *)
Definition buffer_answers_200 (token : string) x : Prop :=
  exists response x1,
    requests_get user_endpoint [("Authorization", bearer token)] x = (Val response, x1) /\
    status_code response = 200.

(** The outside state after that probe. *)
Definition after_probe_request (token : string) x : X :=
  snd (requests_get user_endpoint [("Authorization", bearer token)] x).

(** The calls made during a run of the script. *)
Definition calls_of (run : process_end * (list Event * X * FileSystem)) : list Event :=
  fst (fst (snd run)).

(** Calls that cost nothing. *)
Definition free (cost : Call -> nat) c : Prop := cost c = 0.

End Further.

(** The timeout handed to [WebDriverWait], in seconds. *)
Definition wait_seconds (c : Call) : nat :=
  match c with
  | CWait timeout _ _ _ => timeout
  | _ => 0
  end.

(** The upper bound handed to [random.uniform] for a pause, in
    milliseconds. *)
Definition sleep_ms (c : Call) : nat :=
  match c with
  | CSleep _ hi_ms => hi_ms
  | _ => 0
  end.

(** One for every click. *)
Definition clicks (c : Call) : nat :=
  match c with
  | CClick _ => 1
  | _ => 0
  end.

(** One for every POST. *)
Definition posts (c : Call) : nat :=
  match c with
  | CHttpPost _ _ => 1
  | _ => 0
  end.

(** * The URL pattern

    [extract_instagram_url] hands its text to [re.search] with the
    pattern [https?://(?:www\.)?instagram\.com/(?:p|reel)/[A-Za-z0-9_-]+/?].
    Here the search is spelled out for the operators the pattern uses,
    as the backtracking matcher of Python runs them: alternatives from
    left to right, [?] and [+] greedy, the start of the match moved to
    the right until the pattern matches.  A text is the string of its
    bytes; the pattern names ASCII characters only. *)

Module Re.

Inductive regex : Type :=
| Lit (l : string)               (* the characters of [l] *)
| Cat (r1 r2 : regex)            (* [r1 r2] *)
| Alt (r1 r2 : regex)            (* [r1|r2] *)
| Opt (r : regex)                (* [r?] *)
| Plus (p : ascii -> bool).      (* [[...]+] for the class [p] *)

(** [s] without its prefix [l]. *)
Fixpoint strip (l s : string) : option string :=
  match l, s with
  | EmptyString, _ => Some s
  | String a l', String b s' => if Ascii.eqb a b then strip l' s' else None
  | String _ _, EmptyString => None
  end.

(** One or more characters of the class, as many as the rest of the
    pattern, [k], allows: the longest run first. *)
Fixpoint plus (p : ascii -> bool) (s : string) (k : string -> option string)
  : option string :=
  match s with
  | String c s' =>
      if p c
      then match plus p s' k with
           | Some a => Some (String c a)
           | None => option_map (String c) (k s')
           end
      else None
  | EmptyString => None
  end.

(** Match [r] at the start of [s] and then [k] on what is left; the
    result is the text matched by both. *)
Fixpoint run (r : regex) (s : string) (k : string -> option string) : option string :=
  match r with
  | Lit l =>
      match strip l s with
      | Some rest => option_map (String.append l) (k rest)
      | None => None
      end
  | Cat r1 r2 => run r1 s (fun s1 => run r2 s1 k)
  | Alt r1 r2 =>
      match run r1 s k with
      | Some a => Some a
      | None => run r2 s k
      end
  | Opt r1 =>
      match run r1 s k with
      | Some a => Some a
      | None => k s
      end
  | Plus p => plus p s k
  end.

(** [re.match(r, s).group(0)] *)
Definition match_at (r : regex) (s : string) : option string :=
  run r s (fun _ => Some EmptyString).

(** [re.search(r, s).group(0)], [None] when there is no match. *)
Fixpoint search (r : regex) (s : string) : option string :=
  match match_at r s with
  | Some u => Some u
  | None =>
      match s with
      | EmptyString => None
      | String _ s' => search r s'
      end
  end.

Definition between (lo hi : nat) (c : ascii) : bool :=
  Nat.leb lo (nat_of_ascii c) && Nat.leb (nat_of_ascii c) hi.

(** [[A-Za-z0-9_-]] *)
Definition code_char (c : ascii) : bool :=
  between 65 90 c || between 97 122 c || between 48 57 c
  || Ascii.eqb c "_" || Ascii.eqb c "-".

(** [https?://(?:www\.)?instagram\.com/(?:p|reel)/[A-Za-z0-9_-]+/?] *)
Definition url_pattern : regex :=
  Cat (Lit "http") (Cat (Opt (Lit "s")) (Cat (Lit "://")
  (Cat (Opt (Lit "www.")) (Cat (Lit "instagram.com/")
  (Cat (Alt (Lit "p") (Lit "reel")) (Cat (Lit "/")
  (Cat (Plus code_char) (Opt (Lit "/"))))))))).

(** The body of [extract_instagram_url]. *)
Definition extract_instagram_url (text : string) : option string :=
  search url_pattern text.

(** Every character of [s] is in the class. *)
Fixpoint all_in (p : ascii -> bool) (s : string) : bool :=
  match s with
  | EmptyString => true
  | String c s' => p c && all_in p s'
  end.

(** The strings a pattern stands for. *)
Inductive matches : regex -> string -> Prop :=
| matches_lit l : matches (Lit l) l
| matches_cat r1 r2 s1 s2 :
    matches r1 s1 -> matches r2 s2 -> matches (Cat r1 r2) (s1 +:+ s2)
| matches_alt_l r1 r2 s : matches r1 s -> matches (Alt r1 r2) s
| matches_alt_r r1 r2 s : matches r2 s -> matches (Alt r1 r2) s
| matches_opt_some r s : matches r s -> matches (Opt r) s
| matches_opt_none r : matches (Opt r) EmptyString
| matches_plus p c s :
    p c = true -> all_in p s = true -> matches (Plus p) (String c s).

(** [u] occurs in [text] after [pre] and before [post]. *)
Definition occurs_at (pre u post text : string) : Prop :=
  text = pre +:+ u +:+ post.

(** The form of the URLs the pattern stands for. *)
Definition instagram_url (u : string) : Prop :=
  exists s www kind code slash,
    u = "http" +:+ s +:+ "://" +:+ www +:+ "instagram.com/" +:+ kind +:+ "/"
        +:+ code +:+ slash /\
    (s = EmptyString \/ s = "s") /\
    (www = EmptyString \/ www = "www.") /\
    (kind = "p" \/ kind = "reel") /\
    code <> EmptyString /\ all_in code_char code = true /\
    (slash = EmptyString \/ slash = "/").

End Re.

(** What [get_new_messages] stores under ['url'] for a text. *)
Definition url_of_text (text : string) (url : option string) : Prop :=
  match url with
  | Some u =>
      Re.instagram_url u /\ truthy url = true /\
      exists pre post, Re.occurs_at pre u post text
  | None =>
      forall pre u post, Re.occurs_at pre u post text -> ~ Re.instagram_url u
  end.

(** ** More of the simulated site *)

(** The simulated site with the URL search of the source. *)
Definition pattern_externals : Externals Sim.state := {|
  os_makedirs := os_makedirs (Externals := Sim.externals);
  random_choice := random_choice (Externals := Sim.externals);
  chrome_start := chrome_start (Externals := Sim.externals);
  drv_get := drv_get (Externals := Sim.externals);
  drv_refresh := drv_refresh (Externals := Sim.externals);
  drv_wait := drv_wait (Externals := Sim.externals);
  drv_find_element := drv_find_element (Externals := Sim.externals);
  drv_find_elements := drv_find_elements (Externals := Sim.externals);
  elem_click := elem_click (Externals := Sim.externals);
  elem_clear := elem_clear (Externals := Sim.externals);
  elem_send_keys := elem_send_keys (Externals := Sim.externals);
  elem_text := elem_text (Externals := Sim.externals);
  drv_get_cookies := drv_get_cookies (Externals := Sim.externals);
  drv_add_cookie := drv_add_cookie (Externals := Sim.externals);
  drv_add_other := drv_add_other (Externals := Sim.externals);
  drv_execute_script := drv_execute_script (Externals := Sim.externals);
  drv_current_url := drv_current_url (Externals := Sim.externals);
  drv_quit := drv_quit (Externals := Sim.externals);
  time_sleep := time_sleep (Externals := Sim.externals);
  datetime_now := datetime_now (Externals := Sim.externals);
  requests_get := requests_get (Externals := Sim.externals);
  requests_post := requests_post (Externals := Sim.externals);
  str_strip := str_strip (Externals := Sim.externals);
  str_lower := str_lower (Externals := Sim.externals);
  hash_repr := hash_repr (Externals := Sim.externals);
  re_search_url := Re.search Re.url_pattern
|}.

(** A browser that holds a session, with an inbox of three messages: one
    with a link, one that only mentions a reel, one about something
    else. *)
Definition three_messages : Sim.state :=
  Sim.mk true true [] [] false (Some 200) (Some 200)
    ["look https://www.instagram.com/reel/Cx1_-a/?igsh=1"; "nice reel"; "hello"].

(** The bot of alice in the inbox of that browser. *)
Definition in_inbox : World Sim.state :=
  snd (navigate_to_dms (H := pattern_externals)
         (snd (smart_login (H := pattern_externals)
                 (Sim.bot three_messages Sim.saved_files)))).


(** A bot with a driver whose browser holds two cookies. *)
Definition two_cookies : World Sim.state :=
  Sim.after_setup
    (Sim.bot (Sim.with_jar [Sim.session_cookie; Sim.csrf_cookie] Sim.resumed) Sim.no_files).

(** * Reasoning about runs *)

Section Frames.

Context {X : Type} `{Externals X}.

Implicit Types (w : World X) (t : list Event) (c : Call).

Lemma respects_at (R : relation (World X)) {A} (m : M (World X) A) w r w' :
  respects R m -> m w = (r, w') -> R w w'.
Proof. intros Hm. apply Hm. Qed.

Lemma emitted_unique w w' t1 t2 :
  emitted_between w w' t1 -> emitted_between w w' t2 -> t1 = t2.
Proof.
  unfold emitted_between. intros E1 E2. rewrite E1 in E2.
  exact (app_inv_head _ _ _ E2).
Qed.

Lemma emitted_refl w : emitted_between w w [].
Proof. unfold emitted_between. now rewrite app_nil_r. Qed.

Lemma emitted_trans w1 w2 w3 t1 t2 :
  emitted_between w1 w2 t1 -> emitted_between w2 w3 t2 ->
  emitted_between w1 w3 (t1 ++ t2).
Proof. unfold emitted_between. intros -> ->. now rewrite app_assoc. Qed.

Section Generic.

Context (R : relation (World X)) (P : Call -> Prop) {F : Frame R P}.

Lemma frame_refl w : R w w.
Proof. destruct F as [[Hr _] _]. apply Hr. Qed.

Lemma frame_trans w1 w2 w3 : R w1 w2 -> R w2 w3 -> R w1 w3.
Proof. destruct F as [[_ Ht] _]. apply Ht. Qed.

Lemma respects_ret {A} (a : A) : respects R (ret a).
Proof. intros w r w' [= _ <-]. apply frame_refl. Qed.

Lemma respects_raise {A} e : respects R (@raise _ A e).
Proof. intros w r w' [= _ <-]. apply frame_refl. Qed.

Lemma respects_bind {A B} (m : M (World X) A) (f : A -> M (World X) B) :
  respects R m -> (forall a, respects R (f a)) -> respects R (bind m f).
Proof.
  intros Hm Hf w r w'. unfold bind.
  destruct (m w) as [[a|e] w1] eqn:E; intros E'.
  - apply (frame_trans w w1); [exact (Hm _ _ _ E) | exact (Hf _ _ _ _ E')].
  - injection E' as _ <-. exact (Hm _ _ _ E).
Qed.

Lemma respects_try_except {A} (m : M (World X) A) h :
  respects R m -> (forall e, respects R (h e)) -> respects R (try_except m h).
Proof.
  intros Hm Hh w r w'. unfold try_except.
  destruct (m w) as [[a|e] w1] eqn:E; intros E'.
  - injection E' as _ <-. exact (Hm _ _ _ E).
  - apply (frame_trans w w1); [exact (Hm _ _ _ E) | exact (Hh _ _ _ _ E')].
Qed.

Lemma respects_try_timeout {A} (m h : M (World X) A) :
  respects R m -> respects R h -> respects R (try_timeout m h).
Proof.
  intros Hm Hh w r w'. unfold try_timeout.
  destruct (m w) as [[a|e] w1] eqn:E; intros E'.
  - injection E' as _ <-. exact (Hm _ _ _ E).
  - destruct e; try (injection E' as _ <-; exact (Hm _ _ _ E)).
    apply (frame_trans w w1); [exact (Hm _ _ _ E) | exact (Hh _ _ _ E')].
Qed.

Lemma framed_call {A} c (op : X -> res A * X) : P c -> respects R (call c op).
Proof.
  intros Pc w r w'. unfold call. destruct (op (ext w)) as [r0 x].
  intros [= <- <-]. apply frame_call. exact Pc.
Qed.

Lemma framed_call_total {A} c (op : X -> A * X) :
  P c -> respects R (call_total c op).
Proof. intros Pc. apply framed_call, Pc. Qed.

Lemma framed_on_driver {A} c (op : X -> res A * X) :
  P c -> respects R (on_driver c op).
Proof.
  intros Pc w r w'. unfold on_driver. destruct (driver w).
  - apply framed_call, Pc.
  - intros [= _ <-]. apply frame_refl.
Qed.

Lemma framed_path_exists path : respects R (path_exists path).
Proof. intros w r w' [= _ <-]. apply frame_refl. Qed.

Lemma framed_read_file path : respects R (read_file path).
Proof.
  intros w r w'. unfold read_file. case_bool_decide.
  - intros [= _ <-]. apply frame_refl.
  - destruct (files (fs w) !! path); intros [= _ <-]; apply frame_refl.
Qed.

End Generic.

(** ** The frames in use *)

Lemma emits_frame (L : list Event -> Prop) (P : Call -> Prop) :
  L [] ->
  (forall t1 t2, L t1 -> L t2 -> L (t1 ++ t2)) ->
  (forall ev, P (fst ev) -> L [ev]) ->
  Frame (emits (X:=X) L) P.
Proof.
  intros Lnil Lapp Lone. split; [split|].
  - intros w. exists []. split; [unfold emitted_between; now rewrite app_nil_r | exact Lnil].
  - intros w1 w2 w3 (t1 & T1 & L1) (t2 & T2 & L2). exists (t1 ++ t2). split.
    + unfold emitted_between in *. rewrite T2, T1, app_assoc. reflexivity.
    + apply Lapp; assumption.
  - intros w x ev Pev. exists [ev]. split; [reflexivity | apply Lone, Pev].
Qed.

#[global] Instance calls_only_frame P : Frame (calls_only (X:=X) P) P.
Proof.
  apply emits_frame.
  - constructor.
  - intros t1 t2 A1 A2. apply Forall_app; auto.
  - intros ev Pev. repeat constructor. exact Pev.
Qed.

#[global] Instance confined_frame P : Frame (confined (X:=X) P) P.
Proof.
  pose proof (calls_only_frame P) as F. split; [split|].
  - intros w. split; [reflexivity | apply (frame_refl _ P)].
  - intros w1 w2 w3 [F1 C1] [F2 C2]. split; [congruence|].
    apply (frame_trans _ P w1 w2 w3); assumption.
  - intros w x ev Pev. split; [reflexivity | apply frame_call, Pev].
Qed.

#[global] Instance keeps_processed_frame :
  Frame (keeps_processed (X:=X)) (fun _ => True).
Proof.
  split; [split|].
  - intros w. reflexivity.
  - intros w1 w2 w3 E1 E2. unfold keeps_processed in *. congruence.
  - intros w x ev _. reflexivity.
Qed.

Lemma jittered_app t1 t2 : jittered t1 -> jittered t2 -> jittered (t1 ++ t2).
Proof.
  intros J1 J2 i e ch Hi. apply lookup_app_Some in Hi as [Hi | [Hlen Hi]].
  - apply lookup_app_l_Some. eapply J1, Hi.
  - apply J2 in Hi. apply lookup_app_Some. right. split; [lia|].
    rewrite Nat.sub_succ_l by exact Hlen. exact Hi.
Qed.

#[global] Instance jittered_frame : Frame (emits (X:=X) jittered) not_keystroke.
Proof.
  apply emits_frame.
  - intros i e ch Hi. discriminate Hi.
  - apply jittered_app.
  - intros [c o] Pc [|i] e ch Hi; [|discriminate Hi].
    injection Hi as -> ->. destruct Pc.
Qed.

Lemma confined_weaken (P Q : Call -> Prop) w w' :
  (forall c, P c -> Q c) -> confined P w w' -> confined Q w w'.
Proof.
  intros PQ [E (t & T & A)]. split; [exact E|]. exists t. split; [exact T|].
  eapply Forall_impl; [exact A|]. intros ev. apply PQ.
Qed.

Lemma confined_set_driver P d :
  respects (confined (X:=X) P) (fun w => (Val tt, set_driver d w)).
Proof.
  intros w r w' [= _ <-]. split; [reflexivity|].
  exists []. split; [unfold emitted_between; simpl; now rewrite app_nil_r | constructor].
Qed.

Lemma confined_set_processed P (s : gset string) :
  respects (confined (X:=X) P) (fun w => (Val tt, set_processed_messages s w)).
Proof.
  intros w r w' [= _ <-]. split; [reflexivity|].
  exists []. split; [unfold emitted_between; simpl; now rewrite app_nil_r | constructor].
Qed.

Lemma keeps_processed_set_driver d :
  respects (keeps_processed (X:=X)) (fun w => (Val tt, set_driver d w)).
Proof. intros w r w' [= _ <-]. reflexivity. Qed.

Lemma keeps_processed_write_file path content :
  respects (keeps_processed (X:=X)) (write_file path content).
Proof.
  intros w r w'. unfold write_file. repeat case_bool_decide; intros [= _ <-]; reflexivity.
Qed.

(** ** Functions that never raise *)

Lemma total_try_except {A} (m : M (World X) A) h :
  (forall e, total (h e)) -> total (try_except m h).
Proof.
  intros Hh w. unfold try_except. destruct (m w) as [[a|e] w1]; [eauto | apply Hh].
Qed.

Lemma total_ret {A} (a : A) : total (X:=X) (ret a).
Proof. intros w. unfold ret. eauto. Qed.

End Frames.

Create HintDb frames.

#[global] Hint Resolve confined_set_driver confined_set_processed
  keeps_processed_set_driver keeps_processed_write_file : frames.

(** Decompose a goal [respects R m] along the structure of [m]; what is
    left are the conditions on the calls [m] makes and the loops. *)
Ltac frame_step :=
  lazymatch goal with
  | |- respects _ (ret _) => eapply respects_ret; exact _
  | |- respects _ (raise _) => eapply respects_raise; exact _
  | |- respects _ (bind _ _) => eapply respects_bind; [exact _ | | intro]
  | |- respects _ (try_except _ _) => eapply respects_try_except; [exact _ | | intro]
  | |- respects _ (try_timeout _ _) => eapply respects_try_timeout; [exact _ | | ]
  | |- respects _ (call_total _ _) => eapply framed_call_total; [exact _ | ]
  | |- respects _ (call _ _) => eapply framed_call; [exact _ | ]
  | |- respects _ (on_driver _ _) => eapply framed_on_driver; [exact _ | ]
  | |- respects _ (path_exists _) => eapply framed_path_exists; exact _
  | |- respects _ (read_file _) => eapply framed_read_file; exact _
  | |- respects _ (if ?b then _ else _) => destruct b
  | |- respects _ (match ?c with _ => _ end) => destruct c
  | |- respects _ (fun w => _ w) =>
      let w0 := fresh "w0" in let r0 := fresh "r0" in
      let w1 := fresh "w1" in let E := fresh "E" in
      intros w0 r0 w1 E; eapply respects_at; [ | exact E]
  end.

Ltac step_side :=
  let s := fresh "s" in let E := fresh "E" in
  intros s E; vm_compute in E; try discriminate E;
  injection E as <-; first [reflexivity | simpl; lia].

Ltac frame :=
  repeat frame_step;
  try solve [ split; reflexivity | reflexivity | exact I | step_side
            | eauto with frames ].

(** ** What the functions of the bot respect *)

Section Functions.

Context {X : Type} `{Externals X}.

Implicit Types (w : World X) (t : list Event) (c : Call).

Section AnyFrame.

Context (R : relation (World X)) (P : Call -> Prop) {F : Frame R P}.

Lemma framed_sleep_uniform lo hi :
  P (CSleep lo hi) -> respects R (sleep_uniform lo hi).
Proof. intros. unfold sleep_uniform. frame. Qed.

Lemma framed_human_delay lo hi :
  (forall a b, P (CSleep a b)) -> respects R (human_delay lo hi).
Proof. intros. unfold human_delay. apply framed_sleep_uniform. auto. Qed.

Lemma framed_inject_cookies cookies :
  (forall k, P (CAddCookie k)) -> respects R (inject_cookies cookies).
Proof. intros HP. induction cookies as [|k rest IH]; simpl; frame. Qed.

Lemma framed_probe_indicators indicators :
  (forall i, P (probe_wait i)) -> respects R (probe_indicators indicators).
Proof.
  intros HP. induction indicators as [|i rest IH]; simpl; unfold wait_until; frame.
Qed.

Lemma framed_probe_login_page indicators :
  (forall i, P (CFind ByXPath i)) -> respects R (probe_login_page indicators).
Proof.
  intros HP. induction indicators as [|i rest IH]; simpl; unfold find_element; frame.
Qed.

Lemma framed_inject_items items :
  (forall k, P (CAddCookie k)) -> (forall raw, P (CAddOther raw)) ->
  respects R (inject_items items).
Proof. intros Pk Po. induction items as [|[k|raw] rest IH]; simpl; frame. Qed.

Lemma framed_json_load content : respects R (json_load content).
Proof. unfold json_load. frame. Qed.

Lemma framed_for_each_cookie cookies :
  (forall k, P (CAddCookie k)) -> (forall raw, P (CAddOther raw)) ->
  respects R (for_each_cookie cookies).
Proof.
  intros Pk Po. unfold for_each_cookie. frame.
  - apply framed_inject_cookies, Pk.
  - apply framed_inject_items; assumption.
Qed.

Lemma framed_load_cookies :
  (forall a b, P (CSleep a b)) -> (forall k, P (CAddCookie k)) ->
  (forall raw, P (CAddOther raw)) ->
  P (CGet base_url) -> P CRefresh ->
  respects R load_cookies.
Proof.
  intros. unfold load_cookies, driver_get. frame.
  - apply framed_human_delay; auto.
  - apply framed_json_load.
  - apply framed_for_each_cookie; auto.
  - apply framed_human_delay; auto.
Qed.

End AnyFrame.

Lemma setup_driver_resuming headless use_proxy proxy_address :
  respects (confined resuming) (setup_driver (X:=X) headless use_proxy proxy_address).
Proof. unfold setup_driver, execute_script. frame. Qed.

Lemma load_session_resuming : respects (confined resuming) (load_session (X:=X)).
Proof.
  unfold load_session, load_session_info, pickle_load, get_processed_messages.
  frame. apply (framed_load_cookies _ resuming); intros; split; reflexivity.
Qed.

Lemma is_logged_in_resuming indicators :
  respects (confined resuming) (is_logged_in_with (X:=X) indicators).
Proof.
  unfold is_logged_in_with, driver_get. frame.
  - apply (framed_human_delay _ resuming). intros; split; reflexivity.
  - apply (framed_probe_indicators _ resuming). intros; split; reflexivity.
  - apply (framed_probe_login_page _ resuming). intros; split; reflexivity.
Qed.

Lemma type_chars_confined e s :
  respects (confined (fun c => persists c = false)) (type_chars (X:=X) e s).
Proof.
  induction s as [|ch rest IH]; simpl; unfold send_keys, sleep_uniform; frame.
Qed.

Lemma login_instagram_confined :
  respects (confined (fun c => persists c = false)) (login_instagram (X:=X)).
Proof.
  unfold login_instagram, login_attempt, handle_login_challenges, verify_login,
    dismiss_if_present, driver_get, wait_until, find_element, click, clear,
    human_delay, sleep_uniform.
  frame; apply type_chars_confined.
Qed.

Lemma save_session_total : total (save_session (X:=X)).
Proof. apply total_try_except. intros _. apply total_ret. Qed.

Lemma load_session_total : total (load_session (X:=X)).
Proof. apply total_try_except. intros _. apply total_ret. Qed.

Lemma is_logged_in_total indicators : total (is_logged_in_with (X:=X) indicators).
Proof. apply total_try_except. intros _. apply total_ret. Qed.

Lemma login_instagram_total : total (login_instagram (X:=X)).
Proof. apply total_try_except. intros _. apply total_ret. Qed.

Lemma smart_login_total : total (smart_login (X:=X)).
Proof. apply total_try_except. intros _. apply total_ret. Qed.

Lemma resume_confined w w1 s w2 b w3 :
  setup_driver true false None w = (Val tt, w1) ->
  load_session w1 = (Val s, w2) ->
  is_logged_in w2 = (Val b, w3) ->
  confined resuming w w3.
Proof.
  intros E1 E2 E3.
  apply (frame_trans _ resuming w w1); [exact (setup_driver_resuming _ _ _ _ _ _ E1)|].
  apply (frame_trans _ resuming w1 w2); [exact (load_session_resuming _ _ _ E2)|].
  exact (is_logged_in_resuming _ _ _ _ E3).
Qed.

End Functions.

(** * Properties of the session manager *)

Section SmartLogin.

Context {X : Type} `{Externals X}.

Implicit Types (w : World X).

(** C1. When the probe [is_logged_in] answers true after [load_session],
    [smart_login] returns true in the very world the probe left: nothing
    runs after it, and no call made during the run belongs to the
    credential-entry path of [login_instagram]. *)
Theorem smart_login_valid_session_skips_login w w1 s w2 w3 :
  setup_driver true false None w = (Val tt, w1) ->
  load_session w1 = (Val s, w2) ->
  is_logged_in w2 = (Val true, w3) ->
  smart_login w = (Val true, w3) /\
  exists t, emitted_between w w3 t /\
            Forall (fun ev => credential_entry (fst ev) = false) t.
Proof.
  intros E1 E2 E3. split.
  - unfold smart_login, try_except, bind. rewrite E1, E2, E3. reflexivity.
  - destruct (resume_confined _ _ _ _ _ _ E1 E2 E3) as [_ (t & T & A)].
    exists t. split; [exact T|].
    eapply Forall_impl; [exact A|]. intros ev [P _]. exact P.
Qed.

(** C2. When the probe answers false and [login_instagram] fails too,
    [smart_login] returns false in the world the login attempt left; both
    files are as they were, no file was opened for writing and the
    cookies were never fetched, so [save_session] did not run. *)
Theorem smart_login_failure_preserves_files w w1 s w2 w3 w4 :
  setup_driver true false None w = (Val tt, w1) ->
  load_session w1 = (Val s, w2) ->
  is_logged_in w2 = (Val false, w3) ->
  login_instagram w3 = (Val false, w4) ->
  smart_login w = (Val false, w4) /\
  fs w4 = fs w /\
  exists t, emitted_between w w4 t /\
            Forall (fun ev => persists (fst ev) = false) t.
Proof.
  intros E1 E2 E3 E4.
  assert (C : confined (fun c => persists c = false) w w4).
  { apply (frame_trans _ (fun c => persists c = false) w w3);
      [|exact (login_instagram_confined _ _ _ E4)].
    apply (confined_weaken resuming); [intros c [_ P]; exact P|].
    exact (resume_confined _ _ _ _ _ _ E1 E2 E3). }
  split; [|exact C].
  unfold smart_login, try_except, bind. rewrite E1, E2, E3, E4. reflexivity.
Qed.

(** C9. After a successful interactive login [save_session] runs and
    always returns a boolean, and [smart_login] returns true in the world
    it left, whichever boolean that was: a failed save is never seen by
    the caller of [smart_login]. *)
Theorem smart_login_ignores_save_result w w1 s w2 w3 w4 :
  setup_driver true false None w = (Val tt, w1) ->
  load_session w1 = (Val s, w2) ->
  is_logged_in w2 = (Val false, w3) ->
  login_instagram w3 = (Val true, w4) ->
  (exists saved w5, save_session w4 = (Val saved, w5)) /\
  (forall saved w5, save_session w4 = (Val saved, w5) ->
                    smart_login w = (Val true, w5)).
Proof.
  intros E1 E2 E3 E4. split; [apply save_session_total|].
  intros saved w5 E5.
  unfold smart_login, try_except, bind. rewrite E1, E2, E3, E4.
  fold (@bind (World X)). unfold bind. rewrite E5. reflexivity.
Qed.

End SmartLogin.

(** Runs of [smart_login] on the simulated site. *)

Lemma smart_login_valid_session_skips_login_run :
  smart_login (Sim.bot Sim.resumed Sim.saved_files)
    = (Val true, Sim.after_probe (Sim.bot Sim.resumed Sim.saved_files)) /\
  exists t,
    emitted_between (Sim.bot Sim.resumed Sim.saved_files)
      (Sim.after_probe (Sim.bot Sim.resumed Sim.saved_files)) t /\
    Forall (fun ev => credential_entry (fst ev) = false) t.
Proof.
  apply (smart_login_valid_session_skips_login
           (Sim.bot Sim.resumed Sim.saved_files)
           (Sim.after_setup (Sim.bot Sim.resumed Sim.saved_files))
           true
           (Sim.after_load (Sim.bot Sim.resumed Sim.saved_files)));
    vm_compute; reflexivity.
Defined.

Lemma smart_login_failure_preserves_files_run :
  smart_login (Sim.bot Sim.rejected Sim.saved_files)
    = (Val false, Sim.after_login (Sim.bot Sim.rejected Sim.saved_files)) /\
  fs (Sim.after_login (Sim.bot Sim.rejected Sim.saved_files))
    = fs (Sim.bot Sim.rejected Sim.saved_files) /\
  exists t,
    emitted_between (Sim.bot Sim.rejected Sim.saved_files)
      (Sim.after_login (Sim.bot Sim.rejected Sim.saved_files)) t /\
    Forall (fun ev => persists (fst ev) = false) t.
Proof.
  apply (smart_login_failure_preserves_files
           (Sim.bot Sim.rejected Sim.saved_files)
           (Sim.after_setup (Sim.bot Sim.rejected Sim.saved_files))
           true
           (Sim.after_load (Sim.bot Sim.rejected Sim.saved_files))
           (Sim.after_probe (Sim.bot Sim.rejected Sim.saved_files)));
    vm_compute; reflexivity.
Defined.

Lemma smart_login_ignores_save_result_run :
  save_session (Sim.after_login (Sim.bot Sim.fresh Sim.session_locked))
    = (Val false, Sim.after_save (Sim.bot Sim.fresh Sim.session_locked)) /\
  smart_login (Sim.bot Sim.fresh Sim.session_locked)
    = (Val true, Sim.after_save (Sim.bot Sim.fresh Sim.session_locked)).
Proof.
  split; [vm_compute; reflexivity|].
  refine (proj2 (smart_login_ignores_save_result
                   (Sim.bot Sim.fresh Sim.session_locked)
                   (Sim.after_setup (Sim.bot Sim.fresh Sim.session_locked))
                   false
                   (Sim.after_load (Sim.bot Sim.fresh Sim.session_locked))
                   (Sim.after_probe (Sim.bot Sim.fresh Sim.session_locked))
                   (Sim.after_login (Sim.bot Sim.fresh Sim.session_locked))
                   _ _ _ _) false _ _);
    vm_compute; reflexivity.
Defined.

(** ** The logged-in probe *)

Section Probe.

Context {X : Type} `{Externals X}.

Implicit Types (w : World X) (t : list Event) (c : Call).

Lemma bind_assoc_at {A B C} (m : M (World X) A) (f : A -> M (World X) B)
    (g : B -> M (World X) C) w :
  bind (bind m f) g w = bind m (fun a => bind (f a) g) w.
Proof. unfold bind. destruct (m w) as [[a|e] w1]; reflexivity. Qed.

(** One pass over the indicators: the calls are waits for indicators of
    the list, and the pass answers true exactly when one of them found
    its element. *)
Lemma probe_indicators_located indicators : forall w,
  exists r w' t,
    probe_indicators indicators w = (r, w') /\
    emitted_between w w' t /\
    Forall (fun ev => exists i o, i ∈ indicators /\ ev = (probe_wait i, o)) t /\
    (r = Val true <-> exists i, (probe_wait i, Ok) ∈ t).
Proof.
  induction indicators as [|i rest IH]; intros w.
  - exists (Val false), w, []. repeat split.
    + unfold emitted_between. now rewrite app_nil_r.
    + constructor.
    + discriminate.
    + intros [i Hi]. inversion Hi.
  - simpl. unfold bind at 1, try_timeout, bind, wait_until, on_driver.
    destruct (driver w).
    2:{ exists (Exc AttributeError), w, []. repeat split.
        - unfold emitted_between. now rewrite app_nil_r.
        - constructor.
        - discriminate.
        - intros [j Hj]. inversion Hj. }
    unfold call. destruct (drv_wait 5 Presence ByXPath i (ext w)) as [[a|e] x] eqn:E.
    + eexists _, _, [(probe_wait i, Ok)]. repeat split.
      * repeat constructor. exists i, Ok. split; [left | reflexivity].
      * intros _. exists i. left.
    + destruct (decide (e = TimeoutException)) as [->|Hne].
      * destruct (IH (log_event (probe_wait i, Raised TimeoutException) (set_ext x w)))
          as (r & w' & t & E' & T & A & Hr).
        exists r, w', ((probe_wait i, Raised TimeoutException) :: t).
        split; [exact E'|]. split; [|split].
        -- unfold emitted_between in *. rewrite T. simpl.
           rewrite <- app_assoc. reflexivity.
        -- constructor.
           ++ exists i, (Raised TimeoutException). split; [left | reflexivity].
           ++ eapply Forall_impl; [exact A|].
              intros ev (j & o & Hj & ->). exists j, o. split; [right; exact Hj | reflexivity].
        -- rewrite Hr. split; intros [j Hj]; exists j.
           ++ right. exact Hj.
           ++ apply elem_of_cons in Hj as [Hj|Hj]; [discriminate Hj | exact Hj].
      * exists (Exc e), (log_event (probe_wait i, Raised e) (set_ext x w)),
          [(probe_wait i, Raised e)].
        split; [destruct e; try reflexivity; contradiction|].
        split; [reflexivity|]. split; [|split].
        -- repeat constructor. exists i, (Raised e). split; [left | reflexivity].
        -- discriminate.
        -- intros [j Hj]. apply elem_of_cons in Hj as [Hj|Hj];
             [discriminate Hj | inversion Hj].
Qed.

Lemma no_probe_wait_in t i o :
  Forall (fun ev => not_probe_wait (fst ev)) t -> (probe_wait i, o) ∉ t.
Proof.
  intros A Hin. rewrite Forall_forall in A. apply A in Hin. discriminate Hin.
Qed.

Lemma navigation_no_probe :
  respects (confined not_probe_wait)
    (driver_get (X:=X) base_url ;;; human_delay 3 5).
Proof.
  unfold driver_get. frame. apply (framed_human_delay _ not_probe_wait). reflexivity.
Qed.

Lemma login_page_no_probe :
  respects (confined not_probe_wait) (probe_login_page (X:=X) login_indicators).
Proof. apply (framed_probe_login_page _ not_probe_wait). reflexivity. Qed.

Lemma is_logged_in_unfold indicators w :
  is_logged_in_with indicators w =
  try_except
    (bind (driver_get base_url ;;; human_delay 3 5)
       (fun _ =>
          found <- probe_indicators indicators ;;
          if found then ret true
          else (probe_login_page login_indicators ;;; ret false)))
    (fun _ => ret false) w.
Proof.
  unfold is_logged_in_with, try_except. rewrite bind_assoc_at. reflexivity.
Qed.

Lemma is_logged_in_located indicators w :
  exists b w' t,
    is_logged_in_with indicators w = (Val b, w') /\
    emitted_between w w' t /\
    (b = true <-> located indicators t).
Proof.
  rewrite is_logged_in_unfold. unfold try_except, bind at 1.
  destruct ((driver_get base_url ;;; human_delay 3 5) w) as [[[]|e] w1] eqn:N;
    destruct (navigation_no_probe _ _ _ N) as [_ (t1 & T1 & A1)].
  2:{ exists false, w1, t1. split; [reflexivity|]. split; [exact T1|].
      split; [discriminate|]. intros (i & _ & Hi).
      exfalso. exact (no_probe_wait_in _ _ _ A1 Hi). }
  destruct (probe_indicators_located indicators w1) as (r & w2 & t2 & E2 & T2 & A2 & Hr).
  unfold bind at 1. rewrite E2.
  assert (Hloc : located indicators t2 <-> exists i, (probe_wait i, Ok) ∈ t2).
  { split; [intros (i & _ & Hi); eauto|]. intros [i Hi]. exists i. split; [|exact Hi].
    rewrite Forall_forall in A2. destruct (A2 _ Hi) as (j & o & Hj & [= -> _]). exact Hj. }
  destruct r as [[|]|e].
  - exists true, w2, (t1 ++ t2). split; [reflexivity|]. split.
    + unfold emitted_between in *. rewrite T2, T1, app_assoc. reflexivity.
    + split; [|reflexivity]. intros _.
      destruct (proj1 Hr eq_refl) as [i Hi].
      destruct (proj2 Hloc (ex_intro _ i Hi)) as (j & Hj & Hj').
      exists j. split; [exact Hj|]. apply elem_of_app. right. exact Hj'.
  - unfold bind.
    destruct (probe_login_page login_indicators w2) as [r3 w3] eqn:E3.
    destruct (login_page_no_probe _ _ _ E3) as [_ (t3 & T3 & A3)].
    exists false, w3, (t1 ++ t2 ++ t3). split; [destruct r3; reflexivity|]. split.
    + unfold emitted_between in *. rewrite T3, T2, T1, !app_assoc. reflexivity.
    + split; [discriminate|]. intros (i & _ & Hi). exfalso.
      apply elem_of_app in Hi as [Hi|Hi]; [exact (no_probe_wait_in _ _ _ A1 Hi)|].
      apply elem_of_app in Hi as [Hi|Hi]; [|exact (no_probe_wait_in _ _ _ A3 Hi)].
      assert (Val (A:=bool) false = Val true) as [=]. apply Hr. eauto.
  - exists false, w2, (t1 ++ t2). split; [reflexivity|]. split.
    + unfold emitted_between in *. rewrite T2, T1, app_assoc. reflexivity.
    + split; [discriminate|]. intros (i & _ & Hi). exfalso.
      apply elem_of_app in Hi as [Hi|Hi]; [exact (no_probe_wait_in _ _ _ A1 Hi)|].
      assert (Exc (A:=bool) e = Val true) as [=]. apply Hr. eauto.
Qed.

Lemma existsb_Permutation {A} (f : A -> bool) l l' :
  Permutation l l' -> existsb f l = existsb f l'.
Proof.
  intros P. apply eq_true_iff_eq. rewrite !existsb_exists.
  split; intros (x & Hx & Fx); exists x; split; try exact Fx.
  - eapply Permutation_in; [exact P | exact Hx].
  - eapply Permutation_in; [symmetry; exact P | exact Hx].
Qed.

Lemma navigation_keeps_driver w w1 :
  (driver_get base_url ;;; human_delay 3 5) w = (Val tt, w1) -> driver w1 = true.
Proof.
  unfold bind, driver_get, on_driver, human_delay, sleep_uniform, call_total, call.
  destruct (driver w) eqn:D; [|discriminate].
  destruct (drv_get base_url (ext w)) as [[[]|e] x]; [|discriminate].
  intros [= <-]. exact D.
Qed.

Lemma is_logged_in_after_navigation indicators w r w1 :
  (driver_get base_url ;;; human_delay 3 5) w = (r, w1) ->
  is_logged_in_with indicators w =
  match r with
  | Exc _ => (Val false, w1)
  | Val _ =>
      try_except
        (found <- probe_indicators indicators ;;
         if found then ret true
         else (probe_login_page login_indicators ;;; ret false))
        (fun _ => ret false) w1
  end.
Proof.
  intros N. rewrite is_logged_in_unfold. unfold try_except, bind at 1.
  rewrite N. destruct r; reflexivity.
Qed.

(** *** The calls of a run *)

Lemma pass_cons i rest r t :
  pass rest r t ->
  pass (i :: rest) r ((probe_wait i, Raised TimeoutException) :: t).
Proof.
  intros [before j after E|before j after e E Ne|].
  - apply (pass_found (i :: rest) (i :: before) j after). rewrite E. reflexivity.
  - apply (pass_fault (i :: rest) (i :: before) j after e); [|exact Ne].
    rewrite E. reflexivity.
  - apply (pass_none (i :: rest)).
Qed.

Lemma probe_indicators_pass indicators : forall w,
  driver w = true ->
  exists r w' t,
    probe_indicators indicators w = (r, w') /\
    emitted_between w w' t /\
    pass indicators r t /\
    driver w' = true.
Proof.
  induction indicators as [|i rest IH]; intros w D.
  - exists (Val false), w, []. split; [reflexivity|]. split; [apply emitted_refl|].
    split; [apply pass_none | exact D].
  - simpl. unfold bind at 1, try_timeout, bind, wait_until, on_driver. rewrite D.
    unfold call. destruct (drv_wait 5 Presence ByXPath i (ext w)) as [[a|e] x] eqn:E.
    + eexists _, _, [(probe_wait i, Ok)]. split; [reflexivity|]. split; [reflexivity|].
      split; [exact (pass_found (i :: rest) [] i rest eq_refl) | exact D].
    + destruct (decide (e = TimeoutException)) as [->|Hne].
      * destruct (IH (log_event (probe_wait i, Raised TimeoutException) (set_ext x w)) D)
          as (r & w' & t & E' & T & Pa & D').
        exists r, w', ((probe_wait i, Raised TimeoutException) :: t).
        split; [exact E'|]. split; [|split; [exact (pass_cons _ _ _ _ Pa) | exact D']].
        unfold emitted_between in *. rewrite T. simpl.
        rewrite <- app_assoc. reflexivity.
      * exists (Exc e), (log_event (probe_wait i, Raised e) (set_ext x w)),
          [(probe_wait i, Raised e)].
        split; [destruct e; try reflexivity; contradiction|].
        split; [reflexivity|].
        split; [exact (pass_fault (i :: rest) [] i rest e eq_refl Hne) | exact D].
Qed.

Lemma navigation_run w r w1 :
  (driver_get base_url ;;; human_delay 3 5) w = (r, w1) ->
  (r = Val tt /\ driver w = true /\ driver w1 = true /\
   emitted_between w w1 navigation) \/
  (exists e, r = Exc e /\
     ((driver w = false /\ w1 = w) \/
      (driver w = true /\ exists e', emitted_between w w1 [(CGet base_url, Raised e')]))).
Proof.
  unfold bind, driver_get, on_driver, human_delay, sleep_uniform, call_total, call.
  destruct (driver w) eqn:D.
  2:{ intros [= <- <-]. right. exists AttributeError. split; [reflexivity|]. left. auto. }
  destruct (drv_get base_url (ext w)) as [[[]|e] x].
  - intros [= <- <-]. left. split; [reflexivity|]. split; [reflexivity|].
    split; [exact D|]. unfold emitted_between, navigation. simpl.
    rewrite <- app_assoc. reflexivity.
  - intros [= <- <-]. right. exists e. split; [reflexivity|]. right.
    split; [reflexivity|]. exists e. reflexivity.
Qed.

Lemma login_page_lookups :
  respects (calls_only login_page_lookup) (probe_login_page (X:=X) login_indicators).
Proof.
  apply (framed_probe_login_page _ login_page_lookup). intros i. exists i. reflexivity.
Qed.

Lemma is_logged_in_run indicators w :
  exists b w' t,
    is_logged_in_with indicators w = (Val b, w') /\
    emitted_between w w' t /\
    probe_run indicators (driver w) b t.
Proof.
  destruct ((driver_get base_url ;;; human_delay 3 5) w) as [r w1] eqn:N.
  rewrite (is_logged_in_after_navigation _ _ _ _ N).
  destruct (navigation_run _ _ _ N)
    as [(-> & D & D1 & T1)|(e & -> & [[D ->]|[D (e' & T1)]])].
  - unfold try_except, bind at 1.
    destruct (probe_indicators_pass indicators w1 D1) as (r & w2 & t2 & E2 & T2 & Pa & D2).
    rewrite E2. destruct r as [[|]|e].
    + exists true, w2, (navigation ++ t2 ++ []). split; [reflexivity|]. split.
      { rewrite app_nil_r. exact (emitted_trans _ _ _ _ _ T1 T2). }
      right. exists (Val true), t2, []. rewrite D.
      split; [reflexivity|]. split; [exact Pa|]. split; [reflexivity|].
      split; [reflexivity|]. split; [reflexivity | constructor].
    + unfold bind.
      destruct (probe_login_page login_indicators w2) as [r3 w3] eqn:E3.
      destruct (login_page_lookups _ _ _ E3) as (t3 & T3 & A3).
      exists false, w3, (navigation ++ t2 ++ t3). split; [destruct r3; reflexivity|]. split.
      { exact (emitted_trans _ _ _ _ _ T1 (emitted_trans _ _ _ _ _ T2 T3)). }
      right. exists (Val false), t2, t3. rewrite D.
      split; [reflexivity|]. split; [exact Pa|]. split; [reflexivity|].
      split; [reflexivity|]. split; [intros Ne; destruct Ne; reflexivity | exact A3].
    + exists false, w2, (navigation ++ t2 ++ []). split; [reflexivity|]. split.
      { rewrite app_nil_r. exact (emitted_trans _ _ _ _ _ T1 T2). }
      right. exists (Exc e), t2, []. rewrite D.
      split; [reflexivity|]. split; [exact Pa|]. split; [reflexivity|].
      split; [reflexivity|]. split; [reflexivity | constructor].
  - exists false, w, []. split; [reflexivity|]. split; [apply emitted_refl|].
    left. split; [reflexivity|]. left. split; [exact D | reflexivity].
  - exists false, w1, [(CGet base_url, Raised e')]. split; [reflexivity|].
    split; [exact T1|]. left. split; [reflexivity|]. right. split; [exact D|].
    exists e'. reflexivity.
Qed.

(** *** The answer on a page that shows the same indicators throughout *)

Lemma probe_indicators_shows I present indicators : forall w,
  shows I present indicators ->
  driver w = true ->
  I (ext w) ->
  exists w',
    probe_indicators indicators w = (Val (existsb present indicators), w') /\
    I (ext w') /\ driver w' = true.
Proof.
  induction indicators as [|i rest IH]; intros w S D Ix.
  - exists w. split; [reflexivity|]. split; assumption.
  - simpl. unfold bind at 1, try_timeout, bind, wait_until, on_driver, call.
    rewrite D.
    destruct (S (ext w) i Ix) as (r & x' & E & Ix' & Hr); [left|]. rewrite E.
    destruct (present i).
    + destruct Hr as (element & ->). simpl. eexists.
      split; [reflexivity|]. split; [exact Ix' | exact D].
    + subst r. simpl.
      destruct (IH (log_event (CWait 5 Presence ByXPath i, Raised TimeoutException)
                      (set_ext x' w))) as (w' & E' & Ix'' & D').
      * intros x j Hx Hj. apply S; [exact Hx | right; exact Hj].
      * exact D.
      * exact Ix'.
      * exists w'. split; [exact E'|]. split; assumption.
Qed.

Lemma is_logged_in_shows I present indicators w :
  shows I present indicators ->
  fst ((driver_get base_url ;;; human_delay 3 5) w) = Val tt ->
  I (ext (after_navigation w)) ->
  fst (is_logged_in_with indicators w) = Val (existsb present indicators).
Proof.
  intros S N Ix. unfold after_navigation in Ix.
  destruct ((driver_get base_url ;;; human_delay 3 5) w) as [r w1] eqn:E.
  cbn [fst snd] in N, Ix. subst r.
  rewrite (is_logged_in_after_navigation _ _ _ _ E).
  pose proof (navigation_keeps_driver _ _ E) as D.
  destruct (probe_indicators_shows I present indicators w1 S D Ix) as (w2 & E2 & _).
  unfold try_except, bind at 1. rewrite E2.
  destruct (existsb present indicators); [reflexivity|].
  unfold bind.
  destruct (probe_login_page login_indicators w2) as [[[]|?] ?]; reflexivity.
Qed.

(** C3, as the code has it.  [is_logged_in] never raises.  When the
    site could be opened it makes one pass over its list: the indicators
    are waited for in the order of the list, each wait that runs into
    its timeout is followed by the wait for the next indicator, and the
    pass ends at the first wait that returns an element or raises
    another exception, so that the later indicators are not tried.  The
    answer is true exactly when a wait returned an element, and false in
    every other case: the site could not be opened, every wait timed
    out, or a wait raised another exception.  On a page that shows the
    same indicators throughout, with a driver whose waits return an
    element for an indicator that is shown and time out for one that is
    not, the answer says whether the page shows an indicator of the
    list, and it is the same for every order of the list. *)
Theorem is_logged_in_iff_located indicators w :
  (exists b w' t,
     is_logged_in_with indicators w = (Val b, w') /\
     emitted_between w w' t /\
     (b = true <-> located indicators t) /\
     probe_run indicators (driver w) b t) /\
  (forall (I : X -> Prop) (present : string -> bool),
     shows I present indicators ->
     fst ((driver_get base_url ;;; human_delay 3 5) w) = Val tt ->
     I (ext (after_navigation w)) ->
     (fst (is_logged_in_with indicators w) = Val true <->
      exists i, i ∈ indicators /\ present i = true) /\
     forall indicators',
       Permutation indicators indicators' ->
       fst (is_logged_in_with indicators' w) = fst (is_logged_in_with indicators w)).
Proof.
  split.
  - destruct (is_logged_in_located indicators w) as (b & w' & t & E & T & L).
    destruct (is_logged_in_run indicators w) as (b' & w'' & t' & E' & T' & R).
    rewrite E in E'. injection E' as <- <-.
    rewrite <- (emitted_unique _ _ _ _ T T') in R.
    exists b, w', t. auto.
  - intros I present S N Ix. split.
    + rewrite (is_logged_in_shows I present indicators w S N Ix).
      split.
      * intros [= Ex]. apply existsb_exists in Ex as (i & Hi & Pi).
        exists i. split; [apply list_elem_of_In, Hi | exact Pi].
      * intros (i & Hi & Pi). f_equal. apply existsb_exists.
        exists i. split; [apply list_elem_of_In, Hi | exact Pi].
    + intros indicators' P.
      rewrite (is_logged_in_shows I present indicators w S N Ix).
      rewrite (is_logged_in_shows I present indicators' w); [| |exact N|exact Ix].
      * f_equal. symmetry. apply existsb_Permutation, P.
      * intros x i Hx Hi. apply S; [exact Hx|]. rewrite P. exact Hi.
Qed.

End Probe.

(** The order of the list decides the answer when the driver fails on one
    indicator: the browser holds a session, the lookup of the inbox link
    raises [WebDriverException], and [is_logged_in] answers false; with
    the first two indicators exchanged it answers true. *)
Lemma is_logged_in_order_matters :
  Permutation logged_in_indicators Sim.swapped_indicators /\
  fst (is_logged_in (Sim.after_setup (Sim.bot Sim.flaky Sim.no_files))) = Val false /\
  fst (is_logged_in_with Sim.swapped_indicators
         (Sim.after_setup (Sim.bot Sim.flaky Sim.no_files))) = Val true /\
  ~ order_irrelevant (Sim.after_setup (Sim.bot Sim.flaky Sim.no_files)).
Proof.
  assert (P : Permutation logged_in_indicators Sim.swapped_indicators)
    by apply perm_swap.
  split; [exact P|]. split; [vm_compute; reflexivity|].
  split; [vm_compute; reflexivity|].
  intros O. specialize (O _ P). vm_compute in O. discriminate O.
Qed.

Lemma is_logged_in_iff_located_run :
  (exists b w' t,
     is_logged_in (Sim.after_load (Sim.bot Sim.resumed Sim.saved_files)) = (Val b, w') /\
     emitted_between (Sim.after_load (Sim.bot Sim.resumed Sim.saved_files)) w' t /\
     (b = true <-> located logged_in_indicators t) /\
     probe_run logged_in_indicators
       (driver (Sim.after_load (Sim.bot Sim.resumed Sim.saved_files))) b t) /\
  (fst (is_logged_in (Sim.after_load (Sim.bot Sim.resumed Sim.saved_files))) = Val true <->
   exists i, i ∈ logged_in_indicators /\ Sim.present Sim.resumed i = true) /\
  fst (is_logged_in_with Sim.swapped_indicators
         (Sim.after_load (Sim.bot Sim.resumed Sim.saved_files)))
  = fst (is_logged_in (Sim.after_load (Sim.bot Sim.resumed Sim.saved_files))).
Proof.
  destruct (is_logged_in_iff_located logged_in_indicators
              (Sim.after_load (Sim.bot Sim.resumed Sim.saved_files))) as [L O].
  split; [exact L|].
  destruct (O (fun st => Sim.logged_in st = true /\ Sim.faulty st = [])
              (Sim.present Sim.resumed)) as [A B].
  - intros x i [Lg Fa] Hi.
    change (drv_wait 5 Presence ByXPath i x) with (Sim.lookup x TimeoutException i).
    unfold Sim.lookup. rewrite Fa. cbn [Sim.mem existsb].
    assert (Pr : Sim.present x i = Sim.present Sim.resumed i)
      by (unfold Sim.present; rewrite Lg; reflexivity).
    rewrite Pr. destruct (Sim.present Sim.resumed i).
    + exists (Val (Sim.handle i)), x. split; [reflexivity|]. split; [auto | eauto].
    + exists (Exc TimeoutException), x. split; [reflexivity|]. split; [auto | reflexivity].
  - vm_compute. reflexivity.
  - vm_compute. split; reflexivity.
  - split; [exact A | apply B, perm_swap].
Defined.

(** ** The interactive login *)

Section Login.

Context {X : Type} `{Externals X}.

Implicit Types (w : World X) (t : list Event) (c : Call).

(** A handler that only returns a value adds nothing to the run. *)
Lemma respects_try_except_ret (R : relation (World X)) {A} (m : M (World X) A) (a : A) :
  respects R m -> respects R (try_except m (fun _ => ret a)).
Proof.
  intros Hm w r w'. unfold try_except.
  destruct (m w) as [[v|e] w1] eqn:E; intros [= _ <-]; exact (Hm _ _ _ E).
Qed.

(** *** The order of the steps *)










End Login.



Section LoginOrder.

Context {X : Type} `{Externals X}.


End LoginOrder.

Section LoginRun.

Context {X : Type} `{Externals X}.

Implicit Types (w : World X) (t : list Event) (c : Call).

(** *** Jitter *)





(** [type_chars], when no keystroke fails, sends the characters of the
    string in order, each followed by its pause. *)
(** The characters of a text are its bytes, cut into pieces: none is
    lost and none is empty. *)
Lemma py_chars_bytes (s : string) :
  fold_right String.append EmptyString (py_chars s) = s.
Proof.
  induction s as [|b rest IH]; [reflexivity|]. simpl py_chars.
  destruct (continued rest).
  - destruct (py_chars rest) as [|ch chars].
    + simpl in *. rewrite <- IH. reflexivity.
    + simpl in *. rewrite <- IH. reflexivity.
  - simpl. rewrite IH. reflexivity.
Qed.

Lemma py_chars_nonempty (s : string) : Forall (fun ch => ch <> EmptyString) (py_chars s).
Proof.
  induction s as [|b rest IH]; [constructor|]. simpl py_chars.
  destruct (continued rest).
  - destruct (py_chars rest) as [|ch chars].
    + constructor; [discriminate | constructor].
    + inversion IH; subst. constructor; [discriminate | assumption].
  - constructor; [discriminate | exact IH].
Qed.

(** A character outside ASCII is typed in one keystroke. *)
Lemma py_chars_accented :
  py_chars "née" = ["n"; "é"; "e"] /\ String.length "née" = 4.
Proof. split; reflexivity. Qed.

Lemma type_chars_keystrokes e s : forall w w',
  type_chars e s w = (Val tt, w') -> emitted_between w w' (keystrokes e s).
Proof.
  induction s as [|ch rest IH]; simpl; intros w w'.
  - intros [= <-]. apply emitted_refl.
  - unfold bind at 1, send_keys, call.
    destruct (elem_send_keys e ch (ext w)) as [[[]|ex] x]; simpl; [|discriminate].
    unfold bind, sleep_uniform, call_total, call. simpl. intros E.
    apply IH in E. unfold emitted_between, keystrokes in *. rewrite E. simpl.
    rewrite <- !app_assoc. reflexivity.
Qed.

(** *** The result *)

Lemma no_verification_in t o :
  Forall (fun ev => before_verification (fst ev)) t -> (verification_call, o) ∉ t.
Proof.
  intros A Hin. rewrite Forall_forall in A. apply A in Hin.
  specialize (Hin Verification eq_refl). simpl in Hin. lia.
Qed.

Lemma tracks_seq {A} (m : M (World X) A) (f : A -> M (World X) bool) :
  respects (calls_only before_verification) m ->
  (forall a, tracks (f a)) ->
  tracks (bind m f).
Proof.
  intros Hm Hf w r w'. unfold bind.
  destruct (m w) as [[a|e] w1] eqn:E; intros E';
    destruct (Hm _ _ _ E) as (t1 & T1 & A1).
  - destruct (Hf _ _ _ _ E') as (t2 & T2 & R2).
    exists (t1 ++ t2). split; [exact (emitted_trans _ _ _ _ _ T1 T2)|].
    rewrite R2, elem_of_app. split; [auto|].
    intros [Hin|Hin]; [|exact Hin]. destruct (no_verification_in _ _ A1 Hin).
  - injection E' as <- <-. exists t1. split; [exact T1|].
    split; [discriminate|]. intros Hin. destruct (no_verification_in _ _ A1 Hin).
Qed.

Lemma verify_login_tracks : tracks verify_login.
Proof.
  intros w r w'. unfold verify_login, try_timeout, bind, wait_until, on_driver.
  destruct (driver w).
  2:{ intros [= <- <-]. exists []. split; [apply emitted_refl|].
      split; [discriminate | intros Hin; inversion Hin]. }
  unfold call.
  destruct (drv_wait 10 Presence ByXPath direct_link_xpath (ext w)) as [[a|e] x].
  - intros [= <- <-]. exists [(verification_call, Ok)].
    split; [reflexivity|]. split; [intros _; left | reflexivity].
  - intros E. exists [(verification_call, Raised e)]. split.
    + destruct e; injection E as _ <-; reflexivity.
    + split.
      * intros ->. destruct e; discriminate E.
      * intros Hin. apply elem_of_cons in Hin as [Hin|Hin];
          [discriminate Hin | inversion Hin].
Qed.

Lemma type_chars_before_verification e s :
  respects (calls_only before_verification) (type_chars (X:=X) e s).
Proof.
  induction s as [|ch rest IH]; simpl; unfold send_keys, sleep_uniform; frame.
Qed.

Lemma handle_login_challenges_before_verification :
  respects (calls_only before_verification) (handle_login_challenges (X:=X)).
Proof.
  unfold handle_login_challenges, dismiss_if_present, wait_until, click,
    human_delay, sleep_uniform.
  frame.
Qed.

(** *** What was typed *)

Lemma typed_app t1 t2 : typed (t1 ++ t2) = typed t1 ++ typed t2.
Proof. apply omap_app. Qed.

Lemma typed_silent t :
  Forall (fun ev => not_keystroke (fst ev)) t -> typed t = [].
Proof.
  induction 1 as [|[c o] t Pc _ IH]; [reflexivity|].
  destruct c; try destruct Pc; exact IH.
Qed.

Lemma types_skip l {A B} (m : M (World X) A) (f : A -> M (World X) B) :
  respects (calls_only not_keystroke) m ->
  (forall a, types l (f a)) ->
  types l (bind m f).
Proof.
  intros Hm Hf w b w'. unfold bind.
  destruct (m w) as [[a|e] w1] eqn:E; [|discriminate]. intros E'.
  destruct (Hm _ _ _ E) as (t1 & T1 & A1).
  destruct (Hf _ _ _ _ E') as (t2 & T2 & <-).
  exists (t1 ++ t2). split; [exact (emitted_trans _ _ _ _ _ T1 T2)|].
  rewrite typed_app, (typed_silent _ A1). reflexivity.
Qed.

Lemma typed_keystrokes e s : typed (keystrokes e s) = s.
Proof.
  induction s as [|ch rest IH]; [reflexivity|].
  change (ch :: typed (keystrokes e rest) = ch :: rest).
  f_equal. exact IH.
Qed.

Lemma types_type_chars l e s {B} (k : M (World X) B) :
  types l k -> types (s ++ l) (type_chars e s ;;; k).
Proof.
  intros Hk w b w'. unfold bind.
  destruct (type_chars e s w) as [[[]|ex] w1] eqn:E; [|discriminate]. intros E'.
  apply type_chars_keystrokes in E.
  destruct (Hk _ _ _ E') as (t2 & T2 & <-).
  exists (keystrokes e s ++ t2). split; [exact (emitted_trans _ _ _ _ _ E T2)|].
  rewrite typed_app, typed_keystrokes. reflexivity.
Qed.

Lemma types_silent {A} (m : M (World X) A) :
  respects (calls_only not_keystroke) m -> types [] m.
Proof.
  intros Hm w a w' E. destruct (Hm _ _ _ E) as (t & T & A1).
  exists t. split; [exact T | exact (typed_silent _ A1)].
Qed.

Lemma handle_login_challenges_silent :
  respects (calls_only not_keystroke) (handle_login_challenges (X:=X)).
Proof.
  unfold handle_login_challenges, dismiss_if_present, wait_until, click,
    human_delay, sleep_uniform.
  frame.
Qed.

(** *** The optional dialogs *)

Lemma handle_login_challenges_total : total (handle_login_challenges (X:=X)).
Proof. apply total_try_except. intros _. apply total_ret. Qed.


(** A dialog that does not show up within its five seconds is passed
    over: the attempt returns normally after the one wait. *)
Lemma dismiss_if_absent xpath w x :
  driver w = true ->
  drv_wait 5 Clickable ByXPath xpath (ext w) = (Exc TimeoutException, x) ->
  dismiss_if_present xpath w
  = (Val tt, log_event (CWait 5 Clickable ByXPath xpath, Raised TimeoutException)
               (set_ext x w)).
Proof.
  intros D E. unfold dismiss_if_present, try_timeout, bind, wait_until, on_driver, call.
  rewrite D, E. reflexivity.
Qed.

End LoginRun.

(** One statement before the final check, and what follows it. *)
Ltac skip_statement :=
  first [ apply type_chars_before_verification
        | apply handle_login_challenges_before_verification
        | apply handle_login_challenges_silent
        | unfold dismiss_if_present, driver_get, wait_until, find_element,
            click, clear, human_delay, sleep_uniform;
          solve [frame] ].

Section LoginProtocol.

Context {X : Type} `{Externals X}.

Implicit Types (w : World X) (t : list Event) (c : Call).

Lemma login_attempt_tracks : tracks (login_attempt (X:=X)).
Proof.
  intros w0 r0 w1 E. unfold login_attempt in E.
  revert E. generalize (username w0), (password w0). intros u p.
  revert w0 r0 w1. change (tracks
    (driver_get login_url ;;; human_delay 3 5 ;;; dismiss_if_present accept_xpath ;;;
     username_input <- wait_until 10 Presence ByName "username" ;;
     clear username_input ;;; type_chars username_input (py_chars u) ;;;
     human_delay 1 2 ;;;
     password_input <- find_element ByName "password" ;;
     clear password_input ;;; type_chars password_input (py_chars p) ;;;
     human_delay 1 2 ;;;
     login_btn <- find_element ByXPath submit_xpath ;;
     click login_btn ;;; human_delay 5 8 ;;; handle_login_challenges ;;;
     verify_login)).
  repeat (apply tracks_seq; [skip_statement | intro]).
  apply verify_login_tracks.
Qed.

Lemma login_attempt_types w :
  types (py_chars (username w) ++ py_chars (password w) ++ [])
    (driver_get login_url ;;; human_delay 3 5 ;;; dismiss_if_present accept_xpath ;;;
     username_input <- wait_until 10 Presence ByName "username" ;;
     clear username_input ;;; type_chars username_input (py_chars (username w)) ;;;
     human_delay 1 2 ;;;
     password_input <- find_element ByName "password" ;;
     clear password_input ;;; type_chars password_input (py_chars (password w)) ;;;
     human_delay 1 2 ;;;
     login_btn <- find_element ByXPath submit_xpath ;;
     click login_btn ;;; human_delay 5 8 ;;; handle_login_challenges ;;;
     verify_login).
Proof.
  repeat first [ apply types_type_chars
               | apply types_skip; [skip_statement | intro] ].
  apply types_silent. unfold verify_login, wait_until. frame.
Qed.

(** *** The shape of a run *)






















Lemma login_instagram_answer w :
  exists b w' t,
    login_instagram w = (Val b, w') /\
    emitted_between w w' t /\
    (b = true <-> (verification_call, Ok) ∈ t) /\
    (b = true ->
     typed t = py_chars (username w) ++ py_chars (password w)).
Proof.
  unfold login_instagram, try_except.
  destruct (login_attempt w) as [[b|e] w'] eqn:E.
  - destruct (login_attempt_tracks _ _ _ E) as (t & T & R).
    exists b, w', t. split; [reflexivity|]. split; [exact T|]. split.
    + rewrite <- R. split; [intros ->; reflexivity | intros [= ->]; reflexivity].
    + intros ->. destruct (login_attempt_types w _ _ _ E) as (t' & T' & Ty).
      rewrite (emitted_unique _ _ _ _ T T'), Ty, app_nil_r. reflexivity.
  - destruct (login_attempt_tracks _ _ _ E) as (t & T & R).
    exists false, w', t. split; [reflexivity|]. split; [exact T|]. split.
    + rewrite <- R. split; discriminate.
    + discriminate.
Qed.


End LoginProtocol.


(** ** Persistence *)

Section Persistence.

Context {X : Type} `{Externals X}.

Implicit Types (w : World X) (t : list Event) (c : Call).

(** *** Cookie injection *)

Lemma inject_cookies_attempts_all cookies : forall w,
  exists w' t,
    inject_cookies cookies w = (Val tt, w') /\
    emitted_between w w' t /\
    (driver w = true -> map fst t = map CAddCookie cookies).
Proof.
  induction cookies as [|k rest IH]; intros w.
  - exists w, []. split; [reflexivity|]. split; [apply emitted_refl | reflexivity].
  - simpl. unfold bind, try_except, on_driver.
    destruct (driver w) eqn:D.
    + unfold call. destruct (drv_add_cookie k (ext w)) as [r x].
      destruct (IH (log_event (CAddCookie k, outcome_of r) (set_ext x w)))
        as (w' & t & E & T & Hc).
      exists w', ((CAddCookie k, outcome_of r) :: t).
      split; [destruct r; exact E|]. split.
      * unfold emitted_between in *. rewrite T. simpl.
        rewrite <- app_assoc. reflexivity.
      * intros _. simpl. rewrite (Hc D). reflexivity.
    + destruct (IH w) as (w' & t & E & T & _).
      exists w', t. split; [exact E|]. split; [exact T | discriminate].
Qed.



(** *** Loading *)


Lemma load_session_info_cases w :
  (exists r, load_session_info w = (r, w) /\
             (r = Val tt -> files (fs w) !! session_file w = None)) \/
  (exists d,
     files (fs w) !! session_file w = Some (PickledDict d) /\
     (session_file w ∉ locked (fs w)) /\
     load_session_info w
     = (Val tt, set_processed_messages
                  (list_to_set (default [] (sd_processed_messages d))) w)).
Proof.
  unfold load_session_info, bind, path_exists, read_file.
  destruct (files (fs w) !! session_file w) as [content|] eqn:F.
  2:{ left. exists (Val tt). rewrite bool_decide_eq_false_2; [auto|].
      intros [? [=]]. }
  rewrite bool_decide_eq_true_2 by eauto.
  case_bool_decide as L.
  { left. exists (Exc OSError). split; [reflexivity | discriminate]. }
  rewrite F.
  destruct content as [raw|d| |cs|items| |]; simpl;
    try (left; eexists (Exc _); split; [reflexivity | discriminate]).
  right. exists d. auto.
Qed.




(** *** Saving, then loading *)



(** *** Publishing *)

(** C10. [add_to_buffer_fixed] never raises.  It returns true exactly
    when the message has a URL, the POST was sent and its answer has
    status 200; in that case the id of the message joins the processed
    messages, and in every other case the set is left as it was. *)
Theorem add_to_buffer_marks_iff_published msg w :
  exists b w',
    add_to_buffer_fixed msg w = (Val b, w') /\
    (b = true <-> published w msg) /\
    processed_messages w'
    = (if b then {[ m_id msg ]} ∪ processed_messages w else processed_messages w).
Proof.
  unfold add_to_buffer_fixed, try_except, published, publish_request.
  destruct (m_url msg) as [[|ch url]|] eqn:U.
  - exists false, w. split; [reflexivity|]. split; [|reflexivity].
    split; [discriminate|]. intros (u & resp & x & [= <-] & Ne & _). contradiction.
  - unfold bind, call.
    match goal with
    | |- context [requests_post ?a ?b ?c (ext w)] =>
        destruct (requests_post a b c (ext w)) as [[resp|e] x] eqn:E
    end; simpl.
    + destruct (Nat.eqb (status_code resp) 200) eqn:S.
      * eexists true, _. split; [reflexivity|]. split; [|reflexivity].
        split; [|reflexivity]. intros _. exists (String ch url), resp, x.
        apply Nat.eqb_eq in S. auto.
      * eexists false, _. split; [reflexivity|]. split; [|reflexivity].
        split; [discriminate|].
        intros (u & resp' & x' & [= <-] & _ & E' & S').
        rewrite E in E'. injection E' as <- <-.
        apply Nat.eqb_neq in S. contradiction.
    + eexists false, _. split; [reflexivity|]. split; [|reflexivity].
      split; [discriminate|].
      intros (u & resp' & x' & [= <-] & _ & E' & _).
      rewrite E in E'. discriminate E'.
  - exists false, w. split; [reflexivity|]. split; [|reflexivity].
    split; [discriminate|]. intros (u & resp & x & [=] & _).
Qed.

End Persistence.



(** ** The process *)

Section Process.

Context {X : Type} `{Externals X}.

Implicit Types (w : World X) (config : Config) (x : X) (f : FileSystem).

Lemma test_buffer_connection_total : total (test_buffer_connection (X:=X)).
Proof. apply total_try_except. intros _. apply total_ret. Qed.

(** [run_scheduled_check] raises only when [driver.quit()] does. *)
Lemma run_scheduled_check_raises w e w' :
  run_scheduled_check w = (Exc e, w') ->
  exists x x', drv_quit x = (Exc e, x').
Proof.
  unfold run_scheduled_check, try_finally.
  match goal with
  | |- context [try_except ?m ?h w] =>
      destruct (total_try_except m h (fun _ => total_ret false) w) as (b & w1 & ->)
  end.
  destruct (driver w1); [|discriminate].
  unfold call. destruct (drv_quit (ext w1)) as [[[]|e'] x'] eqn:Q; [discriminate|].
  intros [= -> _]. eauto.
Qed.

(** What holds of the exit status: a missing variable ends the process
    with status 1 before any call is made; the status is 0 exactly when
    all four variables are set, the Buffer probe succeeds and
    [run_scheduled_check] returns true; it is 0 or 1 in every case; and a
    traceback can only come from [driver.quit()]. *)
Lemma main_exit_status config x f :
  (missing_vars config <> [] -> main config x f = (SysExit 1, ([], x, f))) /\
  (exit_code (fst (main config x f)) = 0 <->
   missing_vars config = [] /\
   exists w1 w2,
     test_buffer_connection (bot_of_config config x f) = (Val true, w1) /\
     run_scheduled_check w1 = (Val true, w2)) /\
  (exit_code (fst (main config x f)) = 0 \/ exit_code (fst (main config x f)) = 1) /\
  (forall e, fst (main config x f) = Traceback e ->
             exists x1 x2, drv_quit x1 = (Exc e, x2)).
Proof.
  unfold main. destruct (missing_vars config) as [|v vs].
  2:{ split; [reflexivity|]. split; [|split; [right; reflexivity | discriminate]].
      split; [discriminate | intros [[=] _]]. }
  destruct (test_buffer_connection_total (bot_of_config config x f)) as (ok & w1 & ->).
  split; [intros N; destruct (N eq_refl)|].
  destruct ok.
  2:{ split; [|split; [right; reflexivity | discriminate]].
      split; [discriminate | intros (_ & ? & ? & [=] & _)]. }
  destruct (run_scheduled_check w1) as [[[|]|e] w2] eqn:R; simpl.
  - split; [|split; [left; reflexivity | discriminate]].
    split; [eauto 6 | reflexivity].
  - split; [|split; [right; reflexivity | discriminate]].
    split; [discriminate|]. intros (_ & w1' & w2' & [= <-] & R'). congruence.
  - split; [|split; [right; reflexivity|]].
    + split; [discriminate|]. intros (_ & w1' & w2' & [= <-] & R'). congruence.
    + intros e' [= <-]. exact (run_scheduled_check_raises _ _ _ R).
Qed.

End Process.

(** C8 fails on a run in which everything succeeds and the shutdown of
    the driver raises: the [finally] clause of [run_scheduled_check] lets
    the exception through, and the process ends with a traceback instead
    of [sys.exit(0)].  With a driver that shuts down properly the same
    run exits with status 0. *)
Lemma main_traceback_when_quit_raises :
  fst (main Sim.alice Sim.quit_fails Sim.saved_files) = Traceback WebDriverException /\
  fst (main Sim.alice Sim.quit_works Sim.saved_files) = SysExit 0.
Proof. split; vm_compute; reflexivity. Qed.

(** A publish request that cannot be sent does not change the status. *)
Lemma main_exit_zero_when_publish_fails :
  fst (main Sim.alice Sim.publish_fails Sim.saved_files) = SysExit 0.
Proof. vm_compute. reflexivity. Qed.

(** A missing token ends the process before any call is made. *)
Lemma main_missing_token :
  main Sim.no_token Sim.quit_works Sim.saved_files
  = (SysExit 1, ([], Sim.quit_works, Sim.saved_files)).
Proof. reflexivity. Qed.

(** ** Further runs on the simulated site *)




(** A cookie file that holds a JSON object instead of an array is
    iterated over all the same: its one key is offered to the driver,
    which refuses it, and [load_session] returns true with no cookie
    added. *)
Lemma load_session_json_object_run :
  fst (load_session (Sim.after_setup (Sim.bot Sim.resumed Sim.cookies_object)))
  = Val true /\
  (CAddOther "sessionid", Raised WebDriverException)
  ∈ trace (snd (load_session (Sim.after_setup (Sim.bot Sim.resumed Sim.cookies_object)))) /\
  forall c o, (CAddCookie c, o)
  ∉ trace (snd (load_session (Sim.after_setup (Sim.bot Sim.resumed Sim.cookies_object)))).
Proof.
  split; [vm_compute; reflexivity|]. split.
  - apply list_elem_of_In. vm_compute. auto 20.
  - intros c o Hin. apply list_elem_of_In in Hin. vm_compute in Hin.
    repeat destruct Hin as [Hin|Hin]; try discriminate Hin. exact Hin.
Qed.

(** On a full disk [save_session] returns false and the session file,
    which [open] has truncated, no longer holds the earlier session. *)
Lemma save_session_truncates_run :
  fst (save_session (Sim.after_probe (Sim.bot Sim.resumed Sim.session_unwritable)))
  = Val false /\
  files (fs (snd (save_session
                    (Sim.after_probe (Sim.bot Sim.resumed Sim.session_unwritable)))))
    !! "instagram_session_alice.pkl" = Some Truncated.
Proof. split; vm_compute; reflexivity. Qed.

Lemma add_to_buffer_marks_iff_published_run :
  exists w',
    add_to_buffer_fixed Sim.reel (Sim.after_probe (Sim.bot Sim.resumed Sim.no_files))
    = (Val true, w') /\
    processed_messages w' = {[ "0_37" ]} ∪ ∅.
Proof.
  destruct (add_to_buffer_marks_iff_published Sim.reel
              (Sim.after_probe (Sim.bot Sim.resumed Sim.no_files)))
    as (b & w' & E & R & P).
  assert (B : b = true).
  { apply R. exists "https://www.instagram.com/p/Cx1/", (mkResponse 200 EmptyString),
      Sim.resumed.
    split; [reflexivity|]. split; [discriminate|]. split; vm_compute; reflexivity. }
  subst b. exists w'. split; [exact E | exact P].
Defined.

(** * Further properties of the code *)

(** ** Counting calls *)

Section Costs.

Context {X : Type} `{Externals X}.

Implicit Types (w : World X) (t : list Event) (c : Call).

Lemma total_cost_app cost t1 t2 :
  total_cost cost (t1 ++ t2) = total_cost cost t1 + total_cost cost t2.
Proof. induction t1 as [|ev t1 IH]; simpl; [reflexivity | rewrite IH; lia]. Qed.

Context (cost : Call -> nat).

Lemma costs_refl n w : costs cost n w w.
Proof. exists []. split; [apply emitted_refl | simpl; lia]. Qed.

Lemma costs_weaken n n' w w' : n <= n' -> costs cost n w w' -> costs cost n' w w'.
Proof. intros Hn (t & T & C). exists t. split; [exact T | lia]. Qed.

Lemma costs_trans a b w1 w2 w3 :
  costs cost a w1 w2 -> costs cost b w2 w3 -> costs cost (a + b) w1 w3.
Proof.
  intros (t1 & T1 & C1) (t2 & T2 & C2). exists (t1 ++ t2).
  split; [exact (emitted_trans _ _ _ _ _ T1 T2) | rewrite total_cost_app; lia].
Qed.

Lemma costs_ret {A} (a : A) : respects (X:=X) (costs cost 0) (ret a).
Proof. intros w r w' [= _ <-]. apply costs_refl. Qed.

Lemma costs_raise {A} e : respects (X:=X) (costs cost 0) (@raise _ A e).
Proof. intros w r w' [= _ <-]. apply costs_refl. Qed.

Lemma costs_bind a b {A B} (m : M (World X) A) (f : A -> M (World X) B) :
  respects (costs cost a) m ->
  (forall v, respects (costs cost b) (f v)) ->
  respects (costs cost (a + b)) (bind m f).
Proof.
  intros Hm Hf w r w'. unfold bind.
  destruct (m w) as [[v|e] w1] eqn:E; intros E'.
  - exact (costs_trans _ _ _ _ _ (Hm _ _ _ E) (Hf _ _ _ _ E')).
  - injection E' as _ <-. apply (costs_weaken a); [lia | exact (Hm _ _ _ E)].
Qed.

Lemma costs_try_except a b {A} (m : M (World X) A) h :
  respects (costs cost a) m ->
  (forall e, respects (costs cost b) (h e)) ->
  respects (costs cost (a + b)) (try_except m h).
Proof.
  intros Hm Hh w r w'. unfold try_except.
  destruct (m w) as [[v|e] w1] eqn:E; intros E'.
  - injection E' as _ <-. apply (costs_weaken a); [lia | exact (Hm _ _ _ E)].
  - exact (costs_trans _ _ _ _ _ (Hm _ _ _ E) (Hh _ _ _ _ E')).
Qed.

Lemma costs_try_timeout a b {A} (m h : M (World X) A) :
  respects (costs cost a) m ->
  respects (costs cost b) h ->
  respects (costs cost (a + b)) (try_timeout m h).
Proof.
  intros Hm Hh w r w'. unfold try_timeout.
  destruct (m w) as [[v|e] w1] eqn:E; intros E'.
  - injection E' as _ <-. apply (costs_weaken a); [lia | exact (Hm _ _ _ E)].
  - destruct e;
      try (injection E' as _ <-; apply (costs_weaken a); [lia | exact (Hm _ _ _ E)]).
    exact (costs_trans _ _ _ _ _ (Hm _ _ _ E) (Hh _ _ _ E')).
Qed.

Lemma costs_call n {A} c (op : X -> res A * X) :
  cost c <= n -> respects (costs cost n) (call c op).
Proof.
  intros Hn w r w'. unfold call. destruct (op (ext w)) as [r0 x].
  intros [= <- <-]. exists [(c, outcome_of r0)]. split; [reflexivity | simpl; lia].
Qed.

Lemma costs_call_total n {A} c (op : X -> A * X) :
  cost c <= n -> respects (costs cost n) (call_total c op).
Proof. apply costs_call. Qed.

Lemma costs_on_driver n {A} c (op : X -> res A * X) :
  cost c <= n -> respects (costs cost n) (on_driver c op).
Proof.
  intros Hn w r w'. unfold on_driver. destruct (driver w).
  - apply costs_call, Hn.
  - intros [= _ <-]. apply costs_refl.
Qed.

Lemma costs_if a b {A} (cond : bool) (m1 m2 : M (World X) A) :
  respects (costs cost a) m1 ->
  respects (costs cost b) m2 ->
  respects (costs cost (Nat.max a b)) (if cond then m1 else m2).
Proof.
  intros H1 H2 w r w' E. destruct cond.
  - apply (costs_weaken a); [lia | exact (H1 _ _ _ E)].
  - apply (costs_weaken b); [lia | exact (H2 _ _ _ E)].
Qed.

Lemma costs_le n n' {A} (m : M (World X) A) :
  respects (costs cost n) m -> n <= n' -> respects (costs cost n') m.
Proof. intros Hm Hn w r w' E. exact (costs_weaken _ _ _ _ Hn (Hm _ _ _ E)). Qed.

End Costs.

Ltac cost_leaf :=
  cbv beta iota delta [wait_seconds sleep_ms clicks posts]; apply Nat.le_refl.

(** Find a bound on the cost of a computation along its structure. *)
Ltac cost_step :=
  lazymatch goal with
  | |- respects (costs _ _) (ret _) => apply costs_ret
  | |- respects (costs _ _) (raise _) => apply costs_raise
  | |- respects (costs _ _) (bind _ _) => eapply costs_bind; [ | intro]
  | |- respects (costs _ _) (try_except _ _) => eapply costs_try_except; [ | intro]
  | |- respects (costs _ _) (try_timeout _ _) => eapply costs_try_timeout
  | |- respects (costs _ _) (call_total _ _) => apply costs_call_total; cost_leaf
  | |- respects (costs _ _) (call _ _) => apply costs_call; cost_leaf
  | |- respects (costs _ _) (on_driver _ _) => apply costs_on_driver; cost_leaf
  | |- respects (costs _ _) (if _ then _ else _) => eapply costs_if
  | |- respects (costs _ _) (let _ := _ in _) => cbv zeta
  | |- respects (costs _ _) (fun w => _ w) =>
      let w0 := fresh "w0" in let r0 := fresh "r0" in
      let w1 := fresh "w1" in let E := fresh "E" in
      intros w0 r0 w1 E; eapply respects_at; [ | exact E]
  end.

Ltac cost := repeat cost_step.

(** ** The timeouts and pauses of the probe and of the login *)

Section Budgets.

Context {X : Type} `{Externals X}.

Implicit Types (w : World X) (t : list Event) (c : Call).

Lemma probe_indicators_waits indicators :
  respects (costs wait_seconds (5 * length indicators))
    (probe_indicators (X:=X) indicators).
Proof.
  induction indicators as [|i rest IH].
  - apply costs_ret.
  - simpl probe_indicators. unfold wait_until.
    eapply costs_le; [cost; exact IH|].
    cbn [length]. lia.
Qed.

Lemma probe_indicators_sleeps indicators :
  respects (costs sleep_ms 0) (probe_indicators (X:=X) indicators).
Proof.
  induction indicators as [|i rest IH].
  - apply costs_ret.
  - simpl probe_indicators. unfold wait_until.
    eapply costs_le; [cost; exact IH|].
    lia.
Qed.

Lemma probe_login_page_free cost indicators :
  (forall i, cost (CFind ByXPath i) = 0) ->
  respects (costs cost 0) (probe_login_page (X:=X) indicators).
Proof.
  intros Free. induction indicators as [|i rest IH].
  - apply costs_ret.
  - simpl probe_login_page. unfold find_element.
    eapply costs_le; [cost; exact IH|].
    rewrite Free. lia.
Qed.

Lemma is_logged_in_waits indicators :
  respects (costs wait_seconds (5 * length indicators))
    (is_logged_in_with (X:=X) indicators).
Proof.
  unfold is_logged_in_with, driver_get, human_delay, sleep_uniform.
  eapply costs_le.
  - cost; [apply probe_indicators_waits | apply probe_login_page_free; reflexivity].
  - lia.
Qed.

Lemma is_logged_in_sleeps indicators :
  respects (costs sleep_ms (1000 * 5)) (is_logged_in_with (X:=X) indicators).
Proof.
  unfold is_logged_in_with, driver_get, human_delay, sleep_uniform.
  eapply costs_le.
  - cost; [apply probe_indicators_sleeps | apply probe_login_page_free; reflexivity].
  - lia.
Qed.

(** X1. The timeouts handed to [WebDriverWait] during one run of
    [is_logged_in] add up to at most 25 seconds (five markers, five
    seconds each), and the upper bounds handed to [random.uniform] for
    its pauses to at most 5 seconds.  (How long the driver takes is not
    part of the model.) *)
Theorem is_logged_in_budget w :
  exists t,
    emitted_between w (snd (is_logged_in w)) t /\
    total_cost wait_seconds t <= 25 /\
    total_cost sleep_ms t <= 1000 * 5.
Proof.
  destruct (is_logged_in w) as [r w'] eqn:E. cbn [snd].
  destruct (is_logged_in_waits _ _ _ _ E) as (t & T & W).
  destruct (is_logged_in_sleeps _ _ _ _ E) as (t' & T' & S).
  rewrite <- (emitted_unique _ _ _ _ T T') in S.
  exists t. split; [exact T|]. split; [exact W | exact S].
Qed.

Lemma type_chars_waits e s :
  respects (costs wait_seconds 0) (type_chars (X:=X) e s).
Proof.
  induction s as [|ch rest IH].
  - apply costs_ret.
  - simpl type_chars. unfold send_keys, sleep_uniform.
    eapply costs_le; [cost; exact IH|]. lia.
Qed.

Lemma type_chars_sleeps e s :
  respects (costs sleep_ms (150 * length s)) (type_chars (X:=X) e s).
Proof.
  induction s as [|ch rest IH].
  - apply costs_ret.
  - simpl type_chars. unfold send_keys, sleep_uniform.
    eapply costs_le; [cost; exact IH|]. cbn [length]. lia.
Qed.

Lemma login_instagram_waits :
  respects (costs wait_seconds 35) (login_instagram (X:=X)).
Proof.
  unfold login_instagram, login_attempt, handle_login_challenges, verify_login,
    dismiss_if_present, driver_get, wait_until, find_element, click, clear,
    human_delay, sleep_uniform.
  eapply costs_le.
  - cost; apply type_chars_waits.
  - lia.
Qed.

Lemma login_instagram_sleeps w r w' :
  login_instagram w = (r, w') ->
  costs sleep_ms
    (1000 * 26
     + 150 * (length (py_chars (username w)) + length (py_chars (password w)))) w w'.
Proof.
  unfold login_instagram, try_except.
  destruct (login_attempt w) as [[b|e] w1] eqn:A; intros [= _ <-];
    unfold login_attempt in A;
    (eapply respects_at; [|exact A]);
    unfold handle_login_challenges, verify_login,
      dismiss_if_present, driver_get, wait_until, find_element, click, clear,
      human_delay, sleep_uniform;
    (eapply costs_le; [cost; apply type_chars_sleeps | lia]).
Qed.

(** X2. The timeouts handed to [WebDriverWait] during one run of
    [login_instagram] add up to at most 35 seconds, and the upper bounds
    handed to [random.uniform] for its pauses to at most 26 seconds plus
    0.15 seconds for every character of the username and of the
    password.  (How long the driver takes is not part of the model.) *)
Theorem login_instagram_budget w :
  exists t,
    emitted_between w (snd (login_instagram w)) t /\
    total_cost wait_seconds t <= 35 /\
    total_cost sleep_ms t
    <= 1000 * 26
       + 150 * (length (py_chars (username w)) + length (py_chars (password w))).
Proof.
  destruct (login_instagram w) as [r w'] eqn:E. cbn [snd].
  destruct (login_instagram_waits _ _ _ E) as (t & T & W).
  destruct (login_instagram_sleeps _ _ _ E) as (t' & T' & S).
  rewrite <- (emitted_unique _ _ _ _ T T') in S.
  exists t. split; [exact T|]. split; [exact W | exact S].
Qed.

End Budgets.

(** ** Scanning the inbox *)

Section Scan.

Context {X : Type} `{Externals X}.

Implicit Types (w : World X) (t : list Event) (c : Call) (ms : list message).

Lemma length_last3 {A} (l : list A) : length (last3 l) <= 3.
Proof. unfold last3. rewrite length_skipn. lia. Qed.

Lemma scan_message_adds i e ms w :
  exists extra w',
    scan_message i e ms w = (Val (ms ++ extra), w') /\
    length extra <= 1 /\
    Forall (new_message (processed_messages w)) extra /\
    processed_messages w' = processed_messages w /\
    fs w' = fs w.
Proof.
  unfold scan_message, try_except, bind, call.
  destruct (elem_text e (ext w)) as [[raw|ex] x].
  - cbv zeta. fold (mentions_instagram (str_strip raw)).
    destruct (mentions_instagram (str_strip raw)) eqn:Mi.
    + case_bool_decide as Seen.
      * exists [], (log_event (CText e, Ok) (set_ext x w)).
        rewrite app_nil_r. repeat split; [simpl; lia | constructor].
      * eexists [_], _. split; [reflexivity|]. split; [simpl; lia|].
        split; [|split; reflexivity].
        constructor; [|constructor]. split; [exact Seen|]. split; [exact Mi | reflexivity].
    + exists [], (log_event (CText e, Ok) (set_ext x w)).
      rewrite app_nil_r. repeat split; [simpl; lia | constructor].
  - exists [], (log_event (CText e, Raised ex) (set_ext x w)).
    rewrite app_nil_r. repeat split; [simpl; lia | constructor].
Qed.

Lemma scan_messages_adds i elems : forall ms w,
  exists extra w',
    scan_messages i elems ms w = (Val (ms ++ extra), w') /\
    length extra <= length elems /\
    Forall (new_message (processed_messages w)) extra /\
    processed_messages w' = processed_messages w /\
    fs w' = fs w.
Proof.
  induction elems as [|e rest IH]; intros ms w.
  - exists [], w. rewrite app_nil_r. repeat split; [simpl; lia | constructor].
  - simpl. unfold bind.
    destruct (scan_message_adds i e ms w) as (x1 & w1 & -> & L1 & N1 & P1 & F1).
    destruct (IH (ms ++ x1) w1) as (x2 & w2 & -> & L2 & N2 & P2 & F2).
    exists (x1 ++ x2), w2. rewrite app_assoc. split; [reflexivity|].
    split; [rewrite length_app; simpl; lia|]. split; [|split; congruence].
    apply Forall_app. split; [exact N1|]. rewrite <- P1. exact N2.
Qed.

Lemma conversation_opening_keeps conversation :
  respects (confined (fun _ => True))
    (click (X:=X) conversation ;;; human_delay 2 3 ;;; find_elements ByXPath message_xpath) /\
  respects keeps_processed
    (click (X:=X) conversation ;;; human_delay 2 3 ;;; find_elements ByXPath message_xpath).
Proof.
  unfold click, human_delay, sleep_uniform, find_elements. split; frame.
Qed.

Lemma human_delay_keeps lo hi w r w' :
  human_delay lo hi w = (r, w') ->
  processed_messages w' = processed_messages w /\ fs w' = fs w.
Proof.
  unfold human_delay, sleep_uniform, call_total, call. intros [= _ <-].
  split; reflexivity.
Qed.

Lemma scan_conversation_adds i conversation ms w :
  exists extra w',
    scan_conversation i conversation ms w = (Val (ms ++ extra), w') /\
    length extra <= 3 /\
    Forall (new_message (processed_messages w)) extra /\
    processed_messages w' = processed_messages w /\
    fs w' = fs w.
Proof.
  unfold scan_conversation.
  destruct ((click conversation ;;; human_delay 2 3 ;;;
             find_elements ByXPath message_xpath) w) as [[elems|ex] w1] eqn:E;
    destruct (conversation_opening_keeps conversation) as [C K];
    pose proof (K _ _ _ E) as P1; destruct (C _ _ _ E) as [F1 _].
  - destruct (scan_messages_adds i (last3 elems) ms w1)
      as (extra & w2 & -> & L & N & P2 & F2).
    destruct (human_delay 1 2 w2) as [r3 w3] eqn:D.
    destruct (human_delay_keeps _ _ _ _ _ D) as [P3 F3].
    exists extra, w3. split; [reflexivity|].
    split; [pose proof (length_last3 elems); lia|].
    split; [rewrite <- P1; exact N|]. split; congruence.
  - exists [], w1. rewrite app_nil_r. split; [reflexivity|].
    split; [simpl; lia|]. split; [constructor|]. split; assumption.
Qed.

Lemma scan_conversations_adds conversations : forall i ms w,
  exists extra w',
    scan_conversations i conversations ms w = (Val (ms ++ extra), w') /\
    length extra <= 3 * length conversations /\
    Forall (new_message (processed_messages w)) extra /\
    processed_messages w' = processed_messages w /\
    fs w' = fs w.
Proof.
  induction conversations as [|conversation rest IH]; intros i ms w.
  - exists [], w. rewrite app_nil_r. repeat split; [simpl; lia | constructor].
  - simpl scan_conversations. unfold bind.
    destruct (scan_conversation_adds i conversation ms w)
      as (x1 & w1 & -> & L1 & N1 & P1 & F1).
    destruct (IH (S i) (ms ++ x1) w1) as (x2 & w2 & -> & L2 & N2 & P2 & F2).
    exists (x1 ++ x2), w2. rewrite app_assoc. split; [reflexivity|].
    split; [rewrite length_app; simpl length; lia|]. split; [|split; congruence].
    apply Forall_app. split; [exact N1|]. rewrite <- P1. exact N2.
Qed.

Lemma find_elements_keeps by_ v :
  respects (confined (fun _ => True)) (find_elements (X:=X) by_ v) /\
  respects keeps_processed (find_elements (X:=X) by_ v).
Proof. unfold find_elements. split; frame. Qed.

Lemma get_new_messages_scan w :
  exists ms w',
    get_new_messages w = (Val ms, w') /\
    length ms <= 15 /\
    Forall (new_message (processed_messages w)) ms /\
    processed_messages w' = processed_messages w /\
    fs w' = fs w.
Proof.
  unfold get_new_messages, try_except, bind.
  destruct (find_elements ByXPath conversation_xpath w) as [[convs|ex] w1] eqn:E;
    destruct (find_elements_keeps ByXPath conversation_xpath) as [C K];
    pose proof (K _ _ _ E) as P1; destruct (C _ _ _ E) as [F1 _].
  - destruct (scan_conversations_adds (firstn 5 convs) 0 [] w1)
      as (extra & w' & -> & L & N & P & F).
    exists extra, w'. split; [reflexivity|].
    split; [pose proof (firstn_le_length 5 convs); lia|].
    split; [rewrite <- P1; exact N|]. split; congruence.
  - exists [], w1. split; [reflexivity|]. split; [simpl; lia|].
    split; [constructor|]. split; assumption.
Qed.

(** *** How many conversations are opened *)

Lemma scan_message_clicks i e ms :
  respects (costs clicks 0) (scan_message (X:=X) i e ms).
Proof.
  unfold scan_message. eapply costs_le; [cost|]. lia.
Qed.

Lemma scan_messages_clicks i elems : forall ms,
  respects (costs clicks 0) (scan_messages (X:=X) i elems ms).
Proof.
  induction elems as [|e rest IH]; intros ms.
  - apply costs_ret.
  - simpl scan_messages.
    eapply costs_le; [cost; [apply scan_message_clicks | apply IH] | lia].
Qed.

Lemma scan_conversation_clicks i conversation ms :
  respects (costs clicks 1) (scan_conversation (X:=X) i conversation ms).
Proof.
  intros w r w'. unfold scan_conversation.
  destruct ((click conversation ;;; human_delay 2 3 ;;;
             find_elements ByXPath message_xpath) w) as [[elems|ex] w1] eqn:E.
  - destruct (scan_messages i (last3 elems) ms w1) as [[ms1|ex] w2] eqn:S.
    + destruct (human_delay 1 2 w2) as [r3 w3] eqn:D. intros [= _ <-].
      apply (costs_weaken clicks (1 + 0 + 0)); [lia|].
      apply (costs_trans clicks (1 + 0) 0 w w2 w3).
      * apply (costs_trans clicks 1 0 w w1 w2).
        -- revert E. apply respects_at.
           unfold click, human_delay, sleep_uniform, find_elements.
           eapply costs_le; [cost | lia].
        -- exact (scan_messages_clicks _ _ _ _ _ _ S).
      * revert D. apply respects_at. unfold human_delay, sleep_uniform.
        eapply costs_le; [cost | lia].
    + intros [= _ <-]. apply (costs_weaken clicks (1 + 0)); [lia|].
      apply (costs_trans clicks 1 0 w w1 w2).
      * revert E. apply respects_at.
        unfold click, human_delay, sleep_uniform, find_elements.
        eapply costs_le; [cost | lia].
      * exact (scan_messages_clicks _ _ _ _ _ _ S).
  - intros [= _ <-]. revert E. apply respects_at.
    unfold click, human_delay, sleep_uniform, find_elements.
    eapply costs_le; [cost | lia].
Qed.

Lemma scan_conversations_clicks conversations : forall i ms,
  respects (costs clicks (length conversations))
    (scan_conversations (X:=X) i conversations ms).
Proof.
  induction conversations as [|conversation rest IH]; intros i ms.
  - apply costs_ret.
  - simpl scan_conversations.
    eapply costs_le; [cost; [apply scan_conversation_clicks | apply IH]|].
    simpl length. lia.
Qed.

Lemma get_new_messages_clicks :
  respects (costs clicks 5) (get_new_messages (X:=X)).
Proof.
  intros w r w'. unfold get_new_messages, try_except, bind.
  destruct (find_elements ByXPath conversation_xpath w) as [[convs|ex] w1] eqn:E.
  - destruct (scan_conversations 0 (firstn 5 convs) [] w1) as [[ms|ex] w2] eqn:S;
      intros [= _ <-];
      apply (costs_weaken clicks (0 + length (firstn 5 convs)));
      try (pose proof (firstn_le_length 5 convs); lia);
      (apply (costs_trans clicks 0 _ w w1 w2);
       [ revert E; apply respects_at; unfold find_elements;
         eapply costs_le; [cost | lia]
       | exact (scan_conversations_clicks _ _ _ _ _ _ S) ]).
  - intros [= _ <-]. revert E. apply respects_at. unfold find_elements.
    eapply costs_le; [cost | lia].
Qed.

(** X3. [get_new_messages] never raises, returns at most 15 messages
    (the last three of each of the first five conversations) and clicks
    at most five times. *)
Theorem get_new_messages_bounded w :
  exists ms w' t,
    get_new_messages w = (Val ms, w') /\
    emitted_between w w' t /\
    length ms <= 15 /\
    total_cost clicks t <= 5.
Proof.
  destruct (get_new_messages_scan w) as (ms & w' & E & L & _).
  destruct (get_new_messages_clicks _ _ _ E) as (t & T & C).
  exists ms, w', t. auto.
Qed.

(** X4. Every message [get_new_messages] returns has an id that is not
    among the processed ones, a text that mentions 'instagram.com' or
    'reel', and as URL what [extract_instagram_url] finds in the text;
    the scan changes neither the processed set nor the files. *)
Theorem get_new_messages_reports_new w :
  exists ms w',
    get_new_messages w = (Val ms, w') /\
    Forall (new_message (processed_messages w)) ms /\
    processed_messages w' = processed_messages w /\
    fs w' = fs w.
Proof.
  destruct (get_new_messages_scan w) as (ms & w' & E & _ & N & P & F).
  exists ms, w'. auto.
Qed.

End Scan.

(** ** Publishing the new messages *)

Lemma subseteq_widen_listed (a b c : gset string) (id : string) :
  a ⊆ b ∪ c -> a ⊆ b ∪ ({[ id ]} ∪ c).
Proof.
  intros S x Hx. apply S in Hx. apply elem_of_union in Hx as [Hx|Hx].
  - apply elem_of_union_l, Hx.
  - apply elem_of_union_r, elem_of_union_r, Hx.
Qed.

Lemma subseteq_widen_marked (a b c : gset string) (id : string) :
  a ⊆ ({[ id ]} ∪ b) ∪ c -> a ⊆ b ∪ ({[ id ]} ∪ c).
Proof.
  intros S x Hx. apply S in Hx. apply elem_of_union in Hx as [Hx|Hx].
  - apply elem_of_union in Hx as [Hx|Hx].
    + apply elem_of_union_r, elem_of_union_l, Hx.
    + apply elem_of_union_l, Hx.
  - apply elem_of_union_r, elem_of_union_r, Hx.
Qed.

Lemma subseteq_after_mark (a b : gset string) (id : string) :
  {[ id ]} ∪ a ⊆ b -> a ⊆ b.
Proof. intros S x Hx. apply S, elem_of_union_r, Hx. Qed.

Lemma size_after_mark (a : gset string) (id : string) :
  size ({[ id ]} ∪ a) <= 1 + size a.
Proof.
  rewrite size_union_alt, size_singleton.
  assert (size (a ∖ {[ id ]}) <= size a); [|lia].
  apply subseteq_size. intros x Hx. apply elem_of_difference in Hx as [Hx _]. exact Hx.
Qed.

Section Publish.

Context {X : Type} {externals : Externals X}.

Implicit Types (w : World X) (t : list Event) (c : Call) (msg : message).

Lemma add_to_buffer_fixed_cases msg w :
  exists b w' t,
    add_to_buffer_fixed msg w = (Val b, w') /\
    emitted_between w w' t /\
    total_cost posts t = (if has_url msg then 1 else 0) /\
    (b = true -> has_url msg = true) /\
    processed_messages w'
    = (if b then {[ m_id msg ]} ∪ processed_messages w else processed_messages w) /\
    fs w' = fs w.
Proof.
  unfold add_to_buffer_fixed, try_except, has_url.
  destruct (m_url msg) as [[|ch url]|]; simpl truthy.
  - exists false, w, []. split; [reflexivity|]. split; [apply emitted_refl|].
    repeat split. discriminate.
  - unfold bind, call.
    match goal with
    | |- context [requests_post ?a ?b ?c (ext w)] =>
        destruct (requests_post a b c (ext w)) as [[resp|e] x]
    end; cbn [outcome_of].
    + destruct (Nat.eqb (status_code resp) 200).
      * eexists true, _, [_]. split; [reflexivity|]. split; [reflexivity|].
        repeat split.
      * eexists false, _, [_]. split; [reflexivity|]. split; [reflexivity|].
        repeat split.
    + eexists false, _, [_]. split; [reflexivity|]. split; [reflexivity|].
      repeat split.
  - exists false, w, []. split; [reflexivity|]. split; [apply emitted_refl|].
    repeat split. discriminate.
Qed.

Lemma human_delay_posts lo hi w :
  exists w' t,
    human_delay lo hi w = (Val tt, w') /\
    emitted_between w w' t /\
    total_cost posts t = 0 /\
    processed_messages w' = processed_messages w /\
    fs w' = fs w.
Proof.
  unfold human_delay, sleep_uniform, call_total, call.
  eexists _, [_]. split; [reflexivity|]. split; [reflexivity|]. repeat split.
Qed.

Lemma publish_all_run new_messages : forall processed_count w,
  exists published w' t,
    publish_all new_messages processed_count w
    = (Val (processed_count + published), w') /\
    emitted_between w w' t /\
    total_cost posts t = length (List.filter has_url new_messages) /\
    published <= length (List.filter has_url new_messages) /\
    processed_messages w ⊆ processed_messages w' /\
    processed_messages w' ⊆ processed_messages w ∪ list_to_set (map m_id new_messages) /\
    size (processed_messages w') <= size (processed_messages w) + published /\
    fs w' = fs w.
Proof.
  induction new_messages as [|msg rest IH]; intros n w.
  - exists 0, w, []. rewrite Nat.add_0_r. split; [reflexivity|].
    split; [apply emitted_refl|]. simpl. repeat split; try lia;
      [reflexivity | apply union_subseteq_l].
  - simpl publish_all. unfold bind.
    destruct (add_to_buffer_fixed_cases msg w) as (b & w1 & t1 & -> & T1 & C1 & B1 & P1 & F1).
    destruct (human_delay_posts 3 6 w1) as (w2 & t2 & -> & T2 & C2 & P2 & F2).
    destruct (IH (if b then S n else n) w2)
      as (k & w3 & t3 & -> & T3 & C3 & K3 & S3 & U3 & Z3 & F3).
    exists ((if b then 1 else 0) + k), w3, (t1 ++ t2 ++ t3).
    split; [destruct b; f_equal; f_equal; lia|].
    split; [exact (emitted_trans _ _ _ _ _ T1 (emitted_trans _ _ _ _ _ T2 T3))|].
    rewrite !total_cost_app, C1, C2, C3. simpl List.filter. simpl map.
    rewrite P2, P1 in S3, U3, Z3. clear P1 P2.
    destruct b.
    + rewrite (B1 eq_refl). simpl length.
      split; [lia|]. split; [lia|].
      split; [exact (subseteq_after_mark _ _ _ S3)|].
      split; [exact (subseteq_widen_marked _ _ _ _ U3)|].
      split; [|congruence].
      pose proof (size_after_mark (processed_messages w) (m_id msg)). lia.
    + destruct (has_url msg); simpl length;
        (split; [lia|]); (split; [lia|]); (split; [exact S3|]);
        (split; [exact (subseteq_widen_listed _ _ _ _ U3)|]);
        (split; [lia | congruence]).
Qed.

(** X5. The publish loop of [run_scheduled_check] never raises and sends
    exactly one POST for every message that has a non-empty URL,
    whatever the earlier requests did; the count it returns grows by at
    most that number. *)
Theorem publish_all_attempts_every_url new_messages processed_count w :
  exists published w' t,
    publish_all new_messages processed_count w
    = (Val (processed_count + published), w') /\
    emitted_between w w' t /\
    total_cost posts t = length (List.filter has_url new_messages) /\
    published <= length (List.filter has_url new_messages).
Proof.
  destruct (publish_all_run new_messages processed_count w)
    as (k & w' & t & E & T & C & K & _).
  exists k, w', t. auto.
Qed.

(** X6. The publish loop only adds to the processed set, adds only ids
    of the messages it was given, adds at most as many ids as it counts
    published, and leaves the files alone. *)
Theorem publish_all_marks_only_listed new_messages processed_count w :
  exists published w',
    publish_all new_messages processed_count w
    = (Val (processed_count + published), w') /\
    processed_messages w ⊆ processed_messages w' /\
    processed_messages w' ⊆ processed_messages w ∪ list_to_set (map m_id new_messages) /\
    size (processed_messages w') <= size (processed_messages w) + published /\
    fs w' = fs w.
Proof.
  destruct (publish_all_run new_messages processed_count w)
    as (k & w' & t & E & _ & _ & _ & S & U & Z & F).
  exists k, w'. auto.
Qed.

End Publish.

(** ** The scheduled check as a whole *)

(** [frame], also through local definitions. *)
Ltac frame_let :=
  repeat first
    [ frame_step
    | lazymatch goal with
      | |- respects _ (let _ := _ in _) => cbv zeta
      end ];
  try solve [ split; reflexivity | reflexivity | exact I | eauto with frames ].

Section AnyFrameMore.

Context {X : Type} `{Externals X}.
Context (R : relation (World X)) (P : Call -> Prop) {F : Frame R P}.

Lemma framed_type_chars e s :
  (forall ch, P (CSendKeys e ch)) -> P (CSleep 50 150) ->
  respects R (type_chars e s).
Proof.
  intros Pk Ps. induction s as [|ch rest IH]; simpl type_chars;
    unfold send_keys, sleep_uniform; frame.
Qed.

Lemma framed_scan_message i e ms :
  P (CText e) -> respects R (scan_message i e ms).
Proof. intros Pt. unfold scan_message. frame_let. Qed.

Lemma framed_scan_messages i elems : forall ms,
  (forall e, P (CText e)) -> respects R (scan_messages i elems ms).
Proof.
  induction elems as [|e rest IH]; intros ms Pt; simpl scan_messages; frame.
  apply framed_scan_message, Pt.
Qed.

Lemma framed_scan_conversation i conversation ms :
  (forall e, P (CText e)) -> (forall e, P (CClick e)) ->
  (forall a b, P (CSleep a b)) -> (forall by_ v, P (CFindAll by_ v)) ->
  respects R (scan_conversation i conversation ms).
Proof.
  intros Pt Pc Ps Pf w r w'. unfold scan_conversation.
  destruct ((click conversation ;;; human_delay 2 3 ;;;
             find_elements ByXPath message_xpath) w) as [[elems|ex] w1] eqn:E.
  - assert (R w w1) as R1.
    { revert E. apply respects_at.
      unfold click, human_delay, sleep_uniform, find_elements. frame. }
    destruct (scan_messages i (last3 elems) ms w1) as [[ms1|ex] w2] eqn:S;
      pose proof (framed_scan_messages _ _ _ Pt _ _ _ S) as R2.
    + destruct (human_delay 1 2 w2) as [r3 w3] eqn:D. intros [= _ <-].
      apply (frame_trans R P w w2 w3); [exact (frame_trans R P _ _ _ R1 R2)|].
      revert D. apply respects_at. unfold human_delay, sleep_uniform. frame.
    + intros [= _ <-]. exact (frame_trans R P _ _ _ R1 R2).
  - intros [= _ <-]. revert E. apply respects_at.
    unfold click, human_delay, sleep_uniform, find_elements. frame.
Qed.

Lemma framed_scan_conversations conversations : forall i ms,
  (forall e, P (CText e)) -> (forall e, P (CClick e)) ->
  (forall a b, P (CSleep a b)) -> (forall by_ v, P (CFindAll by_ v)) ->
  respects R (scan_conversations i conversations ms).
Proof.
  induction conversations as [|conversation rest IH]; intros i ms Pt Pc Ps Pf;
    simpl scan_conversations; frame.
  apply framed_scan_conversation; assumption.
Qed.

Lemma framed_get_new_messages :
  (forall e, P (CText e)) -> (forall e, P (CClick e)) ->
  (forall a b, P (CSleep a b)) -> (forall by_ v, P (CFindAll by_ v)) ->
  respects R get_new_messages.
Proof.
  intros Pt Pc Ps Pf. unfold get_new_messages, find_elements. frame.
  apply framed_scan_conversations; assumption.
Qed.

Lemma framed_navigate_to_dms :
  (forall e, P (CClick e)) -> (forall a b, P (CSleep a b)) ->
  (forall n cnd by_ v, P (CWait n cnd by_ v)) ->
  respects R navigate_to_dms.
Proof.
  intros Pc Ps Pw. unfold navigate_to_dms, wait_until, click, human_delay, sleep_uniform.
  frame.
Qed.

Lemma framed_is_logged_in indicators :
  (forall url, P (CGet url)) -> (forall a b, P (CSleep a b)) ->
  (forall n cnd by_ v, P (CWait n cnd by_ v)) -> (forall by_ v, P (CFind by_ v)) ->
  respects R (is_logged_in_with indicators).
Proof.
  intros Pg Ps Pw Pf. unfold is_logged_in_with, driver_get. frame.
  - apply (framed_human_delay R P). exact Ps.
  - apply (framed_probe_indicators R P). intros i. apply Pw.
  - apply (framed_probe_login_page R P). intros i. apply Pf.
Qed.

Lemma framed_login_instagram :
  (forall url, P (CGet url)) -> (forall a b, P (CSleep a b)) ->
  (forall n cnd by_ v, P (CWait n cnd by_ v)) -> (forall by_ v, P (CFind by_ v)) ->
  (forall e, P (CClick e)) -> (forall e, P (CClear e)) ->
  (forall e ch, P (CSendKeys e ch)) ->
  respects R login_instagram.
Proof.
  intros Pg Ps Pw Pf Pc Pl Pk.
  unfold login_instagram, login_attempt, handle_login_challenges, verify_login,
    dismiss_if_present, driver_get, wait_until, find_element, click, clear,
    human_delay, sleep_uniform.
  frame; apply framed_type_chars; auto.
Qed.

End AnyFrameMore.

Section StateBlind.

(** Relations that do not look at the processed set or at the files. *)

Context {X : Type} `{Externals X}.
Context (R : relation (World X)) (P : Call -> Prop) {F : Frame R P}.
Context (blind_processed : forall s w, R w (set_processed_messages s w)).
Context (blind_files : forall f w, R w (set_fs f w)).

Lemma blind_write_file path content :
  P (CWriteFile path) -> respects R (write_file path content).
Proof.
  intros Pw w r w'. unfold write_file. repeat case_bool_decide; intros [= _ <-].
  - exact (frame_call w (ext w) (CWriteFile path, Raised OSError) Pw).
  - apply (frame_trans R P w (set_fs (store path Truncated (fs w)) w)).
    + apply blind_files.
    + exact (frame_call (set_fs _ w) (ext w) (CWriteFile path, Raised OSError) Pw).
  - apply (frame_trans R P w (set_fs (store path content (fs w)) w)).
    + apply blind_files.
    + exact (frame_call (set_fs _ w) (ext w) (CWriteFile path, Ok) Pw).
Qed.

Lemma blind_load_session_info : respects R load_session_info.
Proof.
  intros w r w' E. destruct (load_session_info_cases w) as [(r0 & E0 & _)|(d & _ & _ & E0)];
    rewrite E0 in E; injection E as _ <-.
  - apply (frame_refl R P).
  - apply blind_processed.
Qed.

Lemma blind_load_session :
  (forall a b, P (CSleep a b)) -> (forall k, P (CAddCookie k)) ->
  (forall raw, P (CAddOther raw)) ->
  P (CGet base_url) -> P CRefresh ->
  respects R load_session.
Proof.
  intros Ps Pa Po Pg Pr. unfold load_session. frame.
  - apply blind_load_session_info.
  - apply (framed_load_cookies R P); assumption.
Qed.

Lemma blind_save_session :
  P CGetCookies -> P CNow -> (forall js, P (CExecScript js)) -> P CCurrentUrl ->
  (forall path, P (CWriteFile path)) ->
  respects R save_session.
Proof.
  intros Pc Pn Pe Pu Pw. unfold save_session, execute_script. frame;
    apply blind_write_file; apply Pw.
Qed.

Lemma blind_add_to_buffer_fixed msg :
  (forall url data, P (CHttpPost url data)) ->
  respects R (add_to_buffer_fixed msg).
Proof.
  intros Pp. unfold add_to_buffer_fixed. apply respects_try_except_ret.
  intros w r w'. destruct (m_url msg) as [[|ch url]|].
  - intros [= _ <-]. apply (frame_refl R P).
  - apply respects_at. frame_let.
    intros w0 r0 w1 [= _ <-]. apply blind_processed.
  - intros [= _ <-]. apply (frame_refl R P).
Qed.

Lemma blind_publish_all new_messages : forall processed_count,
  (forall url data, P (CHttpPost url data)) -> (forall a b, P (CSleep a b)) ->
  respects R (publish_all new_messages processed_count).
Proof.
  induction new_messages as [|msg rest IH]; intros n Pp Ps; simpl publish_all; frame.
  - apply blind_add_to_buffer_fixed, Pp.
  - apply (framed_human_delay R P), Ps.
Qed.

End StateBlind.

Section Cleanup.

Context {X : Type} `{Externals X}.

Implicit Types (w : World X) (t : list Event) (c : Call).

Lemma started_app t1 t2 : started (t1 ++ t2) <-> started t1 \/ started t2.
Proof.
  unfold started. split.
  - intros (args & Hin). apply elem_of_app in Hin as [Hin|Hin]; eauto.
  - intros [(args & Hin)|(args & Hin)]; exists args; apply elem_of_app; auto.
Qed.

Lemma no_quit_app t1 t2 : no_quit t1 -> no_quit t2 -> no_quit (t1 ++ t2).
Proof.
  intros N1 N2 o Hin. apply elem_of_app in Hin as [Hin|Hin];
    [exact (N1 o Hin) | exact (N2 o Hin)].
Qed.

Lemma not_started_nil : ~ started [].
Proof. intros (args & Hin). inversion Hin. Qed.

Lemma driver_follows_start_silent w w' :
  trace w' = trace w -> driver w' = driver w -> driver_follows_start w w'.
Proof.
  intros T D. exists []. split; [unfold emitted_between; now rewrite app_nil_r|].
  split; [intros o Hin; inversion Hin|]. rewrite D. split; [auto|].
  intros [E|S]; [exact E | destruct (not_started_nil S)].
Qed.

#[global] Instance driver_follows_start_frame :
  Frame (driver_follows_start (X:=X)) quiet_call.
Proof.
  split; [split|].
  - intros w. apply driver_follows_start_silent; reflexivity.
  - intros w1 w2 w3 (t1 & T1 & N1 & D1) (t2 & T2 & N2 & D2).
    exists (t1 ++ t2). split; [exact (emitted_trans _ _ _ _ _ T1 T2)|].
    split; [exact (no_quit_app _ _ N1 N2)|].
    rewrite D2, D1, started_app. tauto.
  - intros w x [c o] Q. exists [(c, o)]. split; [reflexivity|]. split.
    + intros o' Hin. apply list_elem_of_singleton in Hin. injection Hin as <- _.
      destruct Q.
    + simpl. split; [auto|]. intros [E|(args & Hin)]; [exact E|].
      apply list_elem_of_singleton in Hin. injection Hin as <- _. destruct Q.
Qed.

(** Starting Chrome and storing the driver, then [rest]. *)
Lemma start_then_store args (op : X -> res unit * X) {A} (rest : M (World X) A) :
  respects driver_follows_start rest ->
  respects driver_follows_start
    (call (CStartChrome args) op ;;; (fun w1 => (Val tt, set_driver true w1)) ;;; rest).
Proof.
  intros Hr w r w'. unfold bind at 1, call.
  destruct (op (ext w)) as [[[]|e] x]; cbn [outcome_of].
  - unfold bind at 1. intros E. destruct (Hr _ _ _ E) as (t & T & N & D).
    exists ((CStartChrome args, Ok) :: t). split.
    + unfold emitted_between in *. rewrite T. simpl. rewrite <- app_assoc. reflexivity.
    + split.
      * intros o Hin. apply elem_of_cons in Hin as [Hin|Hin];
          [discriminate Hin | exact (N o Hin)].
      * rewrite D. simpl. split; [|auto]. intros _. right. exists args. left.
  - intros [= _ <-]. exists [(CStartChrome args, Raised e)]. split; [reflexivity|].
    split.
    + intros o Hin. apply list_elem_of_singleton in Hin. discriminate Hin.
    + simpl. split; [auto|]. intros [E|(a & Hin)]; [exact E|].
      apply list_elem_of_singleton in Hin. discriminate Hin.
Qed.

Lemma setup_driver_follows headless use_proxy proxy_address :
  respects driver_follows_start (setup_driver (X:=X) headless use_proxy proxy_address).
Proof.
  unfold setup_driver. intros w0 r0 w1 E. eapply respects_at; [|exact E]. clear E.
  cbv zeta.
  eapply respects_bind; [exact _ | frame | intros _].
  eapply respects_bind; [exact _ | frame | intros viewport].
  apply start_then_store. unfold execute_script. frame.
Qed.

Lemma driver_follows_blind_processed s w :
  driver_follows_start w (set_processed_messages s w).
Proof. apply driver_follows_start_silent; reflexivity. Qed.

Lemma driver_follows_blind_files f w : driver_follows_start w (set_fs f w).
Proof. apply driver_follows_start_silent; reflexivity. Qed.

Lemma smart_login_follows : respects driver_follows_start (smart_login (X:=X)).
Proof.
  unfold smart_login, is_logged_in.
  pose proof driver_follows_blind_processed as Bp.
  pose proof driver_follows_blind_files as Bf.
  frame.
  - apply setup_driver_follows.
  - apply (blind_load_session _ quiet_call Bp); intros; exact I.
  - apply (framed_is_logged_in _ quiet_call); intros; exact I.
  - apply (framed_login_instagram _ quiet_call); intros; exact I.
  - apply (blind_save_session _ quiet_call Bf); intros; exact I.
Qed.

Lemma run_scheduled_check_unfold w :
  run_scheduled_check w =
  try_finally check_attempt
    (fun w1 => if driver w1 then call CQuit drv_quit w1 else (Val tt, w1)) w.
Proof. reflexivity. Qed.

Lemma check_attempt_total : total check_attempt.
Proof. apply total_try_except. intros _. apply total_ret. Qed.

Lemma check_attempt_follows : respects driver_follows_start check_attempt.
Proof.
  unfold check_attempt.
  pose proof driver_follows_blind_processed as Bp.
  pose proof driver_follows_blind_files as Bf.
  apply respects_try_except_ret.
  eapply respects_bind; [exact _ | apply smart_login_follows | intros authenticated].
  destruct authenticated; cbn [negb]; [|frame].
  eapply respects_bind;
    [ exact _
    | apply (framed_navigate_to_dms _ quiet_call); intros; exact I
    | intros in_dms ].
  destruct in_dms; cbn [negb]; [|frame].
  frame.
  - apply (framed_get_new_messages _ quiet_call); intros; exact I.
  - apply (blind_publish_all _ quiet_call Bp); intros; exact I.
  - apply (blind_save_session _ quiet_call Bf); intros; exact I.
Qed.

(** X7. A new bot that runs the scheduled check shuts the browser down
    exactly when Chrome was started during the check, and then
    [driver.quit()] is made once, as the last call. *)
Theorem run_scheduled_check_quits_what_it_started u p tok prof (x : X) (f : FileSystem) :
  exists body,
    no_quit body /\
    ((started body /\
      exists o, emitted_between (new_bot u p tok prof x f)
                  (snd (run_scheduled_check (new_bot u p tok prof x f)))
                  (body ++ [(CQuit, o)])) \/
     (~ started body /\
      emitted_between (new_bot u p tok prof x f)
        (snd (run_scheduled_check (new_bot u p tok prof x f))) body)).
Proof.
  set (w := new_bot u p tok prof x f).
  rewrite run_scheduled_check_unfold. unfold try_finally.
  destruct (check_attempt w) as [r w1] eqn:E.
  destruct (check_attempt_follows _ _ _ E) as (body & T & N & D).
  exists body. split; [exact N|].
  assert (Dw : driver w = false) by reflexivity.
  destruct (driver w1) eqn:D1.
  - left. split.
    + destruct (proj1 D eq_refl) as [Dt|S]; [congruence | exact S].
    + unfold call. destruct (drv_quit (ext w1)) as [[[]|e] x1]; cbn [outcome_of snd].
      * exists Ok. unfold emitted_between in *. simpl. rewrite T. reflexivity.
      * exists (Raised e). unfold emitted_between in *. simpl. rewrite T. reflexivity.
  - right. split.
    + intros S. assert (false = true) as [=]. apply D. right. exact S.
    + exact T.
Qed.

(** X8. Once [smart_login] and [navigate_to_dms] have returned true, the
    scheduled check does not return false, whatever the scan, the
    publish requests and [save_session] do: it returns true, or the
    shutdown of the driver raises. *)
Theorem run_scheduled_check_survives_publishing w w1 w2 :
  smart_login w = (Val true, w1) ->
  navigate_to_dms w1 = (Val true, w2) ->
  fst (run_scheduled_check w) = Val true \/
  exists e, fst (run_scheduled_check w) = Exc e.
Proof.
  intros E1 E2. rewrite run_scheduled_check_unfold. unfold try_finally.
  assert (exists w5, check_attempt w = (Val true, w5)) as (w5 & ->).
  { unfold check_attempt, try_except, bind. rewrite E1. cbn [negb]. rewrite E2. cbn [negb].
    destruct (get_new_messages_scan w2) as (ms & w3 & -> & _).
    destruct (publish_all_run ms 0 w3) as (k & w4 & t & -> & _).
    destruct (save_session_total w4) as (b & w5 & ->). eauto. }
  destruct (driver w5).
  - unfold call. destruct (drv_quit (ext w5)) as [[[]|e] x1]; cbn [fst]; eauto.
  - left. reflexivity.
Qed.

(** X9. The scheduled check returns true only after [smart_login] and
    then [navigate_to_dms] have returned true. *)
Theorem run_scheduled_check_true_needs_login w w' :
  run_scheduled_check w = (Val true, w') ->
  exists w1 w2,
    smart_login w = (Val true, w1) /\ navigate_to_dms w1 = (Val true, w2).
Proof.
  rewrite run_scheduled_check_unfold. unfold try_finally.
  destruct (check_attempt w) as [r w5] eqn:E. intros Q.
  assert (r = Val true) as ->.
  { destruct (driver w5); [|congruence].
    destruct (call CQuit drv_quit w5) as [[[]|e] w6]; congruence. }
  clear Q. revert E. unfold check_attempt, try_except, bind.
  destruct (smart_login_total w) as (a & w1 & ->). destruct a; cbn [negb]; [|discriminate].
  destruct (navigate_to_dms w1) as [[[|]|e] w2] eqn:Nv; cbn [negb]; try discriminate.
  intros _. eauto.
Qed.

End Cleanup.

(** ** What is written, and when *)

Section Written.

Context {X : Type} `{Externals X}.

Implicit Types (w : World X) (t : list Event) (c : Call).

Lemma session_file_not_cookies_file w : session_file w <> cookies_file w.
Proof. unfold session_file, cookies_file. simpl. intros [=]. Qed.

(** X10. [save_session] never raises and opens no file but its two; it
    changes neither the processed set nor which paths can be opened or
    written.  A save that returns false leaves the session file as it
    was, unless the file could be opened and the write itself failed:
    then the old session is lost and the file is left truncated.  (The
    cookie file may already have been replaced in either case.) *)
Theorem save_session_touches_two_files w :
  exists b w',
    save_session w = (Val b, w') /\
    (forall path, path <> cookies_file w -> path <> session_file w ->
                  files (fs w') !! path = files (fs w) !! path) /\
    locked (fs w') = locked (fs w) /\
    unwritable (fs w') = unwritable (fs w) /\
    processed_messages w' = processed_messages w /\
    (b = false ->
     files (fs w') !! session_file w = files (fs w) !! session_file w \/
     (session_file w ∈ unwritable (fs w) /\
      (session_file w ∉ locked (fs w)) /\
      files (fs w') !! session_file w = Some Truncated)).
Proof.
  pose proof (session_file_not_cookies_file w) as Ne.
  assert (Hc : forall content path,
             path <> cookies_file w ->
             <[cookies_file w := content]> (files (fs w)) !! path = files (fs w) !! path)
    by (intros; apply lookup_insert_ne; congruence).
  unfold save_session, try_except, bind, on_driver, execute_script, on_driver.
  destruct (driver w) eqn:D.
  2:{ exists false, w. do 5 (split; [reflexivity|]). intros _. left. reflexivity. }
  unfold call at 1. destruct (drv_get_cookies (ext w)) as [[cookies|e] x1].
  2:{ eexists false, _. do 5 (split; [reflexivity|]). intros _. left. reflexivity. }
  unfold write_file at 1, store. simpl.
  case_bool_decide as L1.
  { eexists false, _. do 5 (split; [reflexivity|]). intros _. left. reflexivity. }
  case_bool_decide as U1.
  { eexists false, _. split; [reflexivity|]. simpl.
    split; [intros path N1 N2; apply Hc, N1|].
    do 3 (split; [reflexivity|]). intros _. left. apply Hc, Ne. }
  unfold call_total, call. simpl.
  destruct (datetime_now x1) as [now x2]. simpl. rewrite D.
  destruct (drv_execute_script "return navigator.userAgent" x2) as [[ua|e] x3]; simpl.
  2:{ eexists false, _. split; [reflexivity|]. simpl.
      split; [intros path N1 N2; apply Hc, N1|].
      do 3 (split; [reflexivity|]). intros _. left. apply Hc, Ne. }
  rewrite D.
  destruct (drv_current_url x3) as [[url|e] x4]; simpl.
  2:{ eexists false, _. split; [reflexivity|]. simpl.
      split; [intros path N1 N2; apply Hc, N1|].
      do 3 (split; [reflexivity|]). intros _. left. apply Hc, Ne. }
  unfold write_file, store. simpl.
  case_bool_decide as L2.
  { eexists false, _. split; [reflexivity|]. simpl.
    split; [intros path N1 N2; apply Hc, N1|].
    do 3 (split; [reflexivity|]). intros _. left. apply Hc, Ne. }
  case_bool_decide as U2.
  - eexists false, _. split; [reflexivity|]. simpl.
    split; [intros path N1 N2; rewrite lookup_insert_ne by congruence; apply Hc, N1|].
    do 3 (split; [reflexivity|]). intros _. right.
    split; [exact U2|]. split; [exact L2 | apply lookup_insert_eq].
  - eexists true, _. split; [reflexivity|]. simpl.
    split; [|do 3 (split; [reflexivity|]); discriminate].
    intros path N1 N2. rewrite lookup_insert_ne by congruence. apply Hc, N1.
Qed.

Lemma grows_blind_processed s w : grows w (set_processed_messages s w).
Proof. exists []. split; [apply (emitted_refl w) | constructor]. Qed.

Lemma grows_blind_files f w : grows w (set_fs f w).
Proof. exists []. split; [apply (emitted_refl w) | constructor]. Qed.

Lemma save_session_grows : respects grows (save_session (X:=X)).
Proof.
  apply (blind_save_session grows (fun _ => True) grows_blind_files); intros; exact I.
Qed.

(** X11. [smart_login] never raises, and the files it leaves differ from
    the ones it found only if the wait for the post-login marker of an
    interactive login returned an element: without a verified login
    nothing is written. *)
Theorem smart_login_writes_only_after_login w :
  exists b w' t,
    smart_login w = (Val b, w') /\
    emitted_between w w' t /\
    (fs w' = fs w \/ (b = true /\ (verification_call, Ok) ∈ t)).
Proof.
  unfold smart_login, try_except. unfold bind at 1.
  destruct (setup_driver true false None w) as [[[]|e] w1] eqn:E1;
    destruct (setup_driver_resuming _ _ _ _ _ _ E1) as [F1 (t1 & T1 & _)].
  2:{ exists false, w1, t1. auto. }
  unfold bind at 1.
  destruct (load_session_total w1) as (s & w2 & E2). rewrite E2.
  destruct (load_session_resuming _ _ _ E2) as [F2 (t2 & T2 & _)].
  unfold bind at 1.
  destruct (is_logged_in_total logged_in_indicators w2) as (li & w3 & E3).
  fold (is_logged_in (X:=X)) in E3. rewrite E3.
  destruct (is_logged_in_resuming _ _ _ _ E3) as [F3 (t3 & T3 & _)].
  pose proof (emitted_trans _ _ _ _ _ T1 (emitted_trans _ _ _ _ _ T2 T3)) as T13.
  destruct li.
  { exists true, w3, (t1 ++ t2 ++ t3). split; [reflexivity|]. split; [exact T13|].
    left. congruence. }
  unfold bind at 1.
  destruct (login_instagram_answer w3) as (ok & w4 & t4 & E4 & T4 & R4 & _).
  rewrite E4. destruct (login_instagram_confined _ _ _ E4) as [F4 _].
  pose proof (emitted_trans _ _ _ _ _ T13 T4) as T14.
  destruct ok.
  - unfold bind.
    destruct (save_session_total w4) as (sv & w5 & E5). rewrite E5.
    destruct (save_session_grows _ _ _ E5) as (t5 & T5 & _).
    exists true, w5, (((t1 ++ t2 ++ t3) ++ t4) ++ t5). split; [reflexivity|].
    split; [exact (emitted_trans _ _ _ _ _ T14 T5)|].
    right. split; [reflexivity|].
    apply elem_of_app. left. apply elem_of_app. right. apply R4. reflexivity.
  - exists false, w4, ((t1 ++ t2 ++ t3) ++ t4). split; [reflexivity|].
    split; [exact T14|]. left. congruence.
Qed.


Lemma cookies_offered_app t1 t2 :
  cookies_offered (t1 ++ t2) = cookies_offered t1 ++ cookies_offered t2.
Proof. apply omap_app. Qed.

Lemma cookies_offered_all t cookies :
  map fst t = map CAddCookie cookies -> cookies_offered t = cookies.
Proof.
  revert cookies. induction t as [|[c o] t IH]; intros [|k cookies]; simpl;
    try discriminate; [reflexivity|].
  intros [= -> E]. change (k :: cookies_offered t = k :: cookies).
  f_equal. apply IH, E.
Qed.

Lemma save_session_writes_cookies w w1 :
  save_session w = (Val true, w1) ->
  exists cookies x,
    drv_get_cookies (ext w) = (Val cookies, x) /\
    files (fs w1) !! cookies_file w = Some (JsonCookies cookies) /\
    cookies_file w ∉ locked (fs w1).
Proof.
  pose proof (session_file_not_cookies_file w) as Ne.
  unfold save_session, try_except, bind, on_driver, execute_script, on_driver.
  destruct (driver w) eqn:D; [|discriminate].
  unfold call at 1. destruct (drv_get_cookies (ext w)) as [[cookies|e] x1];
    [|discriminate].
  unfold write_file at 1. simpl.
  case_bool_decide as L1; [discriminate|].
  case_bool_decide as U1; [discriminate|].
  unfold call_total, call. simpl.
  destruct (datetime_now x1) as [now x2]. simpl. rewrite D.
  destruct (drv_execute_script "return navigator.userAgent" x2) as [[ua|e] x3];
    [|discriminate]. simpl. rewrite D.
  destruct (drv_current_url x3) as [[url|e] x4]; [|discriminate]. simpl.
  unfold write_file. simpl.
  case_bool_decide as L2; [discriminate|].
  case_bool_decide as U2; [discriminate|].
  intros [= <-]. exists cookies, x1. split; [reflexivity|]. simpl.
  split; [|exact L1].
  rewrite lookup_insert_ne by congruence. apply lookup_insert_eq.
Qed.

#[global] Instance keeps_driver_frame : Frame (keeps_driver (X:=X)) (fun _ => True).
Proof.
  split; [split|].
  - intros w. reflexivity.
  - intros w1 w2 w3 E1 E2. unfold keeps_driver in *. congruence.
  - intros w x ev _. reflexivity.
Qed.

Lemma load_session_info_silent w r w' :
  load_session_info w = (r, w') ->
  emitted_between w w' [] /\ fs w' = fs w /\ username w' = username w /\
  driver w' = driver w.
Proof.
  intros E. destruct (load_session_info_cases w) as [(r0 & E0 & _)|(d & _ & _ & E0)];
    rewrite E0 in E; injection E as _ <-;
    (split; [unfold emitted_between; simpl; symmetry; apply app_nil_r
            | repeat split]).
Qed.

Lemma load_cookies_offers w cookies w' :
  files (fs w) !! cookies_file w = Some (JsonCookies cookies) ->
  load_cookies w = (Val true, w') ->
  exists t, emitted_between w w' t /\ cookies_offered t = cookies.
Proof.
  intros Fc. unfold load_cookies, bind at 1, path_exists.
  case_bool_decide as Ex; [|discriminate].
  unfold bind at 1.
  destruct (driver_get base_url w) as [[[]|e] w1] eqn:G; [|discriminate].
  assert (D : driver w = true).
  { unfold driver_get, on_driver in G. destruct (driver w); [reflexivity | discriminate]. }
  assert (G1 : trace w1 = trace w ++ [(CGet base_url, Ok)] /\ fs w1 = fs w /\
               driver w1 = true).
  { unfold driver_get, on_driver, call in G. rewrite D in G.
    destruct (drv_get base_url (ext w)) as [[[]|e] x]; [|discriminate].
    injection G as <-. repeat split. exact D. }
  destruct G1 as (T1 & F1 & D1).
  unfold bind at 1, human_delay, sleep_uniform, call_total, call.
  set (w2 := log_event _ (set_ext _ w1)). cbn [outcome_of].
  unfold bind at 1, read_file.
  assert (F2 : fs w2 = fs w) by exact F1.
  rewrite F2. case_bool_decide as L; [discriminate|]. rewrite Fc.
  unfold bind at 1, json_load, ret. unfold bind at 1, for_each_cookie.
  destruct (inject_cookies_attempts_all cookies w2) as (w3 & t3 & E3 & T3 & C3).
  rewrite E3. specialize (C3 D1).
  unfold bind at 1.
  destruct (on_driver CRefresh drv_refresh w3) as [[[]|e] w4] eqn:Rf; [|discriminate].
  assert (D3 : driver w3 = true).
  { rewrite <- D1.
    exact (framed_inject_cookies keeps_driver (fun _ => True) cookies (fun _ => I) _ _ _ E3). }
  assert (T4 : trace w4 = trace w3 ++ [(CRefresh, Ok)]).
  { unfold on_driver, call in Rf. rewrite D3 in Rf.
    destruct (drv_refresh (ext w3)) as [[[]|e] x]; [|discriminate].
    injection Rf as <-. reflexivity. }
  unfold bind, call. cbn [outcome_of]. intros [= <-].
  exists ([(CGet base_url, Ok)] ++ [(CSleep (1000 * 2) (1000 * 3), Ok)] ++ t3
          ++ [(CRefresh, Ok)] ++ [(CSleep (1000 * 3) (1000 * 5), Ok)]).
  split.
  - unfold emitted_between in *. cbn [trace log_event set_ext].
    rewrite T4, T3. subst w2. cbn [trace log_event set_ext]. rewrite T1.
    rewrite <- !app_assoc. reflexivity.
  - rewrite !cookies_offered_app, (cookies_offered_all _ _ C3). cbn.
    rewrite app_nil_r. reflexivity.
Qed.

(** X13. After a [save_session] that returned true, a [load_session]
    that returns true on the files it left, run by a bot of the same
    user, hands to [add_cookie] exactly the cookies the driver reported
    at the time of the save, in the same order. *)
Theorem save_then_load_offers_saved_cookies w w1 w2 w3 :
  save_session w = (Val true, w1) ->
  fs w2 = fs w1 ->
  username w2 = username w ->
  load_session w2 = (Val true, w3) ->
  exists cookies x t,
    drv_get_cookies (ext w) = (Val cookies, x) /\
    emitted_between w2 w3 t /\
    cookies_offered t = cookies.
Proof.
  intros Sv Fs U Ld.
  destruct (save_session_writes_cookies _ _ Sv) as (cookies & x & G & Fc & _).
  exists cookies, x.
  unfold load_session, try_except, bind in Ld.
  destruct (load_session_info w2) as [[[]|e] w2'] eqn:I; [|discriminate].
  destruct (load_session_info_silent _ _ _ I) as (T0 & F0 & U0 & _).
  destruct (load_cookies w2') as [[b|e] w3'] eqn:C; [|discriminate].
  injection Ld as -> ->.
  assert (Fc' : files (fs w2') !! cookies_file w2' = Some (JsonCookies cookies)).
  { unfold cookies_file. rewrite U0, U, F0, Fs. exact Fc. }
  destruct (load_cookies_offers _ _ _ Fc' C) as (t & T & O).
  exists t. split; [exact G|]. split; [|exact O].
  exact (emitted_trans _ _ _ _ _ T0 T).
Qed.

End Written.

(** * Opening the inbox *)

Section Navigation.

Context {X : Type} `{Externals X}.

Implicit Types (w : World X) (t : list Event) (c : Call).

(** X14. [navigate_to_dms] never raises and touches neither the files
    nor the processed messages.  It returns true exactly when its calls
    were: the wait for the inbox link, a click on the element that wait
    returned, the pause, and a wait for the inbox marker that returned an
    element.  A bot without a driver gets false and no call is made.
    The waits of a run add up to twenty seconds at most. *)
Theorem navigate_to_dms_answer w :
  exists b w' t,
    navigate_to_dms w = (Val b, w') /\
    emitted_between w w' t /\
    (b = true <->
     exists dm_link x,
       drv_wait 10 Clickable ByXPath direct_link_xpath (ext w) = (Val dm_link, x) /\
       t = [(dm_link_wait, Ok); (CClick dm_link, Ok);
            (CSleep (1000 * 3) (1000 * 5), Ok); (dm_marker_wait, Ok)]) /\
    (driver w = false -> b = false /\ t = []) /\
    total_cost wait_seconds t <= 20 /\
    fs w' = fs w /\
    processed_messages w' = processed_messages w.
Proof.
  unfold navigate_to_dms, try_except, bind, wait_until, on_driver, click,
    human_delay, sleep_uniform, call_total, call, try_timeout, ret.
  destruct (driver w) eqn:D.
  2:{ exists false, w, []. split; [reflexivity|]. split; [apply emitted_refl|].
      split; [split; [discriminate | intros (l & x & _ & [=])]|].
      repeat split. simpl. lia. }
  destruct (drv_wait 10 Clickable ByXPath direct_link_xpath (ext w))
    as [[dm_link|e1] x1] eqn:W1; cbn [outcome_of ext set_ext log_event driver].
  2:{ eexists false, _, [(dm_link_wait, Raised e1)]. split; [reflexivity|].
      split; [reflexivity|].
      split; [split; [discriminate | intros (l & x & [=] & _)]|].
      split; [discriminate|]. repeat split. simpl. lia. }
  destruct (elem_click dm_link x1) as [[[]|e2] x2];
    cbn [outcome_of ext set_ext log_event driver].
  2:{ eexists false, _, [(dm_link_wait, Ok); (CClick dm_link, Raised e2)].
      split; [reflexivity|]. split.
      { unfold emitted_between. simpl. rewrite <- ?app_assoc. reflexivity. }
      split; [split; [discriminate | intros (l & x & _ & [=])]|].
      split; [discriminate|]. repeat split. simpl. lia. }
  rewrite D.
  destruct (drv_wait 10 Presence ByXPath dm_marker_xpath (time_sleep (1000 * 3) (1000 * 5) x2))
    as [[marker|e3] x3]; cbn [outcome_of ext set_ext log_event driver].
  - eexists true, _, [(dm_link_wait, Ok); (CClick dm_link, Ok);
                      (CSleep (1000 * 3) (1000 * 5), Ok); (dm_marker_wait, Ok)].
    split; [reflexivity|]. split.
    { unfold emitted_between. simpl. rewrite <- ?app_assoc. reflexivity. }
    split; [split; [intros _; exists dm_link, x1; split; reflexivity | reflexivity]|].
    split; [discriminate|]. repeat split. simpl. lia.
  - exists false.
    assert (Hn : ~ exists l (x : X),
                   (Val dm_link, x1) = (Val l, x) /\
                   [(dm_link_wait, Ok); (CClick dm_link, Ok);
                    (CSleep (1000 * 3) (1000 * 5), Ok); (dm_marker_wait, Raised e3)]
                   = [(dm_link_wait, Ok); (CClick l, Ok);
                      (CSleep (1000 * 3) (1000 * 5), Ok); (dm_marker_wait, Ok)])
      by (intros (l & x & _ & [=])).
    destruct e3;
      (eexists _, [(dm_link_wait, Ok); (CClick dm_link, Ok);
                   (CSleep (1000 * 3) (1000 * 5), Ok); (dm_marker_wait, Raised _)];
       split; [reflexivity|];
       split; [unfold emitted_between; simpl; rewrite <- ?app_assoc; reflexivity|];
       split; [split; [discriminate | intros Q; destruct (Hn Q)]|];
       split; [discriminate|]; repeat split; simpl; lia).
Qed.

End Navigation.

(** * Starting Chrome *)

Section Chrome.

Context {X : Type} `{Externals X}.

Implicit Types (w : World X) (t : list Event) (c : Call).

Lemma flags_among (mid : list string) (headless use_proxy : bool)
    (proxy_address : option string) :
  "--headless" ∉ mid ->
  (forall address, "--proxy-server=" +:+ address ∉ mid) ->
  ("--headless"
     ∈ (if headless then ["--headless"] else []) ++ mid ++
       (if use_proxy && truthy proxy_address
        then ["--proxy-server=" +:+ default EmptyString proxy_address] else [])
   <-> headless = true) /\
  (forall address,
     "--proxy-server=" +:+ address
       ∈ (if headless then ["--headless"] else []) ++ mid ++
         (if use_proxy && truthy proxy_address
          then ["--proxy-server=" +:+ default EmptyString proxy_address] else [])
     <-> use_proxy = true /\ proxy_address = Some address /\ address <> EmptyString).
Proof.
  intros Nh Np. split.
  - rewrite !elem_of_app. split.
    + intros [Hin|[Hin|Hin]].
      * destruct headless; [reflexivity | inversion Hin].
      * destruct (Nh Hin).
      * destruct (use_proxy && truthy proxy_address); [|inversion Hin].
        apply list_elem_of_singleton in Hin. discriminate Hin.
    + intros ->. left. left.
  - intros address. rewrite !elem_of_app. split.
    + intros [Hin|[Hin|Hin]].
      * destruct headless; [|inversion Hin].
        apply list_elem_of_singleton in Hin. discriminate Hin.
      * destruct (Np _ Hin).
      * destruct use_proxy; [|inversion Hin].
        destruct proxy_address as [[|a s]|]; cbn [andb truthy] in Hin; try (inversion Hin; fail).
        apply list_elem_of_singleton in Hin. cbn in Hin. injection Hin as Hin.
        change (address = String a s) in Hin. subst address.
        repeat split. discriminate.
    + intros (-> & -> & N). right. right.
      destruct address as [|a s]; [destruct N; reflexivity|].
      cbn [andb truthy default]. left.
Qed.

Lemma chrome_args_flags headless use_proxy proxy_address dir viewport :
  ("--headless" ∈ chrome_args headless use_proxy proxy_address dir viewport
   <-> headless = true) /\
  (forall address,
     "--proxy-server=" +:+ address
       ∈ chrome_args headless use_proxy proxy_address dir viewport <->
     use_proxy = true /\ proxy_address = Some address /\ address <> EmptyString) /\
  "--user-data-dir=" +:+ dir ∈ chrome_args headless use_proxy proxy_address dir viewport.
Proof.
  unfold chrome_args.
  match goal with
  | |- context [?hd ++ ?mid ++ ?tl] =>
      assert (Nh : "--headless" ∉ mid);
      [| assert (Np : forall address, "--proxy-server=" +:+ address ∉ mid);
         [| destruct (flags_among mid headless use_proxy proxy_address Nh Np) as [F1 F2];
            split; [exact F1 | split; [exact F2|]] ] ]
  end.
  - unfold user_agent_arg. intros Hin.
    repeat (apply elem_of_cons in Hin as [Hin|Hin]; [cbn in Hin; discriminate Hin|]).
    inversion Hin.
  - unfold user_agent_arg. intros address Hin.
    repeat (apply elem_of_cons in Hin as [Hin|Hin]; [cbn in Hin; discriminate Hin|]).
    inversion Hin.
  - apply elem_of_app. right. apply elem_of_app. left. do 7 right. left.
Qed.

Lemma scripts_keep_driver :
  respects keeps_driver
    (execute_script (X:=X) "Object.defineProperty(navigator, 'webdriver', {get: () => undefined})" ;;;
     execute_script "Object.defineProperty(navigator, 'plugins', {get: () => [1, 2, 3, 4, 5]})" ;;;
     execute_script "Object.defineProperty(navigator, 'languages', {get: () => ['en-US', 'en']})" ;;;
     ret tt).
Proof. unfold execute_script. frame. Qed.

Lemma scripts_are_quiet :
  respects (calls_only quiet_call)
    (execute_script (X:=X) "Object.defineProperty(navigator, 'webdriver', {get: () => undefined})" ;;;
     execute_script "Object.defineProperty(navigator, 'plugins', {get: () => [1, 2, 3, 4, 5]})" ;;;
     execute_script "Object.defineProperty(navigator, 'languages', {get: () => ['en-US', 'en']})" ;;;
     ret tt).
Proof. unfold execute_script. frame. Qed.

(** X15. In a run of [setup_driver] Chrome is started at most once, and
    only after the profile directory of the user was created.  Its
    arguments name that directory; they hold [--headless] exactly when
    [headless] is set, and a [--proxy-server] flag exactly when
    [use_proxy] is set and the address is a non-empty string: a proxy
    asked for without an address is dropped silently.  The bot holds a
    driver afterwards exactly when it held one before or the start went
    through. *)
Theorem setup_driver_chrome_arguments headless use_proxy proxy_address w :
  exists t,
    emitted_between w (snd (setup_driver headless use_proxy proxy_address w)) t /\
    (driver (snd (setup_driver headless use_proxy proxy_address w)) = true <->
     driver w = true \/ started t) /\
    forall args o,
      (CStartChrome args, o) ∈ t ->
      (exists rest,
         t = (CMakedirs (user_data_dir w), Ok) :: (CRandomChoice, Ok)
             :: (CStartChrome args, o) :: rest /\
         Forall (fun ev => quiet_call (fst ev)) rest) /\
      ("--headless" ∈ args <-> headless = true) /\
      (forall address,
         "--proxy-server=" +:+ address ∈ args <->
         use_proxy = true /\ proxy_address = Some address /\ address <> EmptyString) /\
      "--user-data-dir=" +:+ user_data_dir w ∈ args.
Proof.
  destruct (setup_driver headless use_proxy proxy_address w) as [r w'] eqn:E.
  cbn [snd]. revert E.
  unfold setup_driver. cbv zeta. fold (user_data_dir w).
  unfold bind at 1, call at 1.
  destruct (os_makedirs (user_data_dir w) (ext w)) as [[[]|e] x1]; cbn [outcome_of].
  2:{ intros [= <- <-].
      exists [(CMakedirs (user_data_dir w), Raised e)]. split; [reflexivity|].
      split.
      - unfold started. simpl. split; [auto|]. intros [D|(a & Hin)]; [exact D|].
        apply list_elem_of_singleton in Hin. discriminate Hin.
      - intros args o Hin. apply list_elem_of_singleton in Hin. discriminate Hin. }
  unfold bind at 1, call_total, call at 1. cbn [ext set_ext log_event].
  destruct (random_choice viewports x1) as [viewport x2]. cbn [outcome_of].
  pose proof (chrome_args_flags headless use_proxy proxy_address (user_data_dir w) viewport)
    as Flags.
  unfold chrome_args in Flags.
  match goal with
  | |- context [CStartChrome ?a] => set (args := a) in *
  end.
  unfold bind at 1, call at 1. cbn [ext set_ext log_event].
  destruct (chrome_start args x2) as [[[]|e] x3]; cbn [outcome_of].
  2:{ intros [= <- <-].
      exists [(CMakedirs (user_data_dir w), Ok); (CRandomChoice, Ok);
              (CStartChrome args, Raised e)].
      split; [unfold emitted_between; simpl; rewrite <- ?app_assoc; reflexivity|].
      split.
      - unfold started. simpl. split; [auto|]. intros [D|(a & Hin)]; [exact D|].
        repeat (apply elem_of_cons in Hin as [Hin|Hin]; [discriminate Hin|]).
        inversion Hin.
      - intros args0 o Hin.
        do 2 (apply elem_of_cons in Hin as [Hin|Hin]; [discriminate Hin|]).
        apply list_elem_of_singleton in Hin. injection Hin as E1 E2. subst args0 o.
        split; [|exact Flags]. exists []. split; [reflexivity | constructor]. }
  unfold bind at 1. intros R.
  destruct (scripts_are_quiet _ _ _ R) as (rest & T & Q).
  pose proof (scripts_keep_driver _ _ _ R) as D.
  exists ([(CMakedirs (user_data_dir w), Ok); (CRandomChoice, Ok);
           (CStartChrome args, Ok)] ++ rest).
  split.
  { unfold emitted_between in *. rewrite T. simpl. rewrite <- ?app_assoc. reflexivity. }
  split.
  - rewrite D. simpl. split; [|reflexivity]. intros _. right. exists args.
    do 2 right. left.
  - intros args0 o Hin. simpl in Hin.
    do 2 (apply elem_of_cons in Hin as [Hin|Hin]; [discriminate Hin|]).
    apply elem_of_cons in Hin as [Hin|Hin].
    + injection Hin as E1 E2. subst args0 o. split; [|exact Flags].
      exists rest. split; [reflexivity | exact Q].
    + rewrite Forall_forall in Q. destruct (Q _ Hin).
Qed.

End Chrome.

(** * The script body, before the browser *)

Section Probe.

Context {X : Type} `{Externals X}.

Implicit Types (w : World X) (config : Config) (x : X) (f : FileSystem)
  (t : list Event).

Lemma test_buffer_connection_run w :
  exists b o,
    test_buffer_connection w
    = (Val b, log_event (CHttpGet user_endpoint, o)
                (set_ext (after_probe_request (buffer_token w) (ext w)) w)) /\
    (b = true <-> buffer_answers_200 (buffer_token w) (ext w)) /\
    (b = true -> o = Ok).
Proof.
  unfold test_buffer_connection, try_except, bind, call, buffer_answers_200,
    after_probe_request.
  cbv zeta.
  destruct (requests_get user_endpoint [("Authorization", bearer (buffer_token w))] (ext w))
    as [[response|e] x1]; cbn [outcome_of snd].
  - destruct (Nat.eqb (status_code response) 200) eqn:S.
    + exists true, Ok. split; [reflexivity|]. split; [|reflexivity].
      split; [|reflexivity]. intros _. exists response, x1.
      split; [reflexivity | apply Nat.eqb_eq, S].
    + exists false, Ok. split; [reflexivity|]. split; [|discriminate].
      split; [discriminate|]. intros (r & x2 & [= <- <-] & S2).
      apply Nat.eqb_neq in S. destruct (S S2).
  - exists false, (Raised e). split; [reflexivity|]. split; [|discriminate].
    split; [discriminate | intros (r & x2 & [=] & _)].
Qed.

Lemma run_scheduled_check_emits w :
  exists t, emitted_between w (snd (run_scheduled_check w)) t.
Proof.
  rewrite run_scheduled_check_unfold. unfold try_finally.
  destruct (check_attempt w) as [r w1] eqn:E.
  destruct (check_attempt_follows _ _ _ E) as (body & T & _).
  destruct (driver w1).
  - unfold call. destruct (drv_quit (ext w1)) as [[[]|e] x1]; cbn [outcome_of snd];
      eexists (body ++ [_]); unfold emitted_between in *; simpl; rewrite T;
      rewrite <- app_assoc; reflexivity.
  - exists body. exact T.
Qed.

(** X16. A run of the script that finds one of the four variables unset
    or empty exits with status 1 before the bot makes any call: no
    request is sent, no browser is started, and the files the bot keeps
    (its cookie file and its session file among them) are as they were.
    Every other run begins with the GET request of the Buffer probe;
    unless that request is answered with status 200, it is the only call
    of the run, the files the bot keeps are as they were, the browser is
    never started and the process exits with status 1.  (The lines that
    the [logging] module appends to [instagram_bot.log] in every run are
    not among the calls and files of the model.) *)
Theorem main_probes_buffer_first config x f :
  (missing_vars config <> [] /\ main config x f = (SysExit 1, ([], x, f))) \/
  (missing_vars config = [] /\
   ((buffer_answers_200 (default EmptyString (cfg_buffer_token config)) x /\
     exists rest, calls_of (main config x f) = (CHttpGet user_endpoint, Ok) :: rest) \/
    (~ buffer_answers_200 (default EmptyString (cfg_buffer_token config)) x /\
     exists o,
       main config x f
       = (SysExit 1,
          ([(CHttpGet user_endpoint, o)],
           after_probe_request (default EmptyString (cfg_buffer_token config)) x,
           f))))).
Proof.
  unfold main, calls_of. destruct (missing_vars config) as [|v vs].
  2:{ left. split; [discriminate | reflexivity]. }
  right. split; [reflexivity|].
  destruct (test_buffer_connection_run (bot_of_config config x f)) as (b & o & -> & B & O).
  change (buffer_token (bot_of_config config x f))
    with (default EmptyString (cfg_buffer_token config)) in *.
  change (ext (bot_of_config config x f)) with x in *.
  destruct b.
  - left. split; [apply B; reflexivity|]. rewrite (O eq_refl).
    match goal with
    | |- context [run_scheduled_check ?w1] =>
        destruct (run_scheduled_check_emits w1) as (t & T);
        destruct (run_scheduled_check w1) as [[[|]|e] w2]
    end; cbn [snd fst] in *; exists t; rewrite T; reflexivity.
  - right. split.
    + intros Q. apply B in Q. discriminate Q.
    + exists o. reflexivity.
Qed.

End Probe.

(** * The URL pattern, proved *)

Module ReFacts.

Import Re.

Lemma append_cons (x : ascii) (a b : string) : String x a +:+ b = String x (a +:+ b).
Proof. reflexivity. Qed.

Lemma append_nil_l (b : string) : EmptyString +:+ b = b.
Proof. reflexivity. Qed.

Ltac unroll := rewrite ?append_cons, ?append_nil_l in *.

Lemma append_assoc (a b c : string) : (a +:+ b) +:+ c = a +:+ (b +:+ c).
Proof. induction a as [|x a IH]; unroll; [reflexivity | now rewrite IH]. Qed.

Lemma append_nil_r (a : string) : a +:+ EmptyString = a.
Proof. induction a as [|x a IH]; unroll; [reflexivity | now rewrite IH]. Qed.

Lemma length_append (a b : string) :
  String.length (a +:+ b) = String.length a + String.length b.
Proof. induction a as [|x a IH]; unroll; simpl; [reflexivity | now rewrite IH]. Qed.

Lemma strip_sound l : forall s rest, strip l s = Some rest -> s = l +:+ rest.
Proof.
  induction l as [|a l IH]; intros s rest; simpl; unroll.
  - intros [= ->]. reflexivity.
  - destruct s as [|b s]; [discriminate|].
    destruct (Ascii.eqb a b) eqn:E; [|discriminate].
    apply Ascii.eqb_eq in E as ->. intros S. now rewrite (IH _ _ S).
Qed.

Lemma strip_append l : forall rest, strip l (l +:+ rest) = Some rest.
Proof.
  induction l as [|a l IH]; intros rest; unroll; simpl; [reflexivity|].
  now rewrite Ascii.eqb_refl.
Qed.

Lemma plus_cons p c s k :
  plus p (String c s) k
  = if p c
    then match plus p s k with
         | Some a => Some (String c a)
         | None => option_map (String c) (k s)
         end
    else None.
Proof. reflexivity. Qed.

Lemma plus_sound p : forall s k a,
  plus p s k = Some a ->
  exists c m rest b,
    s = String c m +:+ rest /\ p c = true /\ all_in p m = true /\
    k rest = Some b /\ a = String c m +:+ b.
Proof.
  induction s as [|c s IH]; intros k a; simpl; [discriminate|].
  destruct (p c) eqn:Pc; [|discriminate].
  destruct (plus p s k) as [a'|] eqn:E.
  - intros [= <-]. destruct (IH _ _ E) as (c' & m & rest & b & -> & Pc' & Pm & K & ->).
    exists c, (String c' m), rest, b. simpl. rewrite Pc', Pm. auto.
  - destruct (k s) as [b|] eqn:K; [|discriminate]. intros [= <-].
    exists c, EmptyString, s, b. auto.
Qed.

Lemma plus_complete p : forall m c rest k b,
  p c = true -> all_in p m = true -> k rest = Some b ->
  exists a, plus p (String c m +:+ rest) k = Some a.
Proof.
  induction m as [|c' m IH]; intros c rest k b Pc Pm K; unroll;
    rewrite plus_cons, Pc.
  - destruct (plus p rest k); [eauto|]. rewrite K. simpl. eauto.
  - simpl in Pm. apply andb_prop in Pm as [Pc' Pm].
    destruct (IH c' rest k b Pc' Pm K) as (a & E). unroll. rewrite E. eauto.
Qed.

Lemma run_sound r : forall s k a,
  run r s k = Some a ->
  exists m rest b,
    s = m +:+ rest /\ matches r m /\ k rest = Some b /\ a = m +:+ b.
Proof.
  induction r as [l|r1 IH1 r2 IH2|r1 IH1 r2 IH2|r1 IH1|p]; intros s k a; simpl.
  - destruct (strip l s) as [rest|] eqn:S; [|discriminate].
    destruct (k rest) as [b|] eqn:K; [|discriminate]. intros [= <-].
    exists l, rest, b. rewrite (strip_sound _ _ _ S). auto using matches.
  - intros E. destruct (IH1 _ _ _ E) as (m1 & rest1 & b1 & -> & M1 & K1 & ->).
    destruct (IH2 _ _ _ K1) as (m2 & rest & b & -> & M2 & K & ->).
    exists (m1 +:+ m2), rest, b. rewrite !append_assoc. auto using matches.
  - destruct (run r1 s k) as [a1|] eqn:E1.
    + intros [= <-]. destruct (IH1 _ _ _ E1) as (m & rest & b & -> & M & K & ->).
      exists m, rest, b. auto using matches.
    + intros E2. destruct (IH2 _ _ _ E2) as (m & rest & b & -> & M & K & ->).
      exists m, rest, b. auto using matches.
  - destruct (run r1 s k) as [a1|] eqn:E1.
    + intros [= <-]. destruct (IH1 _ _ _ E1) as (m & rest & b & -> & M & K & ->).
      exists m, rest, b. auto using matches.
    + intros K. exists EmptyString, s, a. auto using matches.
  - intros E. destruct (plus_sound _ _ _ _ E) as (c & m & rest & b & -> & Pc & Pm & K & ->).
    exists (String c m), rest, b. auto using matches.
Qed.

Lemma run_complete r m :
  matches r m ->
  forall rest k b, k rest = Some b -> exists a, run r (m +:+ rest) k = Some a.
Proof.
  induction 1 as [l|r1 r2 s1 s2 _ IH1 _ IH2|r1 r2 s _ IH|r1 r2 s _ IH|r s _ IH|r|p c s Pc Ps];
    intros rest k b K; cbn [run].
  - rewrite strip_append, K. simpl. eauto.
  - rewrite append_assoc. destruct (IH2 _ _ _ K) as (a2 & E2).
    exact (IH1 _ (fun s1 => run r2 s1 k) _ E2).
  - destruct (IH _ _ _ K) as (a & ->). eauto.
  - destruct (run r1 (s +:+ rest) k); [eauto|]. exact (IH _ _ _ K).
  - destruct (IH _ _ _ K) as (a & ->). eauto.
  - unroll. destruct (run r rest k); eauto.
  - exact (plus_complete p s c rest k b Pc Ps K).
Qed.

Lemma match_at_sound r s u :
  match_at r s = Some u -> exists post, s = u +:+ post /\ matches r u.
Proof.
  intros E. destruct (run_sound _ _ _ _ E) as (m & rest & b & -> & M & [= <-] & ->).
  exists rest. now rewrite append_nil_r.
Qed.

Lemma match_at_complete r u post :
  matches r u -> exists u', match_at r (u +:+ post) = Some u'.
Proof. intros M. exact (run_complete r u M post _ EmptyString eq_refl). Qed.

Lemma search_sound r : forall txt u,
  search r txt = Some u ->
  exists pre post,
    occurs_at pre u post txt /\ matches r u /\
    forall pre' u' post',
      occurs_at pre' u' post' txt -> matches r u' ->
      String.length pre <= String.length pre'.
Proof.
  unfold occurs_at.
  induction txt as [|c txt IH]; intros u; simpl.
  - destruct (match_at r EmptyString) as [u0|] eqn:E; [|discriminate].
    intros [= <-]. destruct (match_at_sound _ _ _ E) as (post & S & M).
    exists EmptyString, post. split; [exact S|]. split; [exact M|]. simpl. lia.
  - destruct (match_at r (String c txt)) as [u0|] eqn:E.
    + intros [= <-]. destruct (match_at_sound _ _ _ E) as (post & S & M).
      exists EmptyString, post. split; [exact S|]. split; [exact M|]. simpl. lia.
    + intros S. destruct (IH _ S) as (pre & post & -> & M & L).
      exists (String c pre), post. split; [reflexivity|]. split; [exact M|].
      intros [|c' pre'] u' post' O M'.
      * unroll. destruct (match_at_complete r u' post' M') as (u2 & E2).
        rewrite <- O in E2. congruence.
      * unroll. injection O as _ O. simpl. apply le_n_S. exact (L _ _ _ O M').
Qed.

Lemma search_none r : forall txt,
  search r txt = None <->
  forall pre u post, occurs_at pre u post txt -> ~ matches r u.
Proof.
  unfold occurs_at. induction txt as [|c txt IH]; simpl.
  - destruct (match_at r EmptyString) as [u0|] eqn:E.
    + split; [discriminate|]. intros N.
      destruct (match_at_sound _ _ _ E) as (post & S & M).
      destruct (N EmptyString u0 post S M).
    + split; [|reflexivity]. intros _ pre u post O M.
      destruct pre; [|discriminate O]. unroll.
      destruct (match_at_complete r u post M) as (u2 & E2).
      rewrite <- O in E2. congruence.
  - destruct (match_at r (String c txt)) as [u0|] eqn:E.
    + split; [discriminate|]. intros N.
      destruct (match_at_sound _ _ _ E) as (post & S & M).
      destruct (N EmptyString u0 post S M).
    + rewrite IH. split.
      * intros N [|c' pre] u post O M.
        -- unroll. destruct (match_at_complete r u post M) as (u2 & E2).
           rewrite <- O in E2. congruence.
        -- unroll. injection O as _ O. exact (N _ _ _ O M).
      * intros N pre u post O. apply (N (String c pre) u post). unroll. now rewrite O.
Qed.

Lemma matches_lit_inv l u : matches (Lit l) u -> u = l.
Proof. inversion 1. reflexivity. Qed.

Lemma matches_cat_inv r1 r2 u :
  matches (Cat r1 r2) u -> exists s1 s2, u = s1 +:+ s2 /\ matches r1 s1 /\ matches r2 s2.
Proof. inversion 1; subst. eauto. Qed.

Lemma matches_opt_lit_inv l u : matches (Opt (Lit l)) u -> u = EmptyString \/ u = l.
Proof. inversion 1 as [| | | |r s M|r|]; subst; [right; exact (matches_lit_inv _ _ M) | left; reflexivity]. Qed.

Lemma matches_alt_lit_inv l1 l2 u : matches (Alt (Lit l1) (Lit l2)) u -> u = l1 \/ u = l2.
Proof.
  inversion 1 as [| |r1 r2 s M|r1 r2 s M| | |]; subst;
    [left | right]; exact (matches_lit_inv _ _ M).
Qed.

Lemma matches_plus_inv p u :
  matches (Plus p) u -> u <> EmptyString /\ all_in p u = true.
Proof.
  inversion 1 as [| | | | | |p' c s Pc Ps]; subst. split; [discriminate|].
  simpl. now rewrite Pc, Ps.
Qed.

(** The pattern stands for the URLs of the form [instagram_url]. *)
Lemma matches_url_pattern u : matches url_pattern u <-> instagram_url u.
Proof.
  unfold url_pattern, instagram_url. split.
  - intros M.
    apply matches_cat_inv in M as (a1 & u1 & -> & M1 & M).
    apply matches_cat_inv in M as (a2 & u2 & -> & M2 & M).
    apply matches_cat_inv in M as (a3 & u3 & -> & M3 & M).
    apply matches_cat_inv in M as (a4 & u4 & -> & M4 & M).
    apply matches_cat_inv in M as (a5 & u5 & -> & M5 & M).
    apply matches_cat_inv in M as (a6 & u6 & -> & M6 & M).
    apply matches_cat_inv in M as (a7 & u7 & -> & M7 & M).
    apply matches_cat_inv in M as (a8 & a9 & -> & M8 & M9).
    apply matches_lit_inv in M1 as ->. apply matches_lit_inv in M3 as ->.
    apply matches_lit_inv in M5 as ->. apply matches_lit_inv in M7 as ->.
    apply matches_plus_inv in M8 as [N8 A8].
    exists a2, a4, a6, a8, a9. split; [reflexivity|].
    split; [exact (matches_opt_lit_inv _ _ M2)|].
    split; [exact (matches_opt_lit_inv _ _ M4)|].
    split; [exact (matches_alt_lit_inv _ _ _ M6)|].
    split; [exact N8|]. split; [exact A8|]. exact (matches_opt_lit_inv _ _ M9).
  - intros (s & www & kind & code & slash & -> & Hs & Hw & Hk & Nc & Ac & Hsl).
    apply matches_cat; [apply matches_lit|].
    apply matches_cat;
      [destruct Hs as [->| ->]; [apply matches_opt_none | apply matches_opt_some, matches_lit]|].
    apply matches_cat; [apply matches_lit|].
    apply matches_cat;
      [destruct Hw as [->| ->]; [apply matches_opt_none | apply matches_opt_some, matches_lit]|].
    apply matches_cat; [apply matches_lit|].
    apply matches_cat;
      [destruct Hk as [->| ->]; [apply matches_alt_l | apply matches_alt_r]; apply matches_lit|].
    apply matches_cat; [apply matches_lit|].
    apply matches_cat.
    + destruct code as [|c code]; [destruct Nc; reflexivity|].
      simpl in Ac. apply andb_prop in Ac as [Pc Ac]. now apply matches_plus.
    + destruct Hsl as [->| ->]; [apply matches_opt_none | apply matches_opt_some, matches_lit].
Qed.

Lemma plus_all p : forall code rest k b,
  code <> EmptyString -> all_in p code = true ->
  plus p rest k = None -> k rest = Some b ->
  plus p (code +:+ rest) k = Some (code +:+ b).
Proof.
  induction code as [|c code IH]; intros rest k b N A E K; [destruct N; reflexivity|].
  simpl in A. apply andb_prop in A as [Pc A]. unroll. rewrite plus_cons, Pc.
  destruct code as [|c' code].
  - unroll. rewrite E, K. reflexivity.
  - rewrite (IH rest k b); [reflexivity | discriminate | exact A | exact E | exact K].
Qed.

(** Matched against a URL of that form, the pattern takes all of it. *)
Lemma match_at_instagram_url u : instagram_url u -> match_at url_pattern u = Some u.
Proof.
  intros (s & www & kind & code & slash & -> & Hs & Hw & Hk & Nc & Ac & Hsl).
  assert (P : forall k b rest,
             plus code_char rest k = None -> k rest = Some b ->
             plus code_char (code +:+ rest) k = Some (code +:+ b))
    by (intros; now apply plus_all).
  unfold match_at, url_pattern.
  destruct Hs as [->| ->], Hw as [->| ->], Hk as [->| ->], Hsl as [->| ->];
    unroll; cbn [run strip Ascii.eqb Bool.eqb option_map];
    (erewrite P; [| reflexivity | reflexivity]);
    cbn [option_map]; unroll; rewrite ?append_nil_r; reflexivity.
Qed.

Lemma search_match_at r text u : match_at r text = Some u -> search r text = Some u.
Proof. intros E. destruct text; simpl; now rewrite E. Qed.

(** X17. When [extract_instagram_url] finds a URL in a text, the URL
    is a piece of the text, it has the form
    [http(s)://(www.)instagram.com/(p|reel)/code(/)] with a non-empty
    code of letters, digits, [_] and [-], and no piece of the text that
    starts further to the left has that form. *)
Theorem extract_instagram_url_sound text url :
  extract_instagram_url text = Some url ->
  exists pre post,
    occurs_at pre url post text /\
    instagram_url url /\
    forall pre' url' post',
      occurs_at pre' url' post' text -> instagram_url url' ->
      String.length pre <= String.length pre'.
Proof.
  intros E. destruct (search_sound _ _ _ E) as (pre & post & O & M & L).
  exists pre, post. split; [exact O|]. split; [apply matches_url_pattern, M|].
  intros pre' url' post' O' U'. apply (L pre' url' post' O').
  apply matches_url_pattern, U'.
Qed.

(** X18. [extract_instagram_url] returns [None] exactly when no piece of
    the text has the form of an Instagram post or reel URL. *)
Theorem extract_instagram_url_none_iff text :
  extract_instagram_url text = None <->
  forall pre url post, occurs_at pre url post text -> ~ instagram_url url.
Proof.
  unfold extract_instagram_url. rewrite search_none. split.
  - intros N pre url post O U. apply (N pre url post O). apply matches_url_pattern, U.
  - intros N pre url post O M. apply (N pre url post O). apply matches_url_pattern, M.
Qed.

(** X19. A URL that [extract_instagram_url] found is found again, whole,
    when the function is given the URL itself. *)
Theorem extract_instagram_url_idempotent text url :
  extract_instagram_url text = Some url ->
  extract_instagram_url url = Some url.
Proof.
  intros E. destruct (search_sound _ _ _ E) as (_ & _ & _ & M & _).
  apply search_match_at, match_at_instagram_url, matches_url_pattern, M.
Qed.

End ReFacts.

(** * The URLs of the reported messages *)

Section Links.

Context {X : Type} `{Externals X}.

Implicit Types (w : World X) (m : message).

(** [re.search] with the URL pattern is the search of [Re]. *)
Hypothesis url_search : forall text, re_search_url text = Re.search Re.url_pattern text.

Lemma instagram_url_truthy u : Re.instagram_url u -> truthy (Some u) = true.
Proof.
  intros (s & www & kind & code & slash & -> & _). reflexivity.
Qed.

Lemma extract_instagram_url_of_text text :
  url_of_text text (extract_instagram_url text).
Proof.
  unfold extract_instagram_url, url_of_text. rewrite url_search.
  destruct (Re.search Re.url_pattern text) as [u|] eqn:E.
  - destruct (ReFacts.search_sound _ _ _ E) as (pre & post & O & M & _).
    apply ReFacts.matches_url_pattern in M.
    split; [exact M|]. split; [exact (instagram_url_truthy _ M)|]. eauto.
  - intros pre u post O U.
    apply (proj1 (ReFacts.search_none Re.url_pattern text) E pre u post O).
    apply ReFacts.matches_url_pattern, U.
Qed.

(** X20. With the URL pattern of the source, every message that
    [get_new_messages] reports with a URL carries a piece of its own
    text that has the form of an Instagram post or reel URL, and
    [add_to_buffer_fixed] will send a request for it; a message reported
    without URL has no such piece in its text: it passed the test on
    'instagram.com' or 'reel' and will never be published. *)
Theorem get_new_messages_urls w :
  exists ms w',
    get_new_messages w = (Val ms, w') /\
    Forall (fun m => mentions_instagram (m_content m) = true /\
                     url_of_text (m_content m) (m_url m)) ms.
Proof.
  destruct (get_new_messages_scan w) as (ms & w' & E & _ & N & _).
  exists ms, w'. split; [exact E|].
  eapply Forall_impl; [exact N|]. intros m (_ & Mi & U). split; [exact Mi|].
  rewrite U. apply extract_instagram_url_of_text.
Qed.

End Links.

(** * The cost of one scheduled check *)

Section WholeRun.

Context {X : Type} `{Externals X}.

Implicit Types (w : World X) (t : list Event) (c : Call).

Lemma free_costs cost w w' : calls_only (free cost) w w' -> costs cost 0 w w'.
Proof.
  intros (t & T & A). exists t. split; [exact T|]. clear T.
  induction A as [|ev t Pev _ IH]; simpl; [lia|]. rewrite Pev. exact IH.
Qed.

Lemma free_respects cost {A} (m : M (World X) A) :
  respects (calls_only (free cost)) m -> respects (costs cost 0) m.
Proof. intros Hm w r w' E. apply free_costs. exact (Hm _ _ _ E). Qed.

Lemma calls_only_silent P w w' : trace w' = trace w -> calls_only P w w'.
Proof.
  intros T. exists []. split; [unfold emitted_between; now rewrite app_nil_r | constructor].
Qed.

Section Blind.

Context (R : relation (World X)) (P : Call -> Prop) {F : Frame R P}.
Context (blind_driver : forall w, R w (set_driver true w)).

Lemma blind_setup_driver headless use_proxy proxy_address :
  (forall path, P (CMakedirs path)) -> P CRandomChoice ->
  (forall args, P (CStartChrome args)) -> (forall js, P (CExecScript js)) ->
  respects R (setup_driver headless use_proxy proxy_address).
Proof.
  intros Pm Pr Ps Pe. unfold setup_driver.
  intros w0 r0 w1 E. eapply respects_at; [|exact E]. clear E. cbv zeta.
  eapply respects_bind; [exact _ | frame | intros _].
  eapply respects_bind; [exact _ | frame | intros viewport].
  eapply respects_bind; [exact _ | frame | intros _].
  eapply respects_bind;
    [exact _ | intros w r w' [= _ <-]; apply blind_driver | intros _].
  unfold execute_script. frame.
Qed.

End Blind.

(** The functions that neither wait nor post. *)
Section Free.

Context (cost : Call -> nat).
Context (free_makedirs : forall path, cost (CMakedirs path) = 0).
Context (free_choice : cost CRandomChoice = 0).
Context (free_start : forall args, cost (CStartChrome args) = 0).
Context (free_script : forall js, cost (CExecScript js) = 0).
Context (free_sleep : forall a b, cost (CSleep a b) = 0).
Context (free_add_cookie : forall k, cost (CAddCookie k) = 0).
Context (free_add_other : forall raw, cost (CAddOther raw) = 0).
Context (free_get : forall url, cost (CGet url) = 0).
Context (free_refresh : cost CRefresh = 0).
Context (free_get_cookies : cost CGetCookies = 0).
Context (free_now : cost CNow = 0).
Context (free_current_url : cost CCurrentUrl = 0).
Context (free_write : forall path, cost (CWriteFile path) = 0).
Context (free_text : forall e, cost (CText e) = 0).
Context (free_click : forall e, cost (CClick e) = 0).
Context (free_find_all : forall by_ v, cost (CFindAll by_ v) = 0).

Lemma setup_driver_free headless use_proxy proxy_address :
  respects (costs cost 0) (setup_driver (X:=X) headless use_proxy proxy_address).
Proof.
  apply free_respects.
  apply (blind_setup_driver (calls_only (free cost)) (free cost));
    [intros w; apply calls_only_silent; reflexivity | | | |]; assumption.
Qed.

Lemma load_session_free : respects (costs cost 0) (load_session (X:=X)).
Proof.
  apply free_respects.
  apply (blind_load_session (calls_only (free cost)) (free cost));
    [intros s w; apply calls_only_silent; reflexivity | | | | |];
    first [assumption | apply free_get].
Qed.

Lemma save_session_free : respects (costs cost 0) (save_session (X:=X)).
Proof.
  apply free_respects.
  apply (blind_save_session (calls_only (free cost)) (free cost));
    [intros f w; apply calls_only_silent; reflexivity | | | | |]; assumption.
Qed.

Lemma get_new_messages_free : respects (costs cost 0) (get_new_messages (X:=X)).
Proof.
  apply free_respects.
  apply (framed_get_new_messages (calls_only (free cost)) (free cost)); assumption.
Qed.

End Free.

Lemma costs_try_finally cost a b {A} (m : M (World X) A) (f : M (World X) unit) :
  respects (costs cost a) m ->
  respects (costs cost b) f ->
  respects (costs cost (a + b)) (try_finally m f).
Proof.
  intros Hm Hf w r w'. unfold try_finally.
  destruct (m w) as [r1 w1] eqn:E1. destruct (f w1) as [[[]|e] w2] eqn:E2;
    intros [= _ <-];
    exact (costs_trans _ _ _ _ _ _ (Hm _ _ _ E1) (Hf _ _ _ E2)).
Qed.

Lemma quit_if_started_free cost :
  cost CQuit = 0 ->
  respects (costs cost 0)
    (fun w : World X => if driver w then call CQuit drv_quit w else (Val tt, w)).
Proof.
  intros Free w r w'. destruct (driver w).
  - apply costs_call. rewrite Free. lia.
  - intros [= _ <-]. apply costs_refl.
Qed.

(** ** Waits *)

Lemma smart_login_waits : respects (costs wait_seconds 60) (smart_login (X:=X)).
Proof.
  unfold smart_login, is_logged_in.
  eapply costs_le.
  - cost;
      [ apply setup_driver_free; intros; reflexivity
      | apply load_session_free; intros; reflexivity
      | apply is_logged_in_waits
      | apply login_instagram_waits
      | apply save_session_free; intros; reflexivity ].
  - unfold logged_in_indicators. cbn [length]. lia.
Qed.

Lemma navigate_to_dms_waits : respects (costs wait_seconds 20) (navigate_to_dms (X:=X)).
Proof.
  unfold navigate_to_dms, wait_until, click, human_delay, sleep_uniform.
  eapply costs_le; [cost | lia].
Qed.

Lemma publish_all_waits new_messages processed_count :
  respects (costs wait_seconds 0) (publish_all (X:=X) new_messages processed_count).
Proof.
  apply free_respects.
  apply (blind_publish_all (calls_only (free wait_seconds)) (free wait_seconds));
    [intros s w; apply calls_only_silent; reflexivity | |]; intros; reflexivity.
Qed.

Lemma check_attempt_waits : respects (costs wait_seconds 80) (check_attempt (X:=X)).
Proof.
  unfold check_attempt.
  eapply costs_le.
  - cost;
      [ apply smart_login_waits
      | apply navigate_to_dms_waits
      | apply get_new_messages_free; intros; reflexivity
      | apply publish_all_waits
      | apply save_session_free; intros; reflexivity ].
  - lia.
Qed.

(** ** Publish requests *)

Lemma smart_login_posts : respects (costs posts 0) (smart_login (X:=X)).
Proof.
  unfold smart_login, is_logged_in.
  eapply costs_le.
  - cost;
      [ apply setup_driver_free; intros; reflexivity
      | apply load_session_free; intros; reflexivity
      | apply free_respects;
        apply (framed_is_logged_in (calls_only (free posts)) (free posts));
        intros; reflexivity
      | apply free_respects;
        apply (framed_login_instagram (calls_only (free posts)) (free posts));
        intros; reflexivity
      | apply save_session_free; intros; reflexivity ].
  - lia.
Qed.

Lemma navigate_to_dms_posts : respects (costs posts 0) (navigate_to_dms (X:=X)).
Proof.
  apply free_respects.
  apply (framed_navigate_to_dms (calls_only (free posts)) (free posts));
    intros; reflexivity.
Qed.

Lemma check_attempt_posts : respects (costs posts 15) (check_attempt (X:=X)).
Proof.
  intros w r w'. unfold check_attempt, try_except, bind.
  destruct (smart_login w) as [[a|e] w1] eqn:E1;
    pose proof (smart_login_posts _ _ _ E1) as C1.
  2:{ intros [= _ <-]. apply (costs_weaken posts 0); [lia | exact C1]. }
  destruct a; cbn [negb].
  2:{ intros [= _ <-]. apply (costs_weaken posts 0); [lia | exact C1]. }
  destruct (navigate_to_dms w1) as [[b|e] w2] eqn:E2;
    pose proof (navigate_to_dms_posts _ _ _ E2) as C2;
    pose proof (costs_trans _ _ _ _ _ _ C1 C2) as C12.
  2:{ intros [= _ <-]. apply (costs_weaken posts (0 + 0)); [lia | exact C12]. }
  destruct b; cbn [negb].
  2:{ intros [= _ <-]. apply (costs_weaken posts (0 + 0)); [lia | exact C12]. }
  destruct (get_new_messages_scan w2) as (ms & w3 & E3 & L & _). rewrite E3.
  assert (C3 : costs posts 0 w2 w3).
  { revert E3. apply respects_at. apply get_new_messages_free; intros; reflexivity. }
  destruct (publish_all_run ms 0 w3) as (k & w4 & t & E4 & T4 & Cp & _). rewrite E4.
  assert (C4 : costs posts 15 w3 w4).
  { exists t. split; [exact T4|]. rewrite Cp.
    pose proof (filter_length_le has_url ms). lia. }
  destruct (save_session w4) as [[s|e] w5] eqn:E5;
    (assert (C5 : costs posts 0 w4 w5)
      by (revert E5; apply respects_at; apply save_session_free; intros; reflexivity));
    intros [= _ <-];
    apply (costs_weaken posts (0 + 0 + 0 + 15 + 0)); try lia;
    exact (costs_trans _ _ _ _ _ _
             (costs_trans _ _ _ _ _ _ (costs_trans _ _ _ _ _ _ C12 C3) C4) C5).
Qed.

(** X21. The timeouts handed to [WebDriverWait] during one scheduled
    check add up to at most 80 seconds (25 for the probe, 35 for the
    login, 20 on the way to the inbox), and at most 15 publish requests
    are sent.  (How long the driver takes is not part of the model.) *)
Theorem run_scheduled_check_budget w :
  exists t,
    emitted_between w (snd (run_scheduled_check w)) t /\
    total_cost wait_seconds t <= 80 /\
    total_cost posts t <= 15.
Proof.
  destruct (run_scheduled_check w) as [r w'] eqn:E. cbn [snd].
  rewrite run_scheduled_check_unfold in E.
  destruct (costs_try_finally wait_seconds 80 0 _ _ check_attempt_waits
              (quit_if_started_free wait_seconds eq_refl) _ _ _ E) as (t & T & W).
  destruct (costs_try_finally posts 15 0 _ _ check_attempt_posts
              (quit_if_started_free posts eq_refl) _ _ _ E) as (t' & T' & P).
  rewrite <- (emitted_unique _ _ _ _ T T') in P.
  exists t. split; [exact T|]. split; lia.
Qed.

End WholeRun.

(** * Runs on the simulated site *)

(** A run in which the publish request cannot be sent. *)
Lemma run_scheduled_check_survives_publishing_run :
  fst (run_scheduled_check (Sim.bot Sim.publish_fails Sim.saved_files)) = Val true \/
  exists e, fst (run_scheduled_check (Sim.bot Sim.publish_fails Sim.saved_files)) = Exc e.
Proof.
  apply (run_scheduled_check_survives_publishing
           (Sim.bot Sim.publish_fails Sim.saved_files)
           (snd (smart_login (Sim.bot Sim.publish_fails Sim.saved_files)))
           (snd (navigate_to_dms
                   (snd (smart_login (Sim.bot Sim.publish_fails Sim.saved_files))))));
    vm_compute; reflexivity.
Defined.

Lemma run_scheduled_check_true_needs_login_run :
  exists w1 w2,
    smart_login (Sim.bot Sim.quit_works Sim.saved_files) = (Val true, w1) /\
    navigate_to_dms w1 = (Val true, w2).
Proof.
  apply (run_scheduled_check_true_needs_login
           (Sim.bot Sim.quit_works Sim.saved_files)
           (snd (run_scheduled_check (Sim.bot Sim.quit_works Sim.saved_files)))).
  vm_compute. reflexivity.
Defined.


Lemma save_then_load_offers_saved_cookies_run :
  exists cookies x t,
    drv_get_cookies (ext two_cookies) = (Val cookies, x) /\
    emitted_between
      (Sim.after_setup (Sim.bot Sim.fresh (fs (snd (save_session two_cookies)))))
      (snd (load_session
              (Sim.after_setup (Sim.bot Sim.fresh (fs (snd (save_session two_cookies)))))))
      t /\
    cookies_offered t = cookies.
Proof.
  apply (save_then_load_offers_saved_cookies two_cookies (snd (save_session two_cookies)));
    vm_compute; reflexivity.
Defined.

Lemma extract_instagram_url_sound_run :
  exists pre post,
    Re.occurs_at pre "https://www.instagram.com/reel/Cx1_-a/" post
      "look https://www.instagram.com/reel/Cx1_-a/?igsh=1" /\
    Re.instagram_url "https://www.instagram.com/reel/Cx1_-a/" /\
    forall pre' url' post',
      Re.occurs_at pre' url' post' "look https://www.instagram.com/reel/Cx1_-a/?igsh=1" ->
      Re.instagram_url url' ->
      String.length pre <= String.length pre'.
Proof.
  apply (ReFacts.extract_instagram_url_sound
           "look https://www.instagram.com/reel/Cx1_-a/?igsh=1"
           "https://www.instagram.com/reel/Cx1_-a/").
  vm_compute. reflexivity.
Defined.

Lemma extract_instagram_url_idempotent_run :
  Re.extract_instagram_url "http://instagram.com/p/B-9_z" = Some "http://instagram.com/p/B-9_z".
Proof.
  apply (ReFacts.extract_instagram_url_idempotent
           "see http://instagram.com/p/B-9_z.jpg" "http://instagram.com/p/B-9_z").
  vm_compute. reflexivity.
Defined.

Lemma get_new_messages_urls_run :
  exists ms w',
    get_new_messages (H := pattern_externals) in_inbox = (Val ms, w') /\
    Forall (fun m => mentions_instagram (H := pattern_externals) (m_content m) = true /\
                     url_of_text (m_content m) (m_url m)) ms.
Proof.
  apply (get_new_messages_urls (H := pattern_externals)).
  intros text. reflexivity.
Defined.
